(** * GoHookProxy: the proxy dial layer and its connection pool

    A shallow embedding of [proxy/pool.go], [proxy/proxy.go], [proxy/http.go]
    (HTTP/HTTPS/HTTP2 and SOCKS4/SOCKS5 dialers), [errors] and the parts of
    [metrics] they call, followed by the properties checked against them.

    Go code runs against sockets, a clock and a heap.  The embedding threads
    one [state] (clock, connection table, connect log, the pool object and the
    metrics collector) through every function; a call either returns, panics
    or blocks for ever ([outcome]). *)

From stdpp Require Import base numbers option list strings pretty gmap sorting.
From Stdlib Require Import ZArith Lia.

Local Open Scope string_scope.
Local Open Scope list_scope.
Local Open Scope Z_scope.

(** ** Bytes and fixed-width integers *)

(** [byte(x)] for a Go [int]: the low eight bits. *)
Definition byte (x : Z) : Z := x mod 256.

(** [x >> n] on a Go [int]: arithmetic shift. *)
Definition shr (x : Z) (n : Z) : Z := Z.shiftr x n.

(** [uint16(x)]. *)
Definition uint16 (x : Z) : Z := x mod 65536.

(** Wrap-around of [int64] arithmetic. *)
Definition int64 (x : Z) : Z := (x + 2 ^ 63) mod 2 ^ 64 - 2 ^ 63.

(** [binary.BigEndian.PutUint16]. *)
Definition PutUint16 (v : Z) : list Z := [byte (shr v 8); byte v].

(** [binary.BigEndian.Uint16]. *)
Definition Uint16 (b : list Z) : Z :=
  match b with
  | hi :: lo :: _ => Z.lor (Z.shiftl hi 8) lo
  | _ => 0
  end.

(** [[]byte(s)]: the bytes of a string. *)
Definition bytes_of (s : string) : list Z :=
  (λ a, Z.of_N (Ascii.N_of_ascii a)) <$> String.list_ascii_of_string s.

(** [len(s)] of a string, as a Go [int]. *)
Definition strlen (s : string) : Z := Z.of_nat (String.length s).

(** [time.Second], in nanoseconds. *)
Definition Second : Z := 1000000000.

(** ** Errors (package [errors] of the repository, and the standard library's) *)

Inductive error : Type :=
  | ErrInvalidConfig
  | ErrUnsupportedProxy
  | ErrHookFailed
  | ErrProxyDialFailed
  | ErrHTTPProxyAuth
  | ErrSOCKS5Auth
  | ErrSOCKS4AAuth
  | ErrProxyProtocol
  | ErrProxyNegotiation
  | ErrConnectionTimeout
  | ErrConnectionReset
  | ErrConnectionClosed
  | ErrTLSHandshake
  | ErrCertValidation
  | ErrTLSConfig
  | ErrContextCanceled
  | ErrContextDeadlineExceeded
  | ErrPoolExhausted
  | ErrResourceLimit
  | ErrSOCKSVersionNotSupported
  | ErrSOCKSCommandNotSupported
  | ErrSOCKSAddressTypeNotSupported
  | ErrSOCKSNetworkNotSupported
  | ErrSOCKSRequestFailed
  | ErrSOCKSHandshakeFailed
  | ErrSOCKS4RequestRejected
  | ErrSOCKS4IdentdFailed
  | ErrSOCKS4IdentdMismatch
  | ErrSOCKS5NoAcceptableMethods
  | ErrSOCKS5GeneralFailure
  | ErrSOCKS5NetworkUnreachable
  | ErrSOCKS5HostUnreachable
  | ErrSOCKS5ConnectionRefused
  | ErrSOCKS5TTLExpired
  | ErrSOCKS5CommandNotSupported
  | ErrSOCKS5AddressTypeNotSupported
  | ErrSOCKSAuthMethodNotSupported
  | ErrSOCKSAuthFailed
  | ErrSOCKSAuthTimeout
  | ErrSOCKSAuthRetryExceeded
  | ErrSOCKSConnectFailed
  | ErrSOCKSConnectTimeout
  | ErrSOCKSProxyUnreachable
  (* fmt.Errorf("%s: %w", message, err) *)
  | Wrapped (message : string) (cause : error)
  (* errors.New(text), made on the spot *)
  | errors_New (text : string)
  (* the standard library's own *)
  | io_EOF
  | io_ErrUnexpectedEOF
  | os_ErrDeadlineExceeded
  | net_ErrClosed
  | ECONNRESET
  | ECONNREFUSED
  | context_Canceled
  | context_DeadlineExceeded
  | StdErr (text : string).

Global Instance error_eq_dec : EqDecision error.
Proof. solve_decision. Defined.

(** [errors.WrapError]. *)
Definition WrapError (err : error) (message : string) : error :=
  Wrapped message err.

(** [err.Error()]; only the texts the dialers embed in other errors matter. *)
Fixpoint Error (e : error) : string :=
  match e with
  | Wrapped m c => m +:+ ": " +:+ Error c
  | errors_New t => t
  | StdErr t => t
  | io_EOF => "EOF"
  | io_ErrUnexpectedEOF => "unexpected EOF"
  | os_ErrDeadlineExceeded => "i/o timeout"
  | net_ErrClosed => "use of closed network connection"
  | ECONNRESET => "connection reset by peer"
  | ECONNREFUSED => "connection refused"
  | context_Canceled => "context canceled"
  | context_DeadlineExceeded => "context deadline exceeded"
  | ErrHTTPProxyAuth => "http proxy authentication failed"
  | ErrProxyProtocol => "proxy protocol error"
  | ErrProxyNegotiation => "proxy negotiation failed"
  | ErrProxyDialFailed => "proxy dial failed"
  | ErrUnsupportedProxy => "unsupported proxy type"
  | _ => "error"
  end.

(** [errors.Is(e, target)] for the comparable errors above: walks the chain
    of [%w] wrappers. *)
Fixpoint errors_Is (e target : error) : bool :=
  bool_decide (e = target) ||
  match e with
  | Wrapped _ c => errors_Is c target
  | _ => false
  end.

(** [err.(net.Error)] with [Timeout()] true. *)
Definition is_timeout (e : error) : bool :=
  match e with
  | os_ErrDeadlineExceeded => true
  | _ => false
  end.

(** [reflect.TypeOf(err).String()]. *)
Definition reflect_TypeOf (e : error) : string :=
  match e with
  | Wrapped _ _ => "*fmt.wrapError"
  | io_ErrUnexpectedEOF | io_EOF | errors_New _ => "*errors.errorString"
  | os_ErrDeadlineExceeded => "*os.deadlineExceededError"
  | ECONNRESET | ECONNREFUSED => "syscall.Errno"
  | context_DeadlineExceeded => "context.deadlineExceededError"
  | StdErr _ | net_ErrClosed => "*net.OpError"
  | _ => "*errors.errorString"
  end.

(** [io.ErrShortBuffer] and [io.ErrNoProgress]. *)
Definition io_ErrShortBuffer : error := errors_New "short buffer".
Definition io_ErrNoProgress : error :=
  errors_New "multiple Read calls return no data or error".

(** A Go result [(value, err)] of which exactly one part is meaningful. *)
Inductive res (A : Type) : Type :=
  | Ok (a : A)
  | Err (e : error).
Global Arguments Ok {A} a.
Global Arguments Err {A} e.

(** ** Connections, as the dial layer sees them through [net.Conn] *)

(** What a read meets once everything the peer has sent is consumed. *)
Inductive peer_state : Type :=
  | PeerSilent   (* connected, nothing more to say for now *)
  | PeerClosed   (* orderly shutdown: end of file *)
  | PeerReset.   (* connection reset *)

(** The dynamic type behind the [net.Conn]. *)
Inductive conn_kind : Type :=
  | KSocket            (* *net.TCPConn, *tls.Conn *)
  | KHTTP2             (* *http2Conn: its Set*Deadline methods always fail *)
  | KUDPRelay (control : nat). (* *SocksUDPConn and its control connection *)

Global Instance peer_state_eq_dec : EqDecision peer_state.
Proof. solve_decision. Defined.
Global Instance conn_kind_eq_dec : EqDecision conn_kind.
Proof. solve_decision. Defined.

Record conn_state : Type := ConnState {
  kind : conn_kind;
  inbox : list Z;              (* bytes the peer has sent, not yet read; on a
                                  relay, the datagram that waits, if one does *)
  peer : peer_state;
  outbox : list (list Z);      (* what was written, one entry per Write, oldest first *)
  closes : nat;                (* how many times Close was called *)
  rdeadline : option Z;        (* read deadline; None is the zero time.Time *)
  wdeadline : option Z;        (* write deadline *)
  tls_ok : bool;               (* will the peer complete a TLS handshake *)
  h2_reply : option (Z * string) (* status the peer answers an HTTP/2 CONNECT with *)
}.

Definition set_inbox (v : list Z) (c : conn_state) : conn_state :=
  ConnState (kind c) v (peer c) (outbox c) (closes c) (rdeadline c) (wdeadline c) (tls_ok c) (h2_reply c).
Definition set_outbox (v : list (list Z)) (c : conn_state) : conn_state :=
  ConnState (kind c) (inbox c) (peer c) v (closes c) (rdeadline c) (wdeadline c) (tls_ok c) (h2_reply c).
Definition set_closes (v : nat) (c : conn_state) : conn_state :=
  ConnState (kind c) (inbox c) (peer c) (outbox c) v (rdeadline c) (wdeadline c) (tls_ok c) (h2_reply c).
Definition set_rdeadline (v : option Z) (c : conn_state) : conn_state :=
  ConnState (kind c) (inbox c) (peer c) (outbox c) (closes c) v (wdeadline c) (tls_ok c) (h2_reply c).
Definition set_wdeadline (v : option Z) (c : conn_state) : conn_state :=
  ConnState (kind c) (inbox c) (peer c) (outbox c) (closes c) (rdeadline c) v (tls_ok c) (h2_reply c).
Definition set_kind (v : conn_kind) (c : conn_state) : conn_state :=
  ConnState v (inbox c) (peer c) (outbox c) (closes c) (rdeadline c) (wdeadline c) (tls_ok c) (h2_reply c).

(** A handle outside the table denotes a connection that is gone. *)
Definition gone : conn_state :=
  ConnState KSocket [] PeerClosed [] 1 None None false None.

(** ** The pool's data (proxy/pool.go) *)

(** [connWithExpiry]; [conn] is a [net.Conn] interface value, [None] is nil. *)
Record connWithExpiry : Type := ConnWithExpiry {
  conn : option nat;
  expiryTime : Z
}.

(** A Go slice [[]connWithExpiry]: a window of [len] elements on a backing
    array of [length arr] (its capacity) elements.  Every slice this package
    stores under a key, and every local copy of it, starts at element 0 of the
    array of that key, so the array is kept with the stored header and a
    local copy is its length read against that array. *)
Record slice : Type := Slice {
  arr : list connWithExpiry;
  len : nat
}.

(** The elements a slice shows. *)
Definition view (s : slice) : list connWithExpiry := take (len s) (arr s).

(** The nil slice. *)
Definition nil_slice : slice := Slice [] 0.

(** [append(s[:i], s[i+1:]...)] for a window of [n] elements on array [a]:
    the result always fits, so the elements after [i] are moved one place down
    inside the same array; the last place keeps its old content. *)
Definition slice_cut (a : list connWithExpiry) (n i : nat) : slice :=
  Slice (take i a ++ take (n - S i) (drop (S i) a) ++ drop (n - 1) a) (n - 1).

(** [append(s, x)]: in place when the capacity allows, else on a fresh array.
    The package never looks beyond a slice's length after a reallocation, so
    the fresh array is given no spare room. *)
Definition slice_append (s : slice) (x : connWithExpiry) : slice :=
  if decide (len s < length (arr s))%nat
  then Slice (<[len s := x]> (arr s)) (S (len s))
  else Slice (take (len s) (arr s) ++ [x]) (S (len s)).

(** A [*metrics.MetricsCollector] field: [false] is the nil pointer. *)
Definition sinkptr : Type := bool.

Record ConnPool : Type := MkConnPool {
  idle : gmap string slice;
  active : Z;
  maxIdle : Z;
  maxActive : Z;
  idleTimeout : Z;
  metrics : sinkptr
}.

Definition set_idle (v : gmap string slice) (p : ConnPool) : ConnPool :=
  MkConnPool v (active p) (maxIdle p) (maxActive p) (idleTimeout p) (metrics p).
Definition set_active (v : Z) (p : ConnPool) : ConnPool :=
  MkConnPool (idle p) v (maxIdle p) (maxActive p) (idleTimeout p) (metrics p).

(** [p.idle[key]]: a missing key reads as the nil slice. *)
Definition idle_at (p : ConnPool) (key : string) : slice :=
  default nil_slice (idle p !! key).

(** [NewConnPool]. *)
Definition NewConnPool (maxIdle maxTotal : Z) (idleTimeout : Z) (metrics : sinkptr) : ConnPool :=
  MkConnPool ∅ 0 maxIdle maxTotal idleTimeout metrics.

(** ** The metrics collector (metrics/metrics.go) *)

Record MetricsCollector : Type := MkMetrics {
  activeConns : Z;
  totalConns : Z;
  failedConns : Z;
  totalDuration : Z;
  errorTypes : gmap string Z;
  protocolStats : gmap string Z
}.

Definition NewMetricsCollector : MetricsCollector :=
  MkMetrics 0 0 0 0 ∅ ∅.

(** ** The state every function runs in *)

Record state : Type := State {
  clock : Z;                           (* time.Now(), in nanoseconds *)
  conns : list conn_state;             (* the connections; a handle is an index *)
  dialed : list string;                (* every address a socket connect was attempted to *)
  listen : list (string * conn_state); (* who answers a connect, and how *)
  udp_bind : option error;             (* does net.ListenUDP fail *)
  pool : ConnPool;
  mc : MetricsCollector
}.

Definition set_clock (v : Z) (s : state) : state :=
  State v (conns s) (dialed s) (listen s) (udp_bind s) (pool s) (mc s).
Definition set_conns (v : list conn_state) (s : state) : state :=
  State (clock s) v (dialed s) (listen s) (udp_bind s) (pool s) (mc s).
Definition set_dialed (v : list string) (s : state) : state :=
  State (clock s) (conns s) v (listen s) (udp_bind s) (pool s) (mc s).
Definition set_pool (v : ConnPool) (s : state) : state :=
  State (clock s) (conns s) (dialed s) (listen s) (udp_bind s) v (mc s).
Definition set_mc (v : MetricsCollector) (s : state) : state :=
  State (clock s) (conns s) (dialed s) (listen s) (udp_bind s) (pool s) v.

(** Why a goroutine died. *)
Inductive panic_reason : Type :=
  | NilSink            (* a method called through the nil *MetricsCollector *)
  | NilConn            (* a method called on the nil net.Conn *)
  | NilConfig          (* a field read through the nil *Config *)
  | IndexOutOfRange.

Inductive outcome (A : Type) : Type :=
  | Done (a : A) (s : state)      (* returned [a] *)
  | Panic (why : panic_reason)
  | Hang.                         (* blocked for ever *)
Global Arguments Done {A} a s.
Global Arguments Panic {A} why.
Global Arguments Hang {A}.

Definition M (A : Type) : Type := state → outcome A.

Definition ret {A} (a : A) : M A := λ s, Done a s.

Definition bind {A B} (c : M A) (k : A → M B) : M B :=
  λ s, match c s with
       | Done a s' => k a s'
       | Panic w => Panic w
       | Hang => Hang
       end.

Notation "'let*' x ':=' c 'in' k" := (bind c (λ x, k))
  (at level 10, x pattern, c at level 100, k at level 200).
Notation "c ';;;' k" := (bind c (λ _, k))
  (at level 100, k at level 200, right associativity).

Definition panic {A} (w : panic_reason) : M A := λ _, Panic w.
Definition hang {A} : M A := λ _, Hang.
Definition gets {A} (f : state → A) : M A := λ s, Done (f s) s.
Definition modify (f : state → state) : M unit := λ s, Done tt (f s).

(** [if cond { body }]. *)
Definition when (b : bool) (c : M unit) : M unit := if b then c else ret tt.

(** [time.Now()]. *)
Definition time_Now : M Z := gets clock.

(** ** Operations of [net.Conn] *)

(** The connection behind a handle. *)
Definition conn_of (s : state) (c : nat) : conn_state :=
  default gone (conns s !! c).

Definition get_conn (c : nat) : M conn_state := gets (λ s, conn_of s c).

Definition upd_conn (c : nat) (f : conn_state → conn_state) : M unit :=
  modify (λ s, set_conns (alter f c (conns s)) s).

Definition is_closed (cs : conn_state) : bool := bool_decide (closes cs ≠ 0%nat).

(** A deadline [d] has passed at time [now]. *)
Definition expired (d : option Z) (now : Z) : bool :=
  match d with
  | Some t => bool_decide (t ≤ now)
  | None => false
  end.

(** [conn.SetReadDeadline(t)]. *)
Definition SetReadDeadline (c : nat) (t : option Z) : M (option error) :=
  let* cs := get_conn c in
  if is_closed cs then ret (Some net_ErrClosed)
  else match kind cs with
       | KHTTP2 => ret (Some (StdErr "set http2: unsupported proxy type"))
       | _ => upd_conn c (set_rdeadline t) ;;; ret None
       end.

(** [conn.SetDeadline(t)]: read and write deadline at once. *)
Definition SetDeadline (c : nat) (t : option Z) : M (option error) :=
  let* cs := get_conn c in
  if is_closed cs then ret (Some net_ErrClosed)
  else match kind cs with
       | KHTTP2 => ret (Some (StdErr "set http2: unsupported proxy type"))
       | _ => upd_conn c (λ x, set_wdeadline t (set_rdeadline t x)) ;;; ret None
       end.

(** What a read does once the inbox is empty. *)
Definition starved {A} (c : nat) (cs : conn_state) (eof : error) : M (res A) :=
  match peer cs with
  | PeerClosed => ret (Err eof)
  | PeerReset => ret (Err ECONNRESET)
  | PeerSilent =>
      match rdeadline cs with
      | Some d => modify (set_clock d) ;;; ret (Err os_ErrDeadlineExceeded)
      | None => hang
      end
  end.

(** [conn.Read(buf)] on the interface value, with [len(buf) = n], [n > 0]:
    the count it returns and what it leaves at the start of [buf].  It blocks
    while nothing is there.

    A socket gives whatever is there, at most [n] bytes.

    A relay runs [SocksUDPConn.Read]: [ReadFromUDP] takes the datagram that
    waits into a buffer of [n + 10 + 4 + 2] bytes (what does not fit is lost
    with it); under ten bytes the answer is [io.ErrShortBuffer], else the
    bytes after the first ten are copied to [buf] and the count is the bytes
    taken less ten, whether or not they fitted [buf]. *)
Definition Read (c : nat) (n : nat) : M (res (Z * list Z)) :=
  let* cs := get_conn c in
  let* now := time_Now in
  if is_closed cs then ret (Err net_ErrClosed)
  else if expired (rdeadline cs) now then ret (Err os_ErrDeadlineExceeded)
  else match inbox cs with
       | [] => starved c cs io_EOF
       | _ =>
         match kind cs with
         | KUDPRelay _ =>
             let buf := take (n + 10 + 4 + 2) (inbox cs) in
             upd_conn c (set_inbox []) ;;;
             if bool_decide (length buf < 10)%nat then ret (Err io_ErrShortBuffer)
             else ret (Ok (Z.of_nat (length buf) - 10, take n (drop 10 buf)))
         | _ =>
             upd_conn c (set_inbox (drop n (inbox cs))) ;;;
             ret (Ok (Z.of_nat (length (take n (inbox cs))), take n (inbox cs)))
         end
       end.

(** Reading exactly [n] bytes from a socket; [short] is the error when the
    stream ends after some but not all of them. *)
Definition read_exactly (short : error) (c : nat) (n : nat) : M (res (list Z)) :=
  match n with
  | O => ret (Ok [])
  | _ =>
    let* cs := get_conn c in
    let* now := time_Now in
    if is_closed cs then ret (Err net_ErrClosed)
    else if expired (rdeadline cs) now then ret (Err os_ErrDeadlineExceeded)
    else if decide (n ≤ length (inbox cs))%nat
    then upd_conn c (set_inbox (drop n (inbox cs))) ;;; ret (Ok (take n (inbox cs)))
    else upd_conn c (set_inbox []) ;;;
         starved c cs (match inbox cs with [] => io_EOF | _ => short end)
  end.

(** [io.ReadFull(conn, buf)] with [len(buf) = n]. *)
Definition io_ReadFull (c : nat) (n : nat) : M (res (list Z)) :=
  read_exactly io_ErrUnexpectedEOF c n.

(** [io.CopyN(io.Discard, conn, n)]: its error, if any. *)
Definition io_CopyN_Discard (c : nat) (n : nat) : M (option error) :=
  let* r := read_exactly io_EOF c n in
  match r with
  | Ok _ => ret None
  | Err e => ret (Some e)
  end.

(** [conn.Write(b)] on a socket. *)
Definition Write (c : nat) (b : list Z) : M (option error) :=
  let* cs := get_conn c in
  let* now := time_Now in
  if is_closed cs then ret (Some net_ErrClosed)
  else if expired (wdeadline cs) now then ret (Some os_ErrDeadlineExceeded)
  else match peer cs with
       | PeerReset => ret (Some ECONNRESET)
       | _ => upd_conn c (set_outbox (outbox cs ++ [b]))
       ;;; ret None
       end.

(** [conn.Close()] on an interface value; the error it returns is dropped by
    every caller.  The first Close of a relay closes its control connection
    too. *)
Definition conn_Close (conn : option nat) : M unit :=
  match conn with
  | None => panic NilConn
  | Some c =>
    let* cs := get_conn c in
    match kind cs with
    | KUDPRelay ctl =>
        (if is_closed cs then ret tt
         else upd_conn ctl (λ x, set_closes (S (closes x)) x)) ;;;
        upd_conn c (λ x, set_closes (S (closes x)) x)
    | _ => upd_conn c (λ x, set_closes (S (closes x)) x)
    end
  end.

(** ** Methods of [*MetricsCollector]

    The receiver is the pointer the caller holds; a method called through the
    nil pointer touches its fields and panics. *)

Module MetricsCollector.

Definition on_collector (recv : sinkptr) (f : MetricsCollector → MetricsCollector) : M unit :=
  if recv then modify (λ s, set_mc (f (mc s)) s) else panic NilSink.

Definition bump (k : string) (m : gmap string Z) : gmap string Z :=
  match m !! k with
  | Some v => <[k := int64 (v + 1)]> m
  | None => <[k := 1]> m
  end.

Definition RecordConnection (recv : sinkptr) (duration : Z) : M unit :=
  on_collector recv (λ m,
    MkMetrics (activeConns m) (int64 (totalConns m + 1)) (failedConns m)
              (int64 (totalDuration m + duration)) (errorTypes m) (protocolStats m)).

Definition RecordFailure (recv : sinkptr) (err : error) : M unit :=
  on_collector recv (λ m,
    MkMetrics (activeConns m) (totalConns m) (int64 (failedConns m + 1))
              (totalDuration m) (errorTypes m) (protocolStats m)).

Definition IncrementActiveConnections (recv : sinkptr) : M unit :=
  on_collector recv (λ m,
    MkMetrics (int64 (activeConns m + 1)) (totalConns m) (failedConns m)
              (totalDuration m) (errorTypes m) (protocolStats m)).

Definition DecrementActiveConnections (recv : sinkptr) : M unit :=
  on_collector recv (λ m,
    MkMetrics (int64 (activeConns m - 1)) (totalConns m) (failedConns m)
              (totalDuration m) (errorTypes m) (protocolStats m)).

Definition RecordLatency (recv : sinkptr) (d : Z) : M unit :=
  on_collector recv (λ m,
    MkMetrics (activeConns m) (totalConns m) (failedConns m)
              (int64 (totalDuration m + d)) (errorTypes m) (protocolStats m)).

Definition RecordErrorType (recv : sinkptr) (err : error) : M unit :=
  on_collector recv (λ m,
    MkMetrics (activeConns m) (totalConns m) (failedConns m)
              (totalDuration m) (bump (reflect_TypeOf err) (errorTypes m)) (protocolStats m)).

Definition RecordProtocol (recv : sinkptr) (proto : string) : M unit :=
  on_collector recv (λ m,
    MkMetrics (activeConns m) (totalConns m) (failedConns m)
              (totalDuration m) (errorTypes m) (bump proto (protocolStats m))).

End MetricsCollector.

(** ** The liveness probe (proxy/pool.go) *)

(** [isConnAlive]. *)
Definition isConnAlive (conn : option nat) : M bool :=
  match conn with
  | None => ret false
  | Some c =>
    let* now := time_Now in
    let* err := SetReadDeadline c (Some (now + Second)) in
    match err with
    | Some _ => ret false
    | None =>
      let* r := Read c 1 in
      match r with
      | Err e =>
          if bool_decide (e = io_EOF) then ret false
          else if is_timeout e then SetReadDeadline c None ;;; ret true
          else ret false
      | Ok _ => SetReadDeadline c None ;;; ret true
      end
    end
  end.

(** ** The pool's methods (proxy/pool.go) *)

Module ConnPool.

(** Reading a field through the pool pointer. *)
Definition p_field {A} (f : ConnPool → A) : M A := gets (λ s, f (pool s)).

(** [p.metrics]. *)
Definition p_metrics : M sinkptr := p_field metrics.

(** [p.idle[key]]. *)
Definition p_idle (key : string) : M slice := p_field (λ p, idle_at p key).

Definition upd_pool (f : ConnPool → ConnPool) : M unit :=
  modify (λ s, set_pool (f (pool s)) s).

(** [p.idle[key] = v]. *)
Definition store_idle (key : string) (v : slice) : M unit :=
  upd_pool (λ p, set_idle (<[key := v]> (idle p)) p).

(** [p.active += d], on an int64. *)
Definition add_active (d : Z) : M unit :=
  upd_pool (λ p, set_active (int64 (active p + d)) p).

(** [conns[i]] where [conns] is a window of [n] elements on the array kept
    under [key]. *)
Definition index (key : string) (n i : nat) : M connWithExpiry :=
  let* conns := p_idle key in
  match (if decide (i < n)%nat then arr conns !! i else None) with
  | Some e => ret e
  | None => panic IndexOutOfRange
  end.

(** [removeConn]. *)
Definition removeConn (key : string) (index_ : nat) : M unit :=
  let* conns := p_idle key in
  let* e := index key (len conns) index_ in
  store_idle key (slice_cut (arr conns) (len conns) index_) ;;;
  conn_Close (conn e).

(** The [for i := len(conns) - 1; i >= 0; i--] loop of [Get], entered with
    [i + 1 = i1]; [n] is [len(conns)] of the local copy taken before the loop,
    still a window on the array kept under [key].  Falling out of the loop
    leaves for the final [return nil, nil]. *)
Fixpoint Get_loop (key : string) (n : nat) (i1 : nat) : M (option nat * option error) :=
  match i1 with
  | O => ret (None, None)
  | S i =>
    let* connExp := index key n i in
    let* now := time_Now in
    if bool_decide (expiryTime connExp < now) then
      removeConn key i ;;;
      Get_loop key n i
    else
      let* alive := isConnAlive (conn connExp) in
      if alive then
        let* cur := p_idle key in
        store_idle key (slice_cut (arr cur) n i) ;;;
        add_active 1 ;;;
        (let* m := p_metrics in
         when m (MetricsCollector.IncrementActiveConnections m)) ;;;
        add_active 1 ;;;
        (let* m := p_metrics in
         when m (MetricsCollector.RecordConnection m 0)) ;;;
        ret (conn connExp, None)
      else
        removeConn key i ;;;
        Get_loop key n i
  end.

(** [Get]. *)
Definition Get (network addr : string) : M (option nat * option error) :=
  let key := network +:+ ":" +:+ addr in
  let* active_ := p_field active in
  let* maxActive_ := p_field maxActive in
  if bool_decide (maxActive_ ≤ active_) then
    (let* m := p_metrics in
     when m (MetricsCollector.RecordErrorType m
               (errors_New "connection pool: max active connections reached"))) ;;;
    ret (None, Some (errors_New "connection pool: max active connections reached"))
  else
    let* conns := p_idle key in
    if bool_decide (0 < len conns)%nat
    then Get_loop key (len conns) (len conns)
    else ret (None, None).

(** [Put]. *)
Definition Put (network addr : string) (conn : option nat) : M unit :=
  match conn with
  | None => ret tt
  | Some _ =>
    let key := network +:+ ":" +:+ addr in
    let* conns := p_idle key in
    let* maxIdle_ := p_field maxIdle in
    if bool_decide (maxIdle_ ≤ Z.of_nat (len conns)) then
      conn_Close conn ;;;
      add_active (-1) ;;;
      let* m := p_metrics in
      when m (MetricsCollector.DecrementActiveConnections m)
    else
      let* now := time_Now in
      let* idleTimeout_ := p_field idleTimeout in
      store_idle key (slice_append conns (ConnWithExpiry conn (now + idleTimeout_))) ;;;
      add_active (-1) ;;;
      let* m := p_metrics in
      when m (MetricsCollector.DecrementActiveConnections m)
  end.

(** The inner loop of [CleanUp] over the elements of one key; [alive] is the
    slice being built. *)
Fixpoint CleanUp_scan (now : Z) (elems alive : list connWithExpiry) : M (list connWithExpiry) :=
  match elems with
  | [] => ret alive
  | connExp :: rest =>
    if bool_decide (expiryTime connExp < now) then
      conn_Close (conn connExp) ;;;
      add_active (-1) ;;;
      CleanUp_scan now rest alive
    else
      let* ok := isConnAlive (conn connExp) in
      if negb ok then
        conn_Close (conn connExp) ;;;
        add_active (-1) ;;;
        CleanUp_scan now rest alive
      else CleanUp_scan now rest (alive ++ [connExp])
  end.

(** The body of [for key, conns := range p.idle] for one key. *)
Definition CleanUp_key (now : Z) (key : string) : M unit :=
  let* present := p_field (λ p, idle p !! key) in
  match present with
  | None => ret tt
  | Some conns =>
    let* alive := CleanUp_scan now (view conns) [] in
    if bool_decide (length alive = 0%nat)
    then upd_pool (λ p, set_idle (delete key (idle p)) p)
    else store_idle key (Slice alive (length alive))
  end.

(** The outer loop, visiting the keys in the order [keys]. *)
Fixpoint CleanUp_keys (now : Z) (keys : list string) : M unit :=
  match keys with
  | [] => ret tt
  | key :: rest => CleanUp_key now key ;;; CleanUp_keys now rest
  end.

(** [CleanUp].  Go leaves the order of a range over a map open; the keys are
    visited here in the order [map_to_list] lists them.  The count of cleaned
    entries only feeds a log line. *)
Definition CleanUp : M unit :=
  let* now := time_Now in
  let* keys := p_field (λ p, fst <$> map_to_list (idle p)) in
  CleanUp_keys now keys.

(** [Stats], the pool's snapshot. *)
Record Stats : Type := MkStats {
  ActiveCount : Z;
  IdleCount : Z;
  TotalCount : Z;
  IdleTimeout : Z;
  MaxIdleConns : Z;
  MaxActive : Z
}.

(** [Stats()]: the method. *)
Definition Stats_ : M Stats :=
  let* idle_ := p_field idle in
  let idleCount :=
    map_fold (λ _ conns acc, int64 (acc + Z.of_nat (len conns))) 0 idle_ in
  let* active_ := p_field active in
  let* idleTimeout_ := p_field idleTimeout in
  let* maxIdle_ := p_field maxIdle in
  let* maxActive_ := p_field maxActive in
  ret (MkStats active_ idleCount (int64 (active_ + idleCount))
               idleTimeout_ maxIdle_ maxActive_).

End ConnPool.

(** ** The wrapper handed to callers (proxy/pool.go) *)

Record poolConn : Type := MkPoolConn {
  Conn : option nat;
  network : string;
  addr : string;
  once : bool            (* sync.Once: has it fired *)
}.

Module poolConn.

(** [Close]; the wrapper is returned with its [once] updated. *)
Definition Close (c : poolConn) : M poolConn :=
  if once c then ret c
  else
    let* alive := isConnAlive (Conn c) in
    (if alive then ConnPool.Put (network c) (addr c) (Conn c)
     else conn_Close (Conn c)) ;;;
    ret (MkPoolConn (Conn c) (network c) (addr c) true).

End poolConn.

(** ** What the dialers take from Go's standard library

    Pure functions of packages [net], [strconv] and [net/http] that the
    dialers call.  The dialers are written against this interface; an
    instance that computes is given further down. *)

(** What [http.ReadResponse] makes of the bytes its buffered reader has taken
    from the connection so far. *)
Inductive http_parse : Type :=
  | Parsed (StatusCode : Z) (Status : string) (* it returns the response *)
  | Malformed (e : error)                      (* it returns this error *)
  | Incomplete (room : nat).                   (* it needs more: the reader reads
                                                  again, [room] bytes at most *)

Class GoLib : Type := {
  (* net.SplitHostPort *)
  net_SplitHostPort : string → res (string * string);
  (* strconv.Atoi *)
  strconv_Atoi : string → res Z;
  (* net.ParseIP; None is the nil IP *)
  net_ParseIP : string → option (list Z);
  (* net.ResolveUDPAddr(network, addr): IP and port *)
  net_ResolveUDPAddr : string → string → res (list Z * Z);
  (* the bytes Request.Write sends for a CONNECT to host, with the
     user and password given to SetBasicAuth, if it was called *)
  http_Request_Write : string → option (string * string) → list Z;
  (* http.ReadResponse(bufio.NewReader(conn), req), its reader having taken
     these bytes from conn *)
  http_ReadResponse : list Z → http_parse;
  (* the error http.ReadResponse returns when the read that follows these
     bytes fails with the given error *)
  http_ReadResponse_cut : list Z → error → error;
  (* resp.Body.Close(), the reader having taken these bytes: None, it
     returns; Some room, it first reads again, room bytes at most *)
  http_Body_Close : list Z → option nat;
  (* http.NewRequestWithContext(ctx, "CONNECT", url, body): its error *)
  http_NewRequest : string → option error
}.

(** [net.IP.To4]. *)
Definition To4 (ip : list Z) : option (list Z) :=
  if decide (length ip = 4%nat) then Some ip
  else if decide (length ip = 16%nat ∧ take 10 ip = replicate 10 0 ∧
                  ip !! 10%nat = Some 255 ∧ ip !! 11%nat = Some 255)
       then Some (drop 12 ip)
       else None.

(** [net.IP.To16]; the nil result appends nothing. *)
Definition To16 (ip : list Z) : list Z :=
  if decide (length ip = 4%nat) then replicate 10 0 ++ [255; 255] ++ ip
  else if decide (length ip = 16%nat) then ip
  else [].

(** [b[i]] on a buffer that was filled. *)
Definition at_ (b : list Z) (i : nat) : Z := default 0 (b !! i).

(** ** Contexts *)

Record context : Type := MkContext {
  ctx_canceled : bool;          (* cancel() was called *)
  ctx_deadline : option Z       (* ctx.Deadline() *)
}.

(** [context.Background()]. *)
Definition Background : context := MkContext false None.

(** [ctx.Err()] at time [now]. *)
Definition ctx_Err (ctx : context) (now : Z) : option error :=
  if ctx_canceled ctx then Some context_Canceled
  else if expired (ctx_deadline ctx) now then Some context_DeadlineExceeded
  else None.

(** ** Reaching the network *)

(** A new connection enters the table; its handle is the next index. *)
Definition new_conn (cs : conn_state) : M nat :=
  let* n := gets (λ s, length (conns s)) in
  modify (λ s, set_conns (conns s ++ [cs]) s) ;;;
  ret n.

(** A socket connect to [address]: logged, then answered by whoever listens. *)
Definition connect (address : string) : M (res nat) :=
  modify (λ s, set_dialed (dialed s ++ [address]) s) ;;;
  let* servers := gets listen in
  match (list_find (λ e, e.1 = address) servers) with
  | Some (_, (_, script)) =>
      let* c := new_conn script in
      ret (Ok c)
  | None => ret (Err ECONNREFUSED)
  end.

(** [net.DialTimeout("tcp", address, timeout)]. *)
Definition net_DialTimeout (address : string) : M (res nat) := connect address.

(** [net.Dialer.DialContext(ctx, "tcp", address)]: gives up before
    connecting when the context is done. *)
Definition net_Dialer_DialContext (ctx : context) (address : string) : M (res nat) :=
  let* now := time_Now in
  match ctx_Err ctx now with
  | Some e => ret (Err e)
  | None => connect address
  end.

(** [tls.Client(conn, cfg).HandshakeContext(ctx)]. *)
Definition tls_Handshake (ctx : context) (c : nat) : M (option error) :=
  let* now := time_Now in
  let* cs := get_conn c in
  match ctx_Err ctx now with
  | Some e => ret (Some e)
  | None =>
    if is_closed cs then ret (Some net_ErrClosed)
    else if tls_ok cs then ret None
    else ret (Some (StdErr "tls: handshake failure"))
  end.

(** [net.ListenUDP(network, nil)], bound to the control connection [ctl]. *)
Definition net_ListenUDP (ctl : nat) : M (res nat) :=
  let* bind_err := gets udp_bind in
  match bind_err with
  | Some e => ret (Err e)
  | None =>
      let* c := new_conn (ConnState (KUDPRelay ctl) [] PeerSilent [] 0 None None false None) in
      ret (Ok c)
  end.

(** ** Configuration (package [config]) *)

Inductive ProxyType : Type :=
  | Direct | HTTP | HTTPS | HTTP2 | SOCKS4 | SOCKS4A | SOCKS5
  | OtherProxyType (name : string).

Global Instance ProxyType_eq_dec : EqDecision ProxyType.
Proof. solve_decision. Defined.

(** [string(t)]. *)
Definition ProxyType_string (t : ProxyType) : string :=
  match t with
  | Direct => "direct" | HTTP => "http" | HTTPS => "https" | HTTP2 => "http2"
  | SOCKS4 => "socks4" | SOCKS4A => "socks4a" | SOCKS5 => "socks5"
  | OtherProxyType n => n
  end.

Record HTTPConfig : Type := MkHTTPConfig {
  http_User : string;
  http_Pass : string
}.

Record SOCKSConfig : Type := MkSOCKSConfig {
  EnableUDP : bool;
  socks_User : string;
  socks_Pass : string
}.

(** [s] is not the empty string. *)
Definition nonempty (s : string) : bool := negb (bool_decide (s = EmptyString)).

(** ** Reading an HTTP response off a connection

    [http.ReadResponse] and [resp.Body.Close] read through one
    [bufio.Reader]; the library says after each read whether it wants another
    and how large.  A read that returns brings at least one byte, so [fuel],
    one more than the bytes that wait, only runs out against a library that
    asks for reads of no bytes; the reader then gives up as [bufio] does. *)

Section Reader.
Context `{L : GoLib}.

Fixpoint ReadResponse_loop (fuel : nat) (conn : nat) (got : list Z)
    : M (res (Z * string) * list Z) :=
  match http_ReadResponse got with
  | Parsed StatusCode Status => ret (Ok (StatusCode, Status), got)
  | Malformed err => ret (Err err, got)
  | Incomplete room =>
    match fuel with
    | O => ret (Err io_ErrNoProgress, got)
    | S fuel' =>
      let* r := Read conn room in
      match r with
      | Err err => ret (Err (http_ReadResponse_cut got err), got)
      | Ok (_, more) => ReadResponse_loop fuel' conn (got ++ more)
      end
    end
  end.

(** [http.ReadResponse(bufio.NewReader(conn), req)]: the response, or the
    error, and what the reader took from the connection.  The buffer of the
    new reader is empty and holds 4096 bytes, so it starts with a read of
    that size. *)
Definition http_ReadResponse_from (conn : nat) : M (res (Z * string) * list Z) :=
  let* r := Read conn 4096 in
  match r with
  | Err err => ret (Err (http_ReadResponse_cut [] err), [])
  | Ok (_, got) =>
    let* cs := get_conn conn in
    ReadResponse_loop (S (length (inbox cs))) conn got
  end.

Fixpoint Body_Close_loop (fuel : nat) (conn : nat) (got : list Z) : M unit :=
  match http_Body_Close got with
  | None => ret tt
  | Some room =>
    match fuel with
    | O => ret tt
    | S fuel' =>
      let* r := Read conn room in
      match r with
      | Err _ => ret tt
      | Ok (_, more) => Body_Close_loop fuel' conn (got ++ more)
      end
    end
  end.

(** [resp.Body.Close()] after the reader took [got]: it reads on until the
    body is drained as far as the library drains it, or a read fails; its
    error is dropped by the caller. *)
Definition Body_Close (conn : nat) (got : list Z) : M unit :=
  let* cs := get_conn conn in
  Body_Close_loop (S (length (inbox cs))) conn got.

End Reader.

(** ** The HTTP, HTTPS and HTTP/2 dialer (proxy/http.go) *)

Module HTTPProxyDialer.

Record t : Type := Mk {
  proxyURL_Host : string;
  proxyType : ProxyType;
  tlsConfig : bool;           (* false is the nil *tls.Config *)
  Config : HTTPConfig;
  metrics : sinkptr
}.

Section Dial.
Context `{L : GoLib}.

(** [req.SetBasicAuth] when a user is configured. *)
Definition basic_auth (d : t) : option (string * string) :=
  if nonempty (http_User (Config d))
  then Some (http_User (Config d), http_Pass (Config d))
  else None.

(** [sendConnectRequest].  The buffered reader is dropped with what it holds
    when the function returns; the deferred [resp.Body.Close()] runs once the
    result is fixed, before the caller sees it. *)
Definition sendConnectRequest (d : t) (conn : nat) (addr : string) : M (option error) :=
  let* werr := Write conn (http_Request_Write addr (basic_auth d)) in
  match werr with
  | Some err => ret (Some (WrapError ErrProxyNegotiation (Error err)))
  | None =>
    let* resp := http_ReadResponse_from conn in
    match resp with
    | (Err err, _) => ret (Some (WrapError ErrProxyNegotiation (Error err)))
    | (Ok (StatusCode, Status), got) =>
      let result :=
        if bool_decide (StatusCode = 407) then Some ErrHTTPProxyAuth
        else if negb (bool_decide (StatusCode = 200))
        then Some (WrapError ErrProxyProtocol Status)
        else None in
      Body_Close conn got ;;;
      ret result
    end
  end.

(** [dialHTTP]. *)
Definition dialHTTP (d : t) (ctx : context) (addr : string) : M (res nat) :=
  let* r := net_Dialer_DialContext ctx (proxyURL_Host d) in
  match r with
  | Err err =>
    let* now := time_Now in
    if bool_decide (ctx_Err ctx now = Some context_DeadlineExceeded)
    then ret (Err ErrConnectionTimeout)
    else ret (Err (WrapError ErrProxyDialFailed (Error err)))
  | Ok conn =>
    let* e := sendConnectRequest d conn addr in
    match e with
    | Some err => conn_Close (Some conn) ;;; ret (Err err)
    | None => ret (Ok conn)
    end
  end.

(** [dialHTTPS].  The deferred function looks at the outer [err], which the
    inner [if err := ...] statements shadow and never assign: after a
    successful connect it stays nil and the deferred close does not run. *)
Definition dialHTTPS (d : t) (ctx : context) (addr : string) : M (res nat) :=
  if negb (tlsConfig d)
  then ret (Err (WrapError ErrTLSConfig "TLS configuration is missing"))
  else
    let* r := net_Dialer_DialContext ctx (proxyURL_Host d) in
    match r with
    | Err err =>
      let* now := time_Now in
      if bool_decide (ctx_Err ctx now = Some context_DeadlineExceeded)
      then ret (Err ErrConnectionTimeout)
      else ret (Err (WrapError ErrProxyDialFailed (Error err)))
    | Ok conn =>
      let* h := tls_Handshake ctx conn in
      match h with
      | Some err => ret (Err (WrapError ErrTLSHandshake (Error err)))
      | None =>
        let* e := sendConnectRequest d conn addr in
        match e with
        | Some err => ret (Err err)
        | None => ret (Ok conn)
        end
      end
    end.

(** [client.Do(req)] over the HTTP/2 transport whose [DialTLS] connects to
    the proxy and shakes hands: the status the proxy answers with. *)
Definition http2_Do (d : t) (ctx : context) : M (res (Z * string)) :=
  let* r := net_Dialer_DialContext ctx (proxyURL_Host d) in
  match r with
  | Err err => ret (Err (WrapError ErrProxyDialFailed (Error err)))
  | Ok conn =>
    let* h := tls_Handshake ctx conn in
    match h with
    | Some err =>
      conn_Close (Some conn) ;;;
      ret (Err (WrapError ErrTLSHandshake (Error err)))
    | None =>
      let* cs := get_conn conn in
      match h2_reply cs with
      | Some st => ret (Ok st)
      | None => ret (Err (StdErr "http2: server sent no response"))
      end
    end
  end.

(** [dialHTTP2]; the [*http2Conn] it returns is a connection of its own. *)
Definition dialHTTP2 (d : t) (ctx : context) (addr : string) : M (res nat) :=
  match http_NewRequest ("https://" +:+ proxyURL_Host d) with
  | Some err => ret (Err (WrapError ErrProxyNegotiation (Error err)))
  | None =>
    let* r := http2_Do d ctx in
    match r with
    | Err err => ret (Err (WrapError ErrProxyNegotiation (Error err)))
    | Ok (StatusCode, Status) =>
      if negb (bool_decide (StatusCode = 200))
      then ret (Err (WrapError ErrProxyProtocol Status))
      else
        let* c := new_conn (ConnState KHTTP2 [] PeerSilent [] 0 None None false None) in
        ret (Ok c)
    end
  end.

Definition is_tcp (network : string) : bool :=
  bool_decide (network = "tcp") || bool_decide (network = "tcp4") ||
  bool_decide (network = "tcp6").

(** [DialContext]. *)
Definition DialContext (d : t) (ctx : context) (network addr : string) : M (res nat) :=
  let* start := time_Now in
  when (metrics d) (MetricsCollector.RecordConnection (metrics d) 0) ;;;
  if negb (is_tcp network)
  then ret (Err (WrapError ErrUnsupportedProxy ("unsupported network type: " +:+ network)))
  else
    let* now := time_Now in
    match ctx_Err ctx now with
    | Some e =>
      if bool_decide (e = context_DeadlineExceeded)
      then ret (Err ErrContextDeadlineExceeded)
      else ret (Err ErrContextCanceled)
    | None =>
      let* r :=
        match proxyType d with
        | HTTP => let* r := dialHTTP d ctx addr in ret (Some r)
        | HTTPS => let* r := dialHTTPS d ctx addr in ret (Some r)
        | HTTP2 => let* r := dialHTTP2 d ctx addr in ret (Some r)
        | _ => ret None
        end in
      match r with
      | None => ret (Err (WrapError ErrUnsupportedProxy (ProxyType_string (proxyType d))))
      | Some (Err err) =>
        when (metrics d) (MetricsCollector.RecordFailure (metrics d) err) ;;;
        ret (Err err)
      | Some (Ok conn) =>
        let* now := time_Now in
        when (metrics d)
          (MetricsCollector.IncrementActiveConnections (metrics d) ;;;
           MetricsCollector.RecordConnection (metrics d) (now - start)) ;;;
        ret (Ok conn)
      end
    end.

(** [Dial]. *)
Definition Dial (d : t) (network addr : string) : M (res nat) :=
  DialContext d Background network addr.

End Dial.
End HTTPProxyDialer.

(** ** The SOCKS4/4a and SOCKS5 dialer (proxy/http.go, second part) *)

Module SocksDialer.

Record t : Type := Mk {
  proxyURL : string;
  proxyType : ProxyType;
  Config : SOCKSConfig;
  metrics : sinkptr
}.

Section Dial.
Context `{L : GoLib}.

(** [validateNetwork]. *)
Definition validateNetwork (d : t) (network : string) : option error :=
  if bool_decide (network = "tcp") || bool_decide (network = "tcp4") ||
     bool_decide (network = "tcp6") then None
  else if bool_decide (network = "udp") || bool_decide (network = "udp4") ||
          bool_decide (network = "udp6")
  then (if negb (EnableUDP (Config d)) then Some ErrSOCKSNetworkNotSupported else None)
  else Some ErrSOCKSNetworkNotSupported.

(** [if deadline, ok := ctx.Deadline(); ok { proxyConn.SetDeadline(deadline) }]. *)
Definition apply_deadline (ctx : context) (proxyConn : nat) : M unit :=
  match ctx_deadline ctx with
  | Some deadline => SetDeadline proxyConn (Some deadline) ;;; ret tt
  | None => ret tt
  end.

(** [dialSocks4]. *)
Definition dialSocks4 (d : t) (ctx : context) (addr : string) : M (res nat) :=
  match net_SplitHostPort addr with
  | Err err => ret (Err err)
  | Ok (host, port) =>
  match strconv_Atoi port with
  | Err err => ret (Err err)
  | Ok portNum =>
  let* r := net_DialTimeout (proxyURL d) in
  match r with
  | Err _ => ret (Err ErrSOCKSProxyUnreachable)
  | Ok proxyConn =>
  apply_deadline ctx proxyConn ;;;
  let req := [4; 1; byte (shr portNum 8); byte (Z.land portNum 255)] in
  let ip := net_ParseIP host in
  match (match ip with
         | Some ip_ =>
             match To4 ip_ with
             | None => None
             | Some ip4 => Some (req ++ ip4)
             end
         | None => Some (req ++ [0; 0; 0; 1])
         end) with
  | None =>
    conn_Close (Some proxyConn) ;;;
    ret (Err ErrSOCKSAddressTypeNotSupported)
  | Some req =>
  let req := if nonempty (socks_User (Config d))
             then req ++ bytes_of (socks_User (Config d)) else req in
  let req := req ++ [0] in
  let req := match ip with
             | None => (req ++ bytes_of host) ++ [0]
             | Some _ => req
             end in
  let* werr := Write proxyConn req in
  match werr with
  | Some err => conn_Close (Some proxyConn) ;;; ret (Err err)
  | None =>
  let* rd := io_ReadFull proxyConn 8 in
  match rd with
  | Err err => conn_Close (Some proxyConn) ;;; ret (Err err)
  | Ok resp =>
    if negb (bool_decide (at_ resp 1 = 90)) then
      conn_Close (Some proxyConn) ;;;
      if bool_decide (at_ resp 1 = 91) then ret (Err ErrSOCKSConnectFailed)
      else if bool_decide (at_ resp 1 = 92) then ret (Err ErrSOCKSAuthFailed)
      else if bool_decide (at_ resp 1 = 93) then ret (Err ErrSOCKSAuthFailed)
      else ret (Err ErrSOCKSConnectFailed)
    else ret (Ok proxyConn)
  end end end end end end.

(** [authenticateSocks5]. *)
Definition authenticateSocks5 (d : t) (conn : nat) : M (option error) :=
  let username := bytes_of (socks_User (Config d)) in
  let password := bytes_of (socks_Pass (Config d)) in
  let req := [1; byte (Z.of_nat (length username))] in
  let req := req ++ username in
  let req := req ++ [byte (Z.of_nat (length password))] in
  let req := req ++ password in
  let* werr := Write conn req in
  match werr with
  | Some err => ret (Some err)
  | None =>
    let* rd := io_ReadFull conn 2 in
    match rd with
    | Err err => ret (Some err)
    | Ok resp =>
      if negb (bool_decide (at_ resp 1 = 0)) then ret (Some ErrSOCKSAuthFailed)
      else ret None
    end
  end.

(** The request frame [dialSocks5] builds for [host] and [portNum]. *)
Definition socks5_request (host : string) (portNum : Z) : list Z :=
  let req := [5; 1; 0] in
  let req :=
    match net_ParseIP host with
    | None => ((req ++ [3]) ++ [byte (strlen host)]) ++ bytes_of host
    | Some ip =>
      match To4 ip with
      | Some ip4 => (req ++ [1]) ++ ip4
      | None => (req ++ [4]) ++ To16 ip
      end
    end in
  req ++ PutUint16 (uint16 portNum).

(** The [switch resp[3]] of [dialSocks5] that skips the bound address. *)
Definition skip_bound (proxyConn : nat) (atyp : Z) : M (option error) :=
  if bool_decide (atyp = 1) then io_CopyN_Discard proxyConn (4 + 2)
  else if bool_decide (atyp = 3) then
    let* l := io_ReadFull proxyConn 1 in
    match l with
    | Err err => ret (Some err)
    | Ok length_ => io_CopyN_Discard proxyConn (Z.to_nat (at_ length_ 0) + 2)
    end
  else if bool_decide (atyp = 4) then io_CopyN_Discard proxyConn (16 + 2)
  else ret None.

(** [dialSocks5]. *)
Definition dialSocks5 (d : t) (ctx : context) (addr : string) : M (res nat) :=
  let* r := net_DialTimeout (proxyURL d) in
  match r with
  | Err _ => ret (Err ErrSOCKSProxyUnreachable)
  | Ok proxyConn =>
  apply_deadline ctx proxyConn ;;;
  let methods := if nonempty (socks_User (Config d)) && nonempty (socks_Pass (Config d))
                 then [2] else [0] in
  let authReq := [5; byte (Z.of_nat (length methods))] ++ methods in
  let* werr := Write proxyConn authReq in
  match werr with
  | Some err => conn_Close (Some proxyConn) ;;; ret (Err err)
  | None =>
  let* rd := io_ReadFull proxyConn 2 in
  match rd with
  | Err err => conn_Close (Some proxyConn) ;;; ret (Err err)
  | Ok authResp =>
  if negb (bool_decide (at_ authResp 0 = 5)) then
    conn_Close (Some proxyConn) ;;; ret (Err ErrSOCKSVersionNotSupported)
  else
  let* aerr := (if bool_decide (at_ authResp 1 = 2)
                then authenticateSocks5 d proxyConn else ret None) in
  match aerr with
  | Some err => conn_Close (Some proxyConn) ;;; ret (Err err)
  | None =>
  match net_SplitHostPort addr with
  | Err err => conn_Close (Some proxyConn) ;;; ret (Err err)
  | Ok (host, port) =>
  match strconv_Atoi port with
  | Err err => conn_Close (Some proxyConn) ;;; ret (Err err)
  | Ok portNum =>
  let* werr := Write proxyConn (socks5_request host portNum) in
  match werr with
  | Some err => conn_Close (Some proxyConn) ;;; ret (Err err)
  | None =>
  let* rd := io_ReadFull proxyConn 4 in
  match rd with
  | Err err => conn_Close (Some proxyConn) ;;; ret (Err err)
  | Ok resp =>
  if negb (bool_decide (at_ resp 1 = 0)) then
    conn_Close (Some proxyConn) ;;; ret (Err ErrSOCKSConnectFailed)
  else
  let* serr := skip_bound proxyConn (at_ resp 3) in
  match serr with
  | Some err => conn_Close (Some proxyConn) ;;; ret (Err err)
  | None => ret (Ok proxyConn)
  end end end end end end end end end.

(** [dialUDPSocks5]; the local address is nil in every call. *)
Definition dialUDPSocks5 (d : t) (network : string) : M (res nat) :=
  let* r := net_DialTimeout (proxyURL d) in
  match r with
  | Err err => ret (Err err)
  | Ok proxyConn =>
  let* aerr := authenticateSocks5 d proxyConn in
  match aerr with
  | Some err => conn_Close (Some proxyConn) ;;; ret (Err err)
  | None =>
  let req := [5; 3; 0; 1; 0; 0; 0; 0; 0; 0] in
  let* werr := Write proxyConn req in
  match werr with
  | Some err => conn_Close (Some proxyConn) ;;; ret (Err err)
  | None =>
  let* rd := io_ReadFull proxyConn 4 in
  match rd with
  | Err err => conn_Close (Some proxyConn) ;;; ret (Err err)
  | Ok resp =>
  if negb (bool_decide (at_ resp 1 = 0)) then
    conn_Close (Some proxyConn) ;;; ret (Err ErrSOCKSConnectFailed)
  else
  let* relay :=
    if bool_decide (at_ resp 3 = 1) then
      let* a := io_ReadFull proxyConn (4 + 2) in
      match a with
      | Err err => conn_Close (Some proxyConn) ;;; ret (Some err)
      | Ok _ => ret None
      end
    else if bool_decide (at_ resp 3 = 4) then
      let* a := io_ReadFull proxyConn (16 + 2) in
      match a with
      | Err err => conn_Close (Some proxyConn) ;;; ret (Some err)
      | Ok _ => ret None
      end
    else conn_Close (Some proxyConn) ;;; ret (Some ErrSOCKSAddressTypeNotSupported) in
  match relay with
  | Some err => ret (Err err)
  | None =>
  let* u := net_ListenUDP proxyConn in
  match u with
  | Err err => conn_Close (Some proxyConn) ;;; ret (Err err)
  | Ok udpConn => ret (Ok udpConn)
  end end end end end end.

(** [dialWithTimeout]. *)
Definition dialWithTimeout (d : t) (ctx : context) (addr : string) : M (res nat) :=
  match proxyType d with
  | SOCKS4 => dialSocks4 d ctx addr
  | SOCKS5 => dialSocks5 d ctx addr
  | _ => ret (Err ErrSOCKSVersionNotSupported)
  end.

Definition is_udp (network : string) : bool :=
  bool_decide (network = "udp") || bool_decide (network = "udp4") ||
  bool_decide (network = "udp6").

(** [DialContext]. *)
Definition DialContext (d : t) (ctx : context) (network addr : string) : M (res nat) :=
  let* start := time_Now in
  when (metrics d) (MetricsCollector.RecordConnection (metrics d) 0) ;;;
  match validateNetwork d network with
  | Some err =>
    when (metrics d) (MetricsCollector.RecordFailure (metrics d) err) ;;;
    ret (Err err)
  | None =>
    if is_udp network then
      if negb (bool_decide (proxyType d = SOCKS5))
      then ret (Err ErrSOCKSNetworkNotSupported)
      else
        match net_ResolveUDPAddr network addr with
        | Err err => ret (Err err)
        | Ok raddr =>
          let* r := dialUDPSocks5 d network in
          match r with
          | Err err =>
            when (metrics d) (MetricsCollector.RecordFailure (metrics d) err) ;;;
            ret (Err err)
          | Ok conn =>
            let* now := time_Now in
            when (metrics d)
              (MetricsCollector.IncrementActiveConnections (metrics d) ;;;
               MetricsCollector.RecordConnection (metrics d) (now - start)) ;;;
            ret (Ok conn)
          end
        end
    else
      let* r := dialWithTimeout d ctx addr in
      match r with
      | Err err =>
        when (metrics d) (MetricsCollector.RecordFailure (metrics d) err) ;;;
        ret (Err err)
      | Ok conn =>
        let* now := time_Now in
        when (metrics d)
          (MetricsCollector.IncrementActiveConnections (metrics d) ;;;
           MetricsCollector.RecordConnection (metrics d) (now - start)) ;;;
        ret (Ok conn)
      end
  end.

End Dial.
End SocksDialer.

(** ** The manager (proxy/proxy.go) *)

Module ProxyManager.

(** The fields of [config.Config] the manager reads. *)
Record Config_ : Type := MkConfig {
  MetricsEnable : bool;
  MaxIdleConns : Z;
  MaxTotalConns : Z;
  IdleTimeout_ : Z
}.

(** The values behind the [ProxyDialer] interface that [createProxyDialer]
    makes. *)
Inductive ProxyDialer : Type :=
  | NetDialer                              (* &net.Dialer{...}: direct *)
  | HTTPDialer (d : HTTPProxyDialer.t)
  | SOCKSDialer (d : SocksDialer.t).

Record t : Type := Mk {
  Config : option Config_;                 (* None is the nil *Config *)
  dialer : option ProxyDialer;             (* None is the nil interface *)
  Metrics : sinkptr
}.

Section Dial.
Context `{L : GoLib}.

(** [dialer.DialContext(ctx, network, addr)] through the interface. *)
Definition dialer_DialContext (dl : ProxyDialer) (ctx : context) (network addr : string) : M (res nat) :=
  match dl with
  | NetDialer => net_Dialer_DialContext ctx addr
  | HTTPDialer d => HTTPProxyDialer.DialContext d ctx network addr
  | SOCKSDialer d => SocksDialer.DialContext d ctx network addr
  end.

(** [pm.Config.MetricsEnable && pm.Metrics != nil]. *)
Definition metrics_on (pm : t) : M bool :=
  match Config pm with
  | None => panic NilConfig
  | Some cfg => ret (MetricsEnable cfg && Metrics pm)
  end.

(** [DialContext]. *)
Definition DialContext (pm : t) (ctx : context) (network addr : string) : M (res poolConn) :=
  let* start := time_Now in
  let* on := metrics_on pm in
  when on (MetricsCollector.RecordProtocol (Metrics pm) network) ;;;
  let* g := ConnPool.Get network addr in
  match g with
  | (Some conn, None) => ret (Ok (MkPoolConn (Some conn) network addr false))
  | _ =>
    match dialer pm with
    | None => ret (Err ErrUnsupportedProxy)
    | Some dl =>
      let* r := dialer_DialContext dl ctx network addr in
      match r with
      | Err err =>
        when (Metrics pm) (MetricsCollector.RecordFailure (Metrics pm) err) ;;;
        ret (Err err)
      | Ok conn =>
        let* on := metrics_on pm in
        let* now := time_Now in
        when on (MetricsCollector.RecordLatency (Metrics pm) (now - start)) ;;;
        ret (Ok (MkPoolConn (Some conn) network addr false))
      end
    end
  end.

(** [Dial]. *)
Definition Dial (pm : t) (network addr : string) : M (res poolConn) :=
  DialContext pm Background network addr.

End Dial.
End ProxyManager.

(** ** An instance of the library interface

    [net.SplitHostPort] and [strconv.Atoi] as Go defines them;
    [net.ParseIP] for dotted-quad IPv4 text (for every other text, IPv6
    included, it answers nil); HTTP/1.x responses whose body is framed by
    Content-Length or by the end of the connection (a Transfer-Encoding, the
    chunked one included, is answered as unsupported; header lines are not
    checked for their form). *)

Module GoStd.

Definition chr (a : Ascii.ascii) : Z := Z.of_N (Ascii.N_of_ascii a).
Definition string_of_bytes (b : list Z) : string :=
  String.string_of_list_ascii ((λ z, Ascii.ascii_of_N (Z.to_N z)) <$> b).

(** Index of the first element satisfying [f]. *)
Fixpoint index_of (f : Z → bool) (l : list Z) : option nat :=
  match l with
  | [] => None
  | x :: r => if f x then Some O else S <$> index_of f r
  end.

(** Index of the last element satisfying [f]. *)
Fixpoint last_index_of (f : Z → bool) (l : list Z) : option nat :=
  match l with
  | [] => None
  | x :: r =>
    match last_index_of f r with
    | Some i => Some (S i)
    | None => if f x then Some O else None
    end
  end.

Definition is_ (c : Z) : Z → bool := λ x, bool_decide (x = c).
Definition has (c : Z) (l : list Z) : bool := bool_decide (is_Some (index_of (is_ c) l)).

Definition AddrError (why : string) (addr : string) : error :=
  StdErr ("address " +:+ addr +:+ ": " +:+ why).

(** [net.SplitHostPort]. *)
Definition SplitHostPort (hostport : string) : res (string * string) :=
  let hp := bytes_of hostport in
  match last_index_of (is_ 58) hp with
  | None => Err (AddrError "missing port in address" hostport)
  | Some i =>
    let bracket := bool_decide (hp !! 0%nat = Some 91) in
    let r :=
      if bracket then
        match index_of (is_ 93) hp with
        | None => Err (AddrError "missing ']' in address" hostport)
        | Some end_ =>
          if bool_decide (S end_ = length hp)
          then Err (AddrError "missing port in address" hostport)
          else if bool_decide (S end_ = i)
          then Ok (take (end_ - 1) (drop 1 hp), 1%nat, S end_)
          else if bool_decide (hp !! S end_ = Some 58)
          then Err (AddrError "too many colons in address" hostport)
          else Err (AddrError "missing port in address" hostport)
        end
      else
        let host := take i hp in
        if has 58 host
        then Err (AddrError "too many colons in address" hostport)
        else Ok (host, O, O) in
    match r with
    | Err e => Err e
    | Ok (host, j, k) =>
      if has 91 (drop j hp) then Err (AddrError "unexpected '[' in address" hostport)
      else if has 93 (drop k hp) then Err (AddrError "unexpected ']' in address" hostport)
      else Ok (string_of_bytes host, string_of_bytes (drop (S i) hp))
    end
  end.

Definition is_digit (x : Z) : bool := bool_decide (48 ≤ x ≤ 57).

(** The value of a run of decimal digits. *)
Definition decimal (b : list Z) : Z :=
  foldl (λ acc x, acc * 10 + (x - 48)) 0 b.

(** [strconv.Atoi]. *)
Definition Atoi (s : string) : res Z :=
  let b := bytes_of s in
  let syntax := Err (StdErr ("strconv.Atoi: parsing " +:+ s +:+ ": invalid syntax")) in
  let '(neg, digits) :=
    match b with
    | 45 :: r => (true, r)
    | 43 :: r => (false, r)
    | _ => (false, b)
    end in
  match digits with
  | [] => syntax
  | _ =>
    if negb (forallb is_digit digits) then syntax
    else
      let v := if neg then - decimal digits else decimal digits in
      if bool_decide (- 2 ^ 63 ≤ v < 2 ^ 63) then Ok v
      else Err (StdErr ("strconv.Atoi: parsing " +:+ s +:+ ": value out of range"))
  end.

(** Cut [l] at each [sep]. *)
Fixpoint fields (sep : Z) (l : list Z) : list (list Z) :=
  match l with
  | [] => [[]]
  | x :: r =>
    if bool_decide (x = sep) then [] :: fields sep r
    else match fields sep r with
         | f :: fs => (x :: f) :: fs
         | [] => [[x]]
         end
  end.

(** One field of a dotted quad: one to three digits, no leading zero, at
    most 255. *)
Definition quad_field (f : list Z) : option Z :=
  match f with
  | [] => None
  | d :: r =>
    if negb (forallb is_digit f) then None
    else if bool_decide (d = 48) && negb (bool_decide (r = [])) then None
    else if bool_decide (3 < length f)%nat then None
    else if bool_decide (255 < decimal f) then None
    else Some (decimal f)
  end.

(** [net.ParseIP] on dotted-quad text: the 16-byte form of the address. *)
Definition ParseIP (s : string) : option (list Z) :=
  match fields 46 (bytes_of s) with
  | [a; b; c; d] =>
    match quad_field a, quad_field b, quad_field c, quad_field d with
    | Some a, Some b, Some c, Some d => Some (replicate 10 0 ++ [255; 255; a; b; c; d])
    | _, _, _, _ => None
    end
  | _ => None
  end.

(** [net.ResolveUDPAddr] for a literal address; a name would need the
    resolver. *)
Definition ResolveUDPAddr (network addr : string) : res (list Z * Z) :=
  match SplitHostPort addr with
  | Err e => Err e
  | Ok (host, port) =>
    match ParseIP host, Atoi port with
    | Some ip, Ok p => if bool_decide (0 ≤ p ≤ 65535) then Ok (ip, p)
                       else Err (AddrError "invalid port" port)
    | _, _ => Err (StdErr ("lookup " +:+ host +:+ ": no such host"))
    end
  end.

Definition CRLF : list Z := [13; 10].

Definition b64_alphabet : list Z :=
  bytes_of "ABCDEFGHIJKLMNOPQRSTUVWXYZabcdefghijklmnopqrstuvwxyz0123456789+/".

Definition b64_char (i : Z) : Z := default 61 (b64_alphabet !! Z.to_nat i).

(** [base64.StdEncoding.EncodeToString]. *)
Fixpoint base64 (b : list Z) : list Z :=
  match b with
  | [] => []
  | [x] => [b64_char (x / 4); b64_char (x mod 4 * 16); 61; 61]
  | [x; y] => [b64_char (x / 4); b64_char (x mod 4 * 16 + y / 16);
               b64_char (y mod 16 * 4); 61]
  | x :: y :: z :: r =>
      b64_char (x / 4) :: b64_char (x mod 4 * 16 + y / 16) ::
      b64_char (y mod 16 * 4 + z / 64) :: b64_char (z mod 64) :: base64 r
  end.

(** The wire form of the CONNECT request. *)
Definition Request_Write (host : string) (auth : option (string * string)) : list Z :=
  bytes_of ("CONNECT " +:+ host +:+ " HTTP/1.1") ++ CRLF ++
  bytes_of ("Host: " +:+ host) ++ CRLF ++
  bytes_of "User-Agent: Go-http-client/1.1" ++ CRLF ++
  match auth with
  | Some (user, pass) =>
      bytes_of "Authorization: Basic " ++
      base64 (bytes_of (user +:+ ":" +:+ pass)) ++ CRLF
  | None => []
  end ++ CRLF.

(** [strings.TrimLeft(s, " ")]. *)
Fixpoint dropwhile_sp (l : list Z) : list Z :=
  match l with
  | x :: r => if bool_decide (x = 32) then dropwhile_sp r else l
  | [] => []
  end.

Definition strip_cr (l : list Z) : list Z :=
  match reverse l with
  | 13 :: r => reverse r
  | _ => l
  end.

(** The status line: code, status text and minor protocol version. *)
Definition status_line (line : list Z) : res (Z * string * Z) :=
  match index_of (is_ 32) line with
  | None => Err (StdErr "malformed HTTP response")
  | Some sp =>
    let proto := take sp line in
    let status := dropwhile_sp (drop (S sp) line) in
    let code := take (default (length status) (index_of (is_ 32) status)) status in
    if negb (bool_decide (length code = 3%nat) && forallb is_digit code)
    then Err (StdErr "malformed HTTP status code")
    else if bool_decide (proto = bytes_of "HTTP/1.1")
    then Ok (decimal code, string_of_bytes status, 1)
    else if bool_decide (proto = bytes_of "HTTP/1.0")
    then Ok (decimal code, string_of_bytes status, 0)
    else Err (StdErr "malformed HTTP version")
  end.

(** How many bytes of [l] the header lines take, the empty line that ends
    them included, once that line has arrived. *)
Fixpoint head_end (line_empty : bool) (l : list Z) : option nat :=
  match l with
  | [] => None
  | x :: r =>
    if bool_decide (x = 10) then (if line_empty then Some 1%nat else S <$> head_end true r)
    else if bool_decide (x = 13) then S <$> head_end line_empty r
    else S <$> head_end false r
  end.

(** What follows the last line feed: the line that has begun. *)
Definition last_line (l : list Z) : list Z :=
  match last_index_of (is_ 10) l with
  | Some i => drop (S i) l
  | None => l
  end.

(** The bytes of the line begun that sit in the reader's buffer of 4096
    bytes when it needs more: a line that fills the buffer is handed on piece
    by piece, a carriage return at the very end of the buffer staying behind. *)
Fixpoint unread (fuel : nat) (p : list Z) : nat :=
  match fuel with
  | O => O
  | S f =>
    if decide (length p < 4096)%nat then length p
    else if bool_decide (p !! 4095%nat = Some 13) then unread f (drop 4095 p)
    else unread f (drop 4096 p)
  end.

(** The free bytes of the buffer then. *)
Definition room_for (p : list Z) : nat := 4096 - unread (S (length p)) p.

Definition lower (x : Z) : Z := if bool_decide (65 ≤ x ≤ 90) then x + 32 else x.

Fixpoint dropwhile_ws (l : list Z) : list Z :=
  match l with
  | x :: r => if bool_decide (x = 32 ∨ x = 9) then dropwhile_ws r else l
  | [] => []
  end.

Definition trim_ws (l : list Z) : list Z :=
  reverse (dropwhile_ws (reverse (dropwhile_ws l))).

(** The values of the header lines named [key] (given in lower case). *)
Definition header_values (key : string) (lines : list (list Z)) : list (list Z) :=
  omap (λ line,
    match index_of (is_ 58) line with
    | Some i => if bool_decide (lower <$> take i line = bytes_of key)
                then Some (trim_ws (drop (S i) line)) else None
    | None => None
    end) lines.

(** [httpguts.HeaderValuesContainsToken]. *)
Definition has_token (token : string) (values : list (list Z)) : bool :=
  existsb (λ v, existsb (λ t, bool_decide (lower <$> trim_ws t = bytes_of token))
                  (fields 44 v)) values.

(** The head of a response, once it has arrived whole. *)
Record head : Type := Head {
  StatusCode : Z;
  Status : string;
  ProtoMinor : Z;
  Header : list (list Z);   (* the header lines *)
  body_at : nat             (* where the head ends *)
}.

Definition read_head (b : list Z) : option (res head) :=
  match index_of (is_ 10) b with
  | None => None
  | Some n =>
    match status_line (strip_cr (take n b)) with
    | Err e => Some (Err e)
    | Ok (code, status, minor) =>
      match head_end true (drop (S n) b) with
      | None => None
      | Some k =>
        Some (Ok (Head code status minor
                    (strip_cr <$> fields 10 (take k (drop (S n) b))) (S n + k)))
      end
    end
  end.

(** The Content-Length a head declares. *)
Definition content_length (h : head) : option (res Z) :=
  match header_values "content-length" (Header h) with
  | [] => None
  | v :: _ =>
    if bool_decide (v ≠ []) && forallb is_digit v then Some (Ok (decimal v))
    else Some (Err (StdErr "bad Content-Length"))
  end.

(** [http.ReadResponse]. *)
Definition ReadResponse (b : list Z) : http_parse :=
  match read_head b with
  | None =>
    Incomplete (room_for (match index_of (is_ 10) b with
                          | Some n => last_line (drop (S n) b)
                          | None => b
                          end))
  | Some (Err e) => Malformed e
  | Some (Ok h) =>
    if bool_decide (ProtoMinor h = 1) &&
       negb (bool_decide (header_values "transfer-encoding" (Header h) = []))
    then Malformed (StdErr "unsupported transfer encoding")
    else match content_length h with
         | Some (Err e) => Malformed e
         | _ => Parsed (StatusCode h) (Status h)
         end
  end.

(** The error of [http.ReadResponse] when the connection fails it: the end
    of the stream is unexpected; a status line cut short is judged as it
    stands. *)
Definition ReadResponse_cut (b : list Z) (e : error) : error :=
  let e' := if bool_decide (e = io_EOF) then io_ErrUnexpectedEOF else e in
  match b, index_of (is_ 10) b with
  | _ :: _, None =>
    match status_line b with
    | Err m => m
    | Ok _ => e'
    end
  | _, _ => e'
  end.

(** [shouldClose]: will the connection be closed after this response. *)
Definition shouldClose (h : head) : bool :=
  let conv := header_values "connection" (Header h) in
  if bool_decide (ProtoMinor h = 0)
  then has_token "close" conv || negb (has_token "keep-alive" conv)
  else has_token "close" conv.

(** [resp.Body.Close()].  Only a body of declared length on a connection that
    is to be kept is read to its end: through the reader's buffer of 4096
    bytes when less than that is missing, else straight into the 8192 bytes
    of [io.Discard]. *)
Definition Body_Close (b : list Z) : option nat :=
  match read_head b with
  | Some (Ok h) =>
    if bool_decide (StatusCode h / 100 = 1 ∨ StatusCode h = 204 ∨ StatusCode h = 304)
    then None
    else match content_length h with
         | Some (Ok n) =>
           let have := Z.of_nat (length b - body_at h) in
           if shouldClose h then None
           else if bool_decide (n ≤ have) then None
           else if bool_decide (4096 ≤ n - have) then Some (Z.to_nat (Z.min 8192 (n - have)))
           else Some 4096%nat
         | _ => None
         end
  | _ => None
  end.

End GoStd.

Definition GoStd_lib : GoLib := {|
  net_SplitHostPort := GoStd.SplitHostPort;
  strconv_Atoi := GoStd.Atoi;
  net_ParseIP := GoStd.ParseIP;
  net_ResolveUDPAddr := GoStd.ResolveUDPAddr;
  http_Request_Write := GoStd.Request_Write;
  http_ReadResponse := GoStd.ReadResponse;
  http_ReadResponse_cut := GoStd.ReadResponse_cut;
  http_Body_Close := GoStd.Body_Close;
  http_NewRequest := λ _, None
|}.

(** ** The states a pool can be in

    A pool starts as [NewConnPool] made it and changes only through its own
    methods; around it time passes, peers talk and hang up, dialers open
    connections and the collector counts. *)

Inductive pool_step : state → state → Prop :=
  | step_Get network addr s r s' :
      ConnPool.Get network addr s = Done r s' → pool_step s s'
  | step_Put network addr conn s s' :
      ConnPool.Put network addr conn s = Done tt s' → pool_step s s'
  | step_CleanUp s s' :
      ConnPool.CleanUp s = Done tt s' → pool_step s s'
  | step_world s s' :
      pool s' = pool s → clock s ≤ clock s' → pool_step s s'.

Inductive reachable : state → Prop :=
  | reach_new s maxIdle maxTotal idleTimeout metrics :
      pool s = NewConnPool maxIdle maxTotal idleTimeout metrics → reachable s
  | reach_step s s' :
      reachable s → pool_step s s' → reachable s'.

(** Entries in the order of their expiry times. *)
Definition by_expiry (l : list connWithExpiry) : Prop :=
  StronglySorted (λ a b, expiryTime a ≤ expiryTime b) l.

(** What every reachable state satisfies, key by key. *)
Definition pool_inv (s : state) : Prop :=
  ∀ key sl, idle (pool s) !! key = Some sl →
    (len sl ≤ length (arr sl))%nat ∧
    by_expiry (view sl) ∧
    Forall (λ e, expiryTime e ≤ clock s + idleTimeout (pool s)) (view sl) ∧
    Forall (λ e, is_Some (conn e)) (view sl).

(** A connection on which Close was called. *)
Definition closed_in (s : state) (e : connWithExpiry) : Prop :=
  ∃ c, conn e = Some c ∧ closes (conn_of s c) ≠ 0%nat.

(** ** Running with and without a metrics sink

    Two states that differ at most in the collector, the first seen by code
    whose pool holds no sink, the second by code whose pool holds one. *)

Definition same_but_sink (s1 s2 : state) : Prop :=
  clock s1 = clock s2 ∧ conns s1 = conns s2 ∧ dialed s1 = dialed s2 ∧
  listen s1 = listen s2 ∧ udp_bind s1 = udp_bind s2 ∧
  idle (pool s1) = idle (pool s2) ∧ active (pool s1) = active (pool s2) ∧
  maxIdle (pool s1) = maxIdle (pool s2) ∧ maxActive (pool s1) = maxActive (pool s2) ∧
  idleTimeout (pool s1) = idleTimeout (pool s2) ∧
  metrics (pool s1) = false ∧ metrics (pool s2) = true.

(** Two runs that end alike: the same value in states that still differ at
    most in the collector, the same panic (never one for a nil sink), or both
    blocked. *)
Definition same_outcome {A} (o1 o2 : outcome A) : Prop :=
  match o1, o2 with
  | Done a1 s1, Done a2 s2 => a1 = a2 ∧ same_but_sink s1 s2
  | Panic w1, Panic w2 => w1 = w2 ∧ w1 ≠ NilSink
  | Hang, Hang => True
  | _, _ => False
  end.

(** The HTTP dialer with its sink pointer set to [b]. *)
Definition http_with_sink (b : sinkptr) (d : HTTPProxyDialer.t) : HTTPProxyDialer.t :=
  HTTPProxyDialer.Mk (HTTPProxyDialer.proxyURL_Host d) (HTTPProxyDialer.proxyType d)
    (HTTPProxyDialer.tlsConfig d) (HTTPProxyDialer.Config d) b.

(** The SOCKS dialer with its sink pointer set to [b]. *)
Definition socks_with_sink (b : sinkptr) (d : SocksDialer.t) : SocksDialer.t :=
  SocksDialer.Mk (SocksDialer.proxyURL d) (SocksDialer.proxyType d)
    (SocksDialer.Config d) b.

(** The manager with every sink pointer it hands out set to [b]. *)
Definition dialer_with_sink (b : sinkptr) (dl : ProxyManager.ProxyDialer) : ProxyManager.ProxyDialer :=
  match dl with
  | ProxyManager.NetDialer => ProxyManager.NetDialer
  | ProxyManager.HTTPDialer d => ProxyManager.HTTPDialer (http_with_sink b d)
  | ProxyManager.SOCKSDialer d => ProxyManager.SOCKSDialer (socks_with_sink b d)
  end.

Definition manager_with_sink (b : sinkptr) (pm : ProxyManager.t) : ProxyManager.t :=
  ProxyManager.Mk (ProxyManager.Config pm)
    (dialer_with_sink b <$> ProxyManager.dialer pm) b.


(** A socket just accepted by its peer: open, no deadline, not reset. *)
Definition fresh_socket (cs : conn_state) : Prop :=
  kind cs = KSocket ∧ closes cs = 0%nat ∧ rdeadline cs = None ∧
  wdeadline cs = None ∧ peer cs ≠ PeerReset ∧ outbox cs = [].

(** The answer of whoever listens at [address]. *)
Definition answers (s : state) (address : string) (script : conn_state) : Prop :=
  ∃ i, list_find (λ e, e.1 = address) (listen s) = Some (i, (address, script)).

(** The context is neither canceled nor past its deadline at [now]. *)
Definition in_time (ctx : context) (now : Z) : Prop :=
  ctx_canceled ctx = false ∧
  match ctx_deadline ctx with
  | Some d => now < d
  | None => True
  end.

(** ** Concrete situations *)

(** A socket whose peer has sent [sent] and is silent since. *)
Definition quiet_socket (sent : list Z) : conn_state :=
  ConnState KSocket sent PeerSilent [] 0 None None false None.

(** A world at time 0 with no connection yet, where [servers] listen. *)
Definition world (servers : list (string * conn_state)) (p : ConnPool) : state :=
  State 0 [] [] servers None p NewMetricsCollector.

(** The value a run returned, if it returned. *)
Definition returned {A} (o : outcome A) : option A :=
  match o with
  | Done a _ => Some a
  | _ => None
  end.

(** The state a run ended in, if it returned. *)
Definition final {A} (o : outcome A) : option state :=
  match o with
  | Done _ s => Some s
  | _ => None
  end.

(** A SOCKS5 proxy at 127.0.0.1:1080 that selects no-auth and grants the
    request, and a SOCKS5 dialer for it without credentials. *)
Definition socks5_world : state :=
  world [("127.0.0.1:1080", quiet_socket ([5; 0] ++ [5; 0; 0; 1; 0; 0; 0; 0; 0; 0]))]
        (NewConnPool 2 10 (300 * Second) false).

Definition socks5_dialer : SocksDialer.t :=
  SocksDialer.Mk "127.0.0.1:1080" SOCKS5 (MkSOCKSConfig false EmptyString EmptyString) false.

(** A SOCKS4 proxy at 127.0.0.1:1080 answering with reply code [code]. *)
Definition socks4_world (code : Z) : state :=
  world [("127.0.0.1:1080", quiet_socket [0; code; 0; 0; 0; 0; 0; 0])]
        (NewConnPool 2 10 (300 * Second) false).

Definition socks4_dialer : SocksDialer.t :=
  SocksDialer.Mk "127.0.0.1:1080" SOCKS4 (MkSOCKSConfig false EmptyString EmptyString) false.

(** A context whose cancel function was called; it has no deadline. *)
Definition canceled : context := MkContext true None.

(** A context whose deadline, time 0, has passed at time [now > 0]. *)
Definition overdue : context := MkContext false (Some 0).

(** A manager dialing directly, with a pool of at most one connection in
    total (and five idle per key), in a world where example.com:80 answers. *)
Definition direct_manager : ProxyManager.t :=
  ProxyManager.Mk (Some (ProxyManager.MkConfig false 5 1 (300 * Second)))
                  (Some ProxyManager.NetDialer) false.

Definition one_conn_world : state :=
  world [("example.com:80", quiet_socket [])] (NewConnPool 5 1 (300 * Second) false).

(** Two dials in a row through that manager, then the pool's snapshot. *)
Definition two_dials : M (res poolConn * res poolConn * ConnPool.Stats) :=
  let* a := ProxyManager.DialContext (L := GoStd_lib) direct_manager Background "tcp" "example.com:80" in
  let* b := ProxyManager.DialContext (L := GoStd_lib) direct_manager Background "tcp" "example.com:80" in
  let* st := ConnPool.Stats_ in
  ret (a, b, st).

(** [c.Close()] on what a dial returned. *)
Definition close_dialed (r : res poolConn) : M unit :=
  match r with
  | Ok w => poolConn.Close w ;;; ret tt
  | Err _ => ret tt
  end.

(** Two dials, both connections released, two more dials that reuse them,
    and a fifth dial: what [Get] says then, what the manager returns, and the
    snapshot. *)
Definition dial_at_limit : M ((option nat * option error) * res poolConn * ConnPool.Stats) :=
  let dial := ProxyManager.DialContext (L := GoStd_lib) direct_manager Background
                "tcp" "example.com:80" in
  let* a := dial in
  let* b := dial in
  close_dialed a ;;;
  close_dialed b ;;;
  let* a' := dial in
  let* b' := dial in
  let* s := gets id in
  let g := returned (ConnPool.Get "tcp" "example.com:80" s) in
  let* c := dial in
  let* st := ConnPool.Stats_ in
  ret (default (None, None) g, c, st).

(** A pool with one open connection, number 0, outside it. *)
Definition one_socket_world : state :=
  State 0 [quiet_socket []] [] [] None (NewConnPool 5 10 (300 * Second) false)
        NewMetricsCollector.

(** The one connection put back, taken, put back and taken again; then the
    snapshot. *)
Definition put_get_twice : M ((option nat * option error) * (option nat * option error) * ConnPool.Stats) :=
  ConnPool.Put "tcp" "a" (Some 0%nat) ;;;
  let* g1 := ConnPool.Get "tcp" "a" in
  ConnPool.Put "tcp" "a" (g1.1) ;;;
  let* g2 := ConnPool.Get "tcp" "a" in
  let* st := ConnPool.Stats_ in
  ret (g1, g2, st).

(** Two connections put in the pool, left idle past their expiry, and swept
    by [CleanUp]; then the snapshot. *)
Definition put_expire_cleanup : M ConnPool.Stats :=
  ConnPool.Put "tcp" "a" (Some 0%nat) ;;;
  ConnPool.Put "tcp" "a" (Some 1%nat) ;;;
  modify (set_clock (301 * Second)) ;;;
  ConnPool.CleanUp ;;;
  ConnPool.Stats_.

Definition two_socket_world : state :=
  State 0 [quiet_socket []; quiet_socket []] [] [] None
        (NewConnPool 5 10 (300 * Second) false) NewMetricsCollector.

(** The state after the one connection of [one_socket_world] was put in the
    pool. *)
Definition after_put : state :=
  default one_socket_world (final (ConnPool.Put "tcp" "a" (Some 0%nat) one_socket_world)).

(** [one_socket_world] seen by a pool that holds a sink. *)
Definition one_socket_world_with_sink : state :=
  State 0 [quiet_socket []] [] [] None (NewConnPool 5 10 (300 * Second) true)
        NewMetricsCollector.

(** An HTTP proxy at 127.0.0.1:8080 that answers every CONNECT with
    407 Proxy Authentication Required, and an HTTP dialer for it. *)
Definition http_407_world : state :=
  world [("127.0.0.1:8080",
          quiet_socket (bytes_of "HTTP/1.1 407 Proxy Authentication Required"
                        ++ [13; 10; 13; 10]))]
        (NewConnPool 2 10 (300 * Second) false).

(** The same proxy sending a body of five bytes with its answer. *)
Definition http_407_body_world : state :=
  world [("127.0.0.1:8080",
          quiet_socket (bytes_of "HTTP/1.1 407 Proxy Authentication Required"
                        ++ [13; 10] ++ bytes_of "Content-Length: 5"
                        ++ [13; 10; 13; 10] ++ bytes_of "login"))]
        (NewConnPool 2 10 (300 * Second) false).

(** The pool of [after_put] at the moment its one entry expires. *)
Definition at_expiry : state := set_clock (300 * Second) after_put.

Definition http_dialer : HTTPProxyDialer.t :=
  HTTPProxyDialer.Mk "127.0.0.1:8080" HTTP true (MkHTTPConfig EmptyString EmptyString) false.

(** A wrapper around connection 0 for the key of tcp and a. *)
Definition wrapper0 : poolConn := MkPoolConn (Some 0%nat) "tcp" "a" false.

(** * Predicates of the statements *)

(** What a step leaves alone outside the connection table. *)
Definition keeps_rest (s s' : state) : Prop :=
  pool s' = pool s ∧ mc s' = mc s ∧ dialed s' = dialed s ∧
  listen s' = listen s ∧ udp_bind s' = udp_bind s.

(** What a call leaves alone in the pool's configuration. *)
Definition same_limits (p p' : ConnPool) : Prop :=
  maxIdle p' = maxIdle p ∧ maxActive p' = maxActive p ∧
  idleTimeout p' = idleTimeout p ∧ metrics p' = metrics p.

(** The key of [Get] and [Put]: [network + ":" + addr]. *)
Definition pool_key (network addr : string) : string := network +:+ ":" +:+ addr.

(** The error of [Get] at the limit. *)
Definition limit_error : error :=
  errors_New "connection pool: max active connections reached".

(** One key of the pool in order: the window fits its array, is sorted by
    expiry time, holds no expiry time after [t] and no nil connection. *)
Definition slice_ok (t : Z) (sl : slice) : Prop :=
  (len sl ≤ length (arr sl))%nat ∧
  by_expiry (view sl) ∧
  Forall (λ e, expiryTime e ≤ t) (view sl) ∧
  Forall (λ e, is_Some (conn e)) (view sl).

(** No method of the pool changes what the peer of a connection is doing, or
    puts bytes into an inbox. *)
Definition stays (s s' : state) : Prop :=
  ∀ c', peer (conn_of s' c') = peer (conn_of s c') ∧
        (inbox (conn_of s c') = [] → inbox (conn_of s' c') = []).

(** The connection can be read and written at time [now]. *)
Definition usable (now : Z) (cs : conn_state) : Prop :=
  closes cs = 0%nat ∧ peer cs ≠ PeerReset ∧
  expired (rdeadline cs) now = false ∧ expired (wdeadline cs) now = false.

(** The connection once [apply_deadline] has run on it. *)
Definition with_deadline (ctx : context) (cs : conn_state) : conn_state :=
  match ctx_deadline ctx with
  | Some d => set_wdeadline (Some d) (set_rdeadline (Some d) cs)
  | None => cs
  end.

(** What [sendConnectRequest] answers for a status code. *)
Definition connect_verdict (StatusCode : Z) (Status : string) : option error :=
  if bool_decide (StatusCode = 407) then Some ErrHTTPProxyAuth
  else if bool_decide (StatusCode = 200) then None
  else Some (WrapError ErrProxyProtocol Status).

(** A buffered reader at work on what a connection holds.  It has taken
    [got] and [rest] waits; while the library wants more ([more] gives the
    room) it reads on.  It ends, never having found the connection empty,
    with [got'] taken and [rest'] left. *)
Inductive pulls (more : list Z → option nat) : list Z → list Z → list Z → list Z → Prop :=
  | pulls_stop got rest :
      more got = None → pulls more got rest got rest
  | pulls_on got rest room got' rest' :
      more got = Some room → (0 < room)%nat → rest ≠ [] →
      pulls more (got ++ take room rest) (drop room rest) got' rest' →
      pulls more got rest got' rest'.

(** The same reader running dry: it has taken all there was, [got'], and
    the library wants more. *)
Inductive stalls (more : list Z → option nat) : list Z → list Z → list Z → Prop :=
  | stalls_here got room :
      more got = Some room → stalls more got [] got
  | stalls_on got rest room got' :
      more got = Some room → (0 < room)%nat → rest ≠ [] →
      stalls more (got ++ take room rest) (drop room rest) got' →
      stalls more got rest got'.

(** The room [http.ReadResponse] asks for while the head is incomplete. *)
Definition wants_head `{L : GoLib} (got : list Z) : option nat :=
  match http_ReadResponse got with
  | Incomplete room => Some room
  | _ => None
  end.

(** The head of a response with this status is among the bytes [sent]: the
    reader, which starts with a read of 4096 bytes, has it after taking
    [head], with [rest] left. *)
Definition head_arrived `{L : GoLib} (sent : list Z) (code : Z) (status : string)
    (head rest : list Z) : Prop :=
  sent ≠ [] ∧
  pulls wants_head (take 4096 sent) (drop 4096 sent) head rest ∧
  http_ReadResponse head = Parsed code status.

(** A whole response with this status is among the bytes [sent]: its head,
    and as much of its body as [Body.Close] reads; [rest] is what the reader
    leaves on the connection. *)
Definition response_arrived `{L : GoLib} (sent : list Z) (code : Z) (status : string)
    (rest : list Z) : Prop :=
  ∃ head rest0 got,
    head_arrived sent code status head rest0 ∧
    pulls http_Body_Close head rest0 got rest.

(** The head of a response with this status is among the bytes [sent], but
    not all of the body that [Body.Close] reads. *)
Definition body_missing `{L : GoLib} (sent : list Z) (code : Z) (status : string) : Prop :=
  ∃ head rest0 got,
    head_arrived sent code status head rest0 ∧
    stalls http_Body_Close head rest0 got.

(** What a dial through an HTTP or HTTPS proxy returns for a status code:
    the connection [c], or the error. *)
Definition connect_result (StatusCode : Z) (Status : string) (c : nat) : res nat :=
  match connect_verdict StatusCode Status with
  | Some e => Err e
  | None => Ok c
  end.

(** The probe's read does not fail on what waits: a datagram on a relay has
    the ten bytes that [SocksUDPConn.Read] skips. *)
Definition probe_reads (cs : conn_state) : Prop :=
  ∀ ctl, kind cs = KUDPRelay ctl → inbox cs = [] ∨ (10 ≤ length (inbox cs))%nat.

(** Two programs that, started in states differing at most in the collector
    and the pool's sink pointer, end alike. *)
Definition sim2 {A} (c1 c2 : M A) : Prop :=
  ∀ s1 s2, same_but_sink s1 s2 → same_outcome (c1 s1) (c2 s2).

(** A program that at most updates the collector. *)
Definition quiet (c : M unit) : Prop := sim2 (ret tt) c.


(** * Further definitions: the rest of the dial layer *)

(** No key of the pool holds more than [maxIdle] entries. *)
Definition idle_bounded (s : state) : Prop :=
  ∀ key sl, idle (pool s) !! key = Some sl →
    Z.of_nat (len sl) ≤ Z.max 0 (maxIdle (pool s)).

(** What the sweep, run at time [now] from state [s] and ended in [s'], has
    made of the idle list [old] of a key, now [new]: what is left was in the
    list, unexpired, open and answering the probe; what is gone was closed. *)
Definition swept (now : Z) (s s' : state) (old new : list connWithExpiry) : Prop :=
  new `sublist_of` old ∧
  (∀ e, e ∈ new → ¬ expiryTime e < now ∧
     ∃ c, conn e = Some c ∧ closes (conn_of s c) = 0%nat ∧
          (inbox (conn_of s c) ≠ [] ∨ peer (conn_of s c) = PeerSilent)) ∧
  (∀ e, e ∈ old → e ∈ new ∨ closed_in s' e).

(** ** Further concrete situations *)

(** Two connections outside the pool: number 0 is silent, the peer of
    number 1 has hung up. *)
Definition live_and_dead_world : state :=
  State 0 [quiet_socket []; ConnState KSocket [] PeerClosed [] 0 None None false None]
        [] [] None (NewConnPool 5 10 (300 * Second) false) NewMetricsCollector.

(** Both put in the pool under one key, the live one first. *)
Definition after_two_puts : state :=
  default live_and_dead_world
    (final ((ConnPool.Put "tcp" "a" (Some 0%nat) ;;; ConnPool.Put "tcp" "a" (Some 1%nat))
              live_and_dead_world)).

(** A pool that keeps no idle connection, and one open connection. *)
Definition no_idle_world : state :=
  State 0 [quiet_socket []] [] [] None (NewConnPool 0 10 (300 * Second) false)
        NewMetricsCollector.

(** An HTTP/2 tunnel, connection 0, as [dialHTTP2] returns it. *)
Definition http2_tunnel_world : state :=
  State 0 [ConnState KHTTP2 [] PeerSilent [] 0 None None false None] [] [] None
        (NewConnPool 5 10 (300 * Second) false) NewMetricsCollector.

(** An HTTPS proxy at 127.0.0.1:8443 that completes the TLS handshake and
    answers every CONNECT with 407, and an HTTPS dialer for it. *)
Definition https_407_world : state :=
  world [("127.0.0.1:8443",
          ConnState KSocket
            (bytes_of "HTTP/1.1 407 Proxy Authentication Required" ++ [13; 10; 13; 10])
            PeerSilent [] 0 None None true None)]
        (NewConnPool 2 10 (300 * Second) false).

Definition https_dialer : HTTPProxyDialer.t :=
  HTTPProxyDialer.Mk "127.0.0.1:8443" HTTPS true (MkHTTPConfig EmptyString EmptyString) false.

(** An HTTP/2 proxy at 127.0.0.1:8443 that answers the CONNECT with 407, and
    an HTTP/2 dialer for it. *)
Definition http2_407_world : state :=
  world [("127.0.0.1:8443",
          ConnState KSocket [] PeerSilent [] 0 None None true
            (Some (407, "407 Proxy Authentication Required")))]
        (NewConnPool 2 10 (300 * Second) false).

Definition http2_dialer : HTTPProxyDialer.t :=
  HTTPProxyDialer.Mk "127.0.0.1:8443" HTTP2 true (MkHTTPConfig EmptyString EmptyString) false.

(** The bound address and port that follow the four-byte head of a SOCKS5
    reply, as long as the [switch resp[3]] of [dialSocks5] takes them to be:
    4+2 bytes for address type 01, a length byte and that many plus 2 bytes
    for 03, 16+2 bytes for 04, nothing for any other type. *)
Definition bound_for (atyp : Z) (bound : list Z) : Prop :=
  if bool_decide (atyp = 1) then length bound = 6%nat
  else if bool_decide (atyp = 3)
  then ∃ l name, bound = l :: name ∧ length name = (Z.to_nat l + 2)%nat
  else if bool_decide (atyp = 4) then length bound = 18%nat
  else bound = [].

(** The library instance, with [net.ParseIP] knowing the IPv6 loopback
    literal as well. *)
Definition GoStd6_lib : GoLib := {|
  net_SplitHostPort := GoStd.SplitHostPort;
  strconv_Atoi := GoStd.Atoi;
  net_ParseIP := λ h, if bool_decide (h = "::1") then Some (replicate 15 0 ++ [1])
                      else GoStd.ParseIP h;
  net_ResolveUDPAddr := GoStd.ResolveUDPAddr;
  http_Request_Write := GoStd.Request_Write;
  http_ReadResponse := GoStd.ReadResponse;
  http_ReadResponse_cut := GoStd.ReadResponse_cut;
  http_Body_Close := GoStd.Body_Close;
  http_NewRequest := λ _, None
|}.

(** A SOCKS5 proxy at 127.0.0.1:1080 that answers the greeting with [05 m]
    and then sends [replies]. *)
Definition socks5_world_with (m : Z) (replies : list Z) : state :=
  world [("127.0.0.1:1080", quiet_socket ([5; m] ++ replies))]
        (NewConnPool 2 10 (300 * Second) false).

(** A SOCKS5 dialer with user u and password p. *)
Definition socks5_dialer_up : SocksDialer.t :=
  SocksDialer.Mk "127.0.0.1:1080" SOCKS5 (MkSOCKSConfig false "u" "p") false.

(** A SOCKS5 proxy at 127.0.0.1:1080 that accepts the sub-negotiation and
    grants a UDP relay at 127.0.0.1:1080, and a dialer with UDP enabled. *)
Definition socks5_udp_world : state :=
  world [("127.0.0.1:1080",
          quiet_socket ([1; 0] ++ [5; 0; 0; 1] ++ [127; 0; 0; 1; 4; 56]))]
        (NewConnPool 2 10 (300 * Second) false).

Definition socks5_udp_dialer : SocksDialer.t :=
  SocksDialer.Mk "127.0.0.1:1080" SOCKS5 (MkSOCKSConfig true EmptyString EmptyString) false.

(** ** Datagrams through the relay ([SocksUDPConn], proxy/http.go)

    [Write] and [Read] of the relay work on one datagram each.  What the UDP
    socket underneath does is a parameter: whether [WriteToUDP] fails, and
    what [ReadFromUDP] receives. *)

Module SocksUDPConn.

Record t : Type := Mk {
  targetAddr_IP : list Z;      (* targetAddr.IP *)
  targetAddr_Port : Z;         (* targetAddr.Port *)
  closed : bool                (* has the channel [closed] been closed *)
}.

(** [Write(b)]: the datagram handed to [WriteToUDP], if it gets that far and
    is sent, and the [(n, err)] returned.  [To4] of an address that is no
    IPv4 one is nil, and appending it adds nothing. *)
Definition Write (c : t) (b : list Z) (wr : option error)
    : option (list Z) * (Z * option error) :=
  if closed c then (None, (0, Some net_ErrClosed))
  else
    let header := [0; 0; 0; 1; 1] in
    let header := header ++ default [] (To4 (targetAddr_IP c)) in
    let port := PutUint16 (uint16 (targetAddr_Port c)) in
    let header := header ++ port in
    let data := header ++ b in
    match wr with
    | Some err => (None, (0, Some err))
    | None => (Some data, (Z.of_nat (length data), None))
    end.

(** [Read(b)] with [len(b) = lenb]: what ends up at the start of [b], and the
    [(n, err)] returned.  [ReadFromUDP] fills the buffer of
    [len(b)+10+net.IPv4len+2] bytes with as much of the datagram as fits. *)
Definition Read (c : t) (lenb : nat) (arrival : res (list Z))
    : list Z * (Z * option error) :=
  if closed c then ([], (0, Some net_ErrClosed))
  else
    match arrival with
    | Err err => ([], (0, Some err))
    | Ok dgram =>
      let buf := take (lenb + 10 + 4 + 2) dgram in
      let n := length buf in
      if bool_decide (n < 10)%nat then ([], (0, Some io_ErrShortBuffer))
      else (take lenb (drop 10 buf), (Z.of_nat n - 10, None))
    end.

End SocksUDPConn.

(** A control connection, number 0, and its relay, number 1. *)
Definition relay_world : state :=
  State 0 [quiet_socket []; ConnState (KUDPRelay 0) [] PeerSilent [] 0 None None false None]
        [] [] None (NewConnPool 5 10 (300 * Second) false) NewMetricsCollector.

(** A relay for datagrams to 93.184.216.34:53. *)
Definition dns_relay : SocksUDPConn.t :=
  SocksUDPConn.Mk [93; 184; 216; 34] 53 false.

(** ** Configuration and the making of dialers
       (package config; proxy/proxy.go, proxy/http.go) *)

Module config.

(** The fields of [*HTTPConfig] that [createHTTPProxyDialer] reads: those the
    dialer keeps, and the files of the client key pair. *)
Record HTTPSettings : Type := MkHTTPSettings {
  settings : HTTPConfig;
  CertFile : string;
  KeyFile : string
}.

(** [DefaultHTTPConfig()]. *)
Definition DefaultHTTPConfig : HTTPSettings :=
  MkHTTPSettings (MkHTTPConfig EmptyString EmptyString) EmptyString EmptyString.

(** [Config], the fields read by [Validate], [GetProxyAddr], [UpdateConfig],
    [createProxyDialer] and [New]. *)
Record Config : Type := MkConfig {
  IdleTimeout : Z;
  HTTPConfig_ : option HTTPSettings;      (* None is the nil pointer *)
  SOCKSConfig_ : option SOCKSConfig;
  ProxyType_ : ProxyType;
  ProxyIP : string;
  ProxyPort : Z;
  Enable : bool;
  MetricsEnable : bool;
  MaxIdleConns : Z;
  MaxTotalConns : Z
}.

(** [fmt.Sprintf("%s:%d", ip, port)]. *)
Definition host_port (ip : string) (port : Z) : string :=
  ip +:+ ":" +:+ pretty port.

(** [GetProxyAddr]. *)
Definition GetProxyAddr (c : Config) : string := host_port (ProxyIP c) (ProxyPort c).

(** [Validate]; the errors are made by [fmt.Errorf] without [%w]. *)
Definition Validate (c : Config) : option error :=
  if negb (Enable c) then None
  else if bool_decide (ProxyIP c = EmptyString)
  then Some (errors_New "proxy IP cannot be empty")
  else if bool_decide (ProxyPort c ≤ 0) || bool_decide (65535 < ProxyPort c)
  then Some (errors_New ("invalid proxy port: " +:+ pretty (ProxyPort c)))
  else match ProxyType_ c with
       | HTTP | HTTPS | HTTP2 | SOCKS4 | SOCKS4A | SOCKS5 => None
       | t => Some (errors_New ("unsupported proxy type: " +:+ ProxyType_string t))
       end.

End config.

(** [createHTTPProxyDialer]; [load] is [tls.LoadX509KeyPair], its error.  The
    TLS configuration it builds is never nil. *)
Definition createHTTPProxyDialer (load : string → string → option error)
    (proxyType : ProxyType) (ip : string) (port : Z)
    (config : option config.HTTPSettings) (metrics : sinkptr)
    : res ProxyManager.ProxyDialer :=
  let config := default config.DefaultHTTPConfig config in
  let host := config.host_port ip port in
  let cert_err :=
    if nonempty (config.CertFile config) && nonempty (config.KeyFile config)
    then load (config.CertFile config) (config.KeyFile config)
    else None in
  match cert_err with
  | Some err => Err (WrapError ErrCertValidation (Error err))
  | None =>
    Ok (ProxyManager.HTTPDialer
          (HTTPProxyDialer.Mk host proxyType true (config.settings config) metrics))
  end.

(** [NewSocksDialer]; a nil configuration is replaced by one with the two
    timeouts set and nothing else. *)
Definition NewSocksDialer (proxyURL : string) (proxyType : ProxyType)
    (config : option SOCKSConfig) (metrics : sinkptr) : SocksDialer.t :=
  let config := default (MkSOCKSConfig false EmptyString EmptyString) config in
  SocksDialer.Mk proxyURL proxyType config metrics.

(** [createSocksDialer]. *)
Definition createSocksDialer (proxyType : ProxyType) (proxyIP : string) (proxyPort : Z)
    (config : option SOCKSConfig) (metrics : sinkptr) : res ProxyManager.ProxyDialer :=
  let config := Some (default (MkSOCKSConfig false EmptyString EmptyString) config) in
  let proxyURL := config.host_port proxyIP proxyPort in
  Ok (ProxyManager.SOCKSDialer (NewSocksDialer proxyURL proxyType config metrics)).

(** [createProxyDialer]. *)
Definition createProxyDialer (load : string → string → option error)
    (config : config.Config) (metrics : sinkptr) : res ProxyManager.ProxyDialer :=
  if negb (config.Enable config) then Ok ProxyManager.NetDialer
  else
    match config.ProxyType_ config with
    | HTTP | HTTPS | HTTP2 =>
        createHTTPProxyDialer load (config.ProxyType_ config) (config.ProxyIP config)
          (config.ProxyPort config) (config.HTTPConfig_ config) metrics
    | SOCKS4 | SOCKS5 =>
        createSocksDialer (config.ProxyType_ config) (config.ProxyIP config)
          (config.ProxyPort config) (config.SOCKSConfig_ config) metrics
    | Direct => Ok ProxyManager.NetDialer
    | t => Err (errors_New ("unsupported proxy type: " +:+ ProxyType_string t))
    end.

(** What the manager reads of the configuration it keeps. *)
Definition manager_config (c : config.Config) : ProxyManager.Config_ :=
  ProxyManager.MkConfig (config.MetricsEnable c) (config.MaxIdleConns c)
    (config.MaxTotalConns c) (config.IdleTimeout c).

(** [UpdateConfig]: the manager after the call, and the error returned. *)
Definition UpdateConfig (load : string → string → option error)
    (pm : ProxyManager.t) (config : option config.Config)
    : ProxyManager.t * option error :=
  match config with
  | None => (ProxyManager.Mk None None (ProxyManager.Metrics pm), None)
  | Some c =>
    match config.Validate c with
    | Some err => (pm, Some err)
    | None =>
      match createProxyDialer load c (ProxyManager.Metrics pm) with
      | Err err => (pm, Some err)
      | Ok dialer =>
        (ProxyManager.Mk (Some (manager_config c)) (Some dialer) (ProxyManager.Metrics pm),
         None)
      end
    end
  end.

(** An enabled configuration for a SOCKS4a proxy at 127.0.0.1:1080. *)
Definition socks4a_config : config.Config :=
  config.MkConfig (300 * Second) None None SOCKS4A "127.0.0.1" 1080 true false 5 10.

(** An HTTP proxy at 127.0.0.1:8080 and a SOCKS5 proxy at 127.0.0.1:1080
    that accept connections and never send anything. *)
Definition silent_world : state :=
  world [("127.0.0.1:8080", quiet_socket []); ("127.0.0.1:1080", quiet_socket [])]
        (NewConnPool 2 10 (300 * Second) false).

(** * Properties *)

(** ** The monad *)

Lemma bind_Done {A B} (c : M A) (k : A → M B) s a s' :
  c s = Done a s' → bind c k s = k a s'.
Proof. intros H. unfold bind. by rewrite H. Qed.

Lemma bind_inv {A B} (c : M A) (k : A → M B) s b s'' :
  bind c k s = Done b s'' → ∃ a s', c s = Done a s' ∧ k a s' = Done b s''.
Proof. unfold bind. destruct (c s) as [a s'| |]; [eauto|done|done]. Qed.

(** ** Connections: what an operation leaves alone *)

Lemma conn_of_alter_eq s c f :
  (c < length (conns s))%nat →
  conn_of (set_conns (alter f c (conns s)) s) c = f (conn_of s c).
Proof.
  intros Hc. unfold conn_of. simpl.
  rewrite list_lookup_alter_eq.
  destruct (lookup_lt_is_Some_2 _ _ Hc) as [x ->]. done.
Qed.

Lemma conn_of_alter_ne s c c' f :
  c ≠ c' → conn_of (set_conns (alter f c (conns s)) s) c' = conn_of s c'.
Proof. intros Hc. unfold conn_of. simpl. by rewrite list_lookup_alter_ne. Qed.

Lemma open_valid s c :
  closes (conn_of s c) = 0%nat → (c < length (conns s))%nat.
Proof.
  unfold conn_of. intros H.
  destruct (conns s !! c) as [x|] eqn:E; [by eapply lookup_lt_Some|done].
Qed.

Lemma conn_of_alter s c c' f :
  (c < length (conns s))%nat →
  conn_of (set_conns (alter f c (conns s)) s) c' =
  if decide (c = c') then f (conn_of s c') else conn_of s c'.
Proof.
  intros Hc. case_decide; subst.
  - by apply conn_of_alter_eq.
  - by apply conn_of_alter_ne.
Qed.

Lemma alter_invalid s c (f : conn_state → conn_state) :
  ¬ (c < length (conns s))%nat → alter f c (conns s) = conns s.
Proof.
  intros Hc. apply list_eq. intros i.
  destruct (decide (c = i)) as [->|Hne].
  - rewrite list_lookup_alter_eq. rewrite lookup_ge_None_2; [done|lia].
  - by rewrite list_lookup_alter_ne.
Qed.

Lemma set_conns_same s : set_conns (conns s) s = s.
Proof. by destruct s. Qed.

(** ** The liveness probe *)

Lemma SetReadDeadline_open s c t :
  closes (conn_of s c) = 0%nat → kind (conn_of s c) ≠ KHTTP2 →
  SetReadDeadline c t s =
    Done None (set_conns (alter (set_rdeadline t) c (conns s)) s).
Proof.
  intros Ho Hk. unfold SetReadDeadline, bind, get_conn, gets, is_closed.
  rewrite Ho. rewrite bool_decide_false by lia.
  destruct (kind (conn_of s c)); done.
Qed.

Lemma SetReadDeadline_refused s c t :
  closes (conn_of s c) ≠ 0%nat ∨ kind (conn_of s c) = KHTTP2 →
  ∃ e, SetReadDeadline c t s = Done (Some e) s.
Proof.
  intros H. unfold SetReadDeadline, bind, get_conn, gets, is_closed.
  case_bool_decide; [by eauto|].
  destruct H as [H|H]; [done|]. rewrite H. eauto.
Qed.

Lemma Second_pos : 0 < Second.
Proof. done. Qed.

Lemma alter3 (f g h : conn_state → conn_state) (c : nat) (l : list conn_state) :
  alter f c (alter g c (alter h c l)) = alter (λ x, f (g (h x))) c l.
Proof. by rewrite !list_alter_alter_eq. Qed.

Lemma alter2 (f g : conn_state → conn_state) (c : nat) (l : list conn_state) :
  alter f c (alter g c l) = alter (λ x, f (g x)) c l.
Proof. by rewrite !list_alter_alter_eq. Qed.

Lemma alter_ext_conn (f g : conn_state → conn_state) (c : nat) (l : list conn_state) :
  (∀ x, f x = g x) → alter f c l = alter g c l.
Proof. intros H. apply list_alter_ext; [by intros; apply H|done]. Qed.

Lemma short_datagram (l : list Z) n :
  (10 ≤ n)%nat →
  bool_decide (length (take n l) < 10)%nat = bool_decide (length l < 10)%nat.
Proof. intros Hn. apply bool_decide_ext. rewrite length_take. lia. Qed.

(** The probe on a connection that is open and takes deadlines. *)
Lemma isConnAlive_open s c cs :
  conns s !! c = Some cs → closes cs = 0%nat → kind cs ≠ KHTTP2 →
  isConnAlive (Some c) s =
    match inbox cs, peer cs with
    | _ :: rest, _ =>
        match kind cs with
        | KUDPRelay _ =>
            if bool_decide (length (inbox cs) < 10)%nat
            then Done false (set_conns
                   (alter (λ x, set_inbox [] (set_rdeadline (Some (clock s + Second)) x))
                      c (conns s)) s)
            else Done true (set_conns
                   (alter (λ x, set_rdeadline None (set_inbox [] x)) c (conns s)) s)
        | _ =>
            Done true (set_conns
              (alter (λ x, set_rdeadline None (set_inbox rest x)) c (conns s)) s)
        end
    | [], PeerSilent =>
        Done true (set_clock (clock s + Second)
          (set_conns (alter (set_rdeadline None) c (conns s)) s))
    | [], _ =>
        Done false (set_conns
          (alter (set_rdeadline (Some (clock s + Second))) c (conns s)) s)
    end.
Proof.
  intros Hl Ho Hk. destruct s as [ck cn dl li ub po m]. simpl in *.
  unfold isConnAlive, SetReadDeadline, Read, starved, time_Now, get_conn, upd_conn,
    bind, gets, modify, ret, is_closed, conn_of, expired. simpl.
  rewrite Hl. simpl. rewrite Ho. rewrite bool_decide_false by lia.
  destruct (kind cs) eqn:Ek; try done; simpl;
    rewrite list_lookup_alter_eq, Hl; simpl; rewrite Ho;
    rewrite bool_decide_false by lia;
    rewrite bool_decide_false by (pose proof Second_pos; lia);
    (destruct (inbox cs) as [|b rest] eqn:Ein; simpl;
     [ destruct (peer cs) eqn:Ep; simpl; try done;
       rewrite list_lookup_alter_eq, Hl; simpl; rewrite Ho;
       rewrite bool_decide_false by lia; rewrite Ek; simpl;
       unfold set_clock, set_conns; simpl; do 2 f_equal;
       rewrite alter2; apply alter_ext_conn; by intros []
     | rewrite ?Ek; simpl ]).
  - rewrite list_lookup_alter_eq, list_lookup_alter_eq, Hl; simpl; rewrite Ho;
      rewrite bool_decide_false by lia; rewrite Ek; simpl;
      unfold set_conns; simpl; do 2 f_equal;
      rewrite alter3; apply alter_ext_conn; by intros [].
  - change (S (length (take 16 rest))) with (length (take 17 (b :: rest))).
    rewrite short_datagram by lia. cbn [length].
    destruct (bool_decide (S (length rest) < 10)%nat) eqn:Hshort; simpl.
    + unfold set_conns; simpl; do 2 f_equal.
      rewrite alter2; apply alter_ext_conn; by intros [].
    + rewrite list_lookup_alter_eq, list_lookup_alter_eq, Hl; simpl; rewrite Ho;
        rewrite bool_decide_false by lia; rewrite Ek; simpl;
        unfold set_conns; simpl; do 2 f_equal;
        rewrite alter3; apply alter_ext_conn; by intros [].
Qed.

Lemma isConnAlive_refused s c :
  closes (conn_of s c) ≠ 0%nat ∨ kind (conn_of s c) = KHTTP2 →
  isConnAlive (Some c) s = Done false s.
Proof.
  intros H. unfold isConnAlive, bind at 1. unfold time_Now, gets. unfold bind.
  destruct (SetReadDeadline_refused s c (Some (clock s + Second)) H) as [e ->]. done.
Qed.

Lemma conn_of_alter_field {B} (g : conn_state → B) (f : conn_state → conn_state) s c c' t :
  (∀ x, g (f x) = g x) →
  g (conn_of (set_clock t (set_conns (alter f c (conns s)) s)) c') = g (conn_of s c').
Proof.
  intros Hg. unfold conn_of. simpl. rewrite list_lookup_alter.
  case_decide; subst; [|done]. destruct (conns s !! c'); simpl; [apply Hg|done].
Qed.

Lemma conn_of_alter_field' {B} (g : conn_state → B) (f : conn_state → conn_state) s c c' :
  (∀ x, g (f x) = g x) →
  g (conn_of (set_conns (alter f c (conns s)) s) c') = g (conn_of s c').
Proof.
  intros Hg. unfold conn_of. simpl. rewrite list_lookup_alter.
  case_decide; subst; [|done]. destruct (conns s !! c'); simpl; [apply Hg|done].
Qed.

(** The probe always answers; it touches nothing but the probed connection's
    deadline and inbox and, on a timeout, the clock. *)
Lemma isConnAlive_spec s conn :
  ∃ b s', isConnAlive conn s = Done b s' ∧ keeps_rest s s' ∧
    clock s ≤ clock s' ∧ (b = false → clock s' = clock s) ∧
    (∀ c', closes (conn_of s' c') = closes (conn_of s c')) ∧
    (b = true → ∃ c, conn = Some c ∧ closes (conn_of s c) = 0%nat ∧
                     rdeadline (conn_of s' c) = None).
Proof.
  destruct conn as [c|]; [|by exists false, s; repeat split; try done; lia].
  destruct (decide (closes (conn_of s c) = 0%nat ∧ kind (conn_of s c) ≠ KHTTP2))
    as [[Ho Hk]|Hn].
  - pose proof (open_valid _ _ Ho) as Hv.
    destruct (lookup_lt_is_Some_2 _ _ Hv) as [cs Hl].
    assert (Hcs : conn_of s c = cs) by (unfold conn_of; by rewrite Hl).
    rewrite Hcs in Ho, Hk.
    rewrite (isConnAlive_open s c cs Hl Ho Hk). pose proof Second_pos.
    destruct (inbox cs) as [|b0 rest];
      [destruct (peer cs)|destruct (kind cs); [| |case_bool_decide]];
      eexists _, _; (split; [reflexivity|]);
      (split; [by repeat split|]); (split; [simpl; lia|]);
      (split; [simpl; intros; first [done|lia]|]);
      (split; [intros c'; first [by apply (conn_of_alter_field closes)
                               |by apply (conn_of_alter_field' closes)]|]);
      first [done
            |intros _; exists c; repeat split; [congruence|];
             unfold conn_of; simpl; rewrite list_lookup_alter_eq, Hl; done].
  - rewrite isConnAlive_refused.
    + exists false, s. repeat split; try done; lia.
    + destruct (decide (closes (conn_of s c) = 0%nat)); [|by left].
      right. destruct (decide (kind (conn_of s c) = KHTTP2)); [done|]. tauto.
Qed.

(** ** Closing a connection *)

Lemma closes_after_incr s (c c' : nat) :
  (closes (conn_of s c') ≤
   closes (conn_of (set_conns (alter (λ x, set_closes (S (closes x)) x) c (conns s)) s) c'))%nat.
Proof.
  unfold conn_of. simpl. rewrite list_lookup_alter.
  case_decide; subst; [|lia]. destruct (conns s !! c'); simpl; lia.
Qed.

Lemma closed_after_incr s (c : nat) :
  closes (conn_of (set_conns (alter (λ x, set_closes (S (closes x)) x) c (conns s)) s) c) ≠ 0%nat.
Proof.
  unfold conn_of. simpl. rewrite list_lookup_alter_eq.
  destruct (conns s !! c); simpl; lia.
Qed.

(** Close returns, leaves pool, collector and clock alone, and lowers no
    close count; the closed connection counts at least one Close. *)
Lemma conn_Close_spec s c :
  ∃ s', conn_Close (Some c) s = Done tt s' ∧ keeps_rest s s' ∧
    clock s' = clock s ∧
    (∀ c', closes (conn_of s c') ≤ closes (conn_of s' c'))%nat ∧
    closes (conn_of s' c) ≠ 0%nat.
Proof.
  unfold conn_Close, bind at 1. unfold get_conn, gets at 1.
  set (incr := λ x, set_closes (S (closes x)) x).
  assert (Hone : ∀ s0 c0, ∃ s', upd_conn c0 incr s0 = Done tt s' ∧ keeps_rest s0 s' ∧
            clock s' = clock s0 ∧
            (∀ c', closes (conn_of s0 c') ≤ closes (conn_of s' c'))%nat ∧
            closes (conn_of s' c0) ≠ 0%nat).
  { intros s0 c0. eexists. split; [reflexivity|]. repeat split.
    - intros c'. apply closes_after_incr.
    - apply closed_after_incr. }
  destruct (kind (conn_of s c)) as [| |ctl]; try apply Hone.
  unfold bind.
  destruct (is_closed (conn_of s c)).
  - unfold ret. apply Hone.
  - destruct (Hone s ctl) as (s1 & -> & (?&?&?&?&?) & Hck & Hmono & _).
    destruct (Hone s1 c) as (s2 & -> & (?&?&?&?&?) & Hck2 & Hmono2 & Hcl).
    exists s2. repeat split; try congruence.
    intros c'. specialize (Hmono c'). specialize (Hmono2 c'). lia.
Qed.

(** Close on a valid connection that is not its own relay control adds
    exactly one to its close count. *)
Lemma conn_Close_counts s c :
  (c < length (conns s))%nat → kind (conn_of s c) ≠ KUDPRelay c →
  ∃ s', conn_Close (Some c) s = Done tt s' ∧
    closes (conn_of s' c) = S (closes (conn_of s c)).
Proof.
  intros Hv Hk. unfold conn_Close, bind at 1. unfold get_conn, gets at 1.
  destruct (lookup_lt_is_Some_2 _ _ Hv) as [cs Hl].
  assert (Hone : ∀ s0, conns s0 !! c = Some cs →
     closes (conn_of (set_conns (alter (λ x, set_closes (S (closes x)) x) c (conns s0)) s0) c)
      = S (closes cs)).
  { intros s0 Hl0. unfold conn_of. simpl. rewrite list_lookup_alter_eq, Hl0. done. }
  assert (Hcs : conn_of s c = cs) by (unfold conn_of; by rewrite Hl).
  rewrite Hcs in *.
  destruct (kind cs) as [| |ctl] eqn:Ek.
  - eexists. split; [reflexivity|]. by apply Hone.
  - eexists. split; [reflexivity|]. by apply Hone.
  - unfold bind. destruct (is_closed cs).
    + eexists. split; [reflexivity|]. by apply Hone.
    + eexists. split; [reflexivity|]. apply Hone. simpl.
      rewrite list_lookup_alter_ne; [done|congruence].
Qed.

(** ** Slices *)

Lemma slice_cut_last a i : slice_cut a (S i) i = Slice a i.
Proof.
  unfold slice_cut. replace (S i - S i)%nat with 0%nat by lia.
  replace (S i - 1)%nat with i by lia. simpl. by rewrite take_drop.
Qed.

Lemma view_slice_cut a n i :
  (i < n)%nat → (n ≤ length a)%nat →
  view (slice_cut a n i) = delete i (take n a).
Proof.
  intros Hi Hn. unfold view, slice_cut. simpl.
  rewrite delete_take_drop. rewrite take_take. rewrite Nat.min_l by lia.
  rewrite app_assoc. rewrite take_app_length'.
  - f_equal. rewrite take_drop_commute. by replace (S i + (n - S i))%nat with n by lia.
  - rewrite length_app, !length_take, length_drop. lia.
Qed.

Lemma view_slice_append s x :
  view (slice_append s x) = view s ++ [x].
Proof.
  unfold view, slice_append. case_decide; simpl.
  - rewrite (take_S_r _ _ x).
    + f_equal. rewrite take_insert_ge by lia. done.
    + apply list_lookup_insert_eq. lia.
  - rewrite take_ge; [done|]. rewrite length_app, length_take. simpl. lia.
Qed.

Lemma len_slice_append s x :
  (len s ≤ length (arr s))%nat →
  (len (slice_append s x) ≤ length (arr (slice_append s x)))%nat.
Proof.
  intros Hl. unfold slice_append. case_decide; simpl.
  - rewrite length_insert. lia.
  - rewrite length_app, length_take. simpl. lia.
Qed.

(** ** The pool's methods, step by step *)

Lemma sink_step (g : MetricsCollector → MetricsCollector) s :
  (let* m := ConnPool.p_metrics in
   when m (MetricsCollector.on_collector m g)) s =
  Done tt (if metrics (pool s) then set_mc (g (mc s)) s else s).
Proof.
  unfold bind, ConnPool.p_metrics, ConnPool.p_field, gets, when.
  destruct (metrics (pool s)); done.
Qed.

Lemma removeConn_last key i a e c s :
  idle (pool s) !! key = Some (Slice a (S i)) → a !! i = Some e → conn e = Some c →
  ConnPool.removeConn key i s =
  conn_Close (Some c)
    (set_pool (set_idle (<[key := Slice a i]> (idle (pool s))) (pool s)) s).
Proof.
  intros Hk Ha Hc.
  unfold ConnPool.removeConn, ConnPool.index, ConnPool.p_idle, ConnPool.p_field,
    ConnPool.store_idle, ConnPool.upd_pool, bind, gets, modify, ret, idle_at.
  rewrite Hk. simpl. rewrite decide_True by lia. rewrite Ha.
  rewrite slice_cut_last. by rewrite Hc.
Qed.

(** The tail of the loop body of [Get] once the probe said alive. *)
Lemma Get_found key n i (connExp : connWithExpiry) s :
  (let* cur := ConnPool.p_idle key in
   ConnPool.store_idle key (slice_cut (arr cur) n i) ;;;
   ConnPool.add_active 1 ;;;
   (let* m := ConnPool.p_metrics in
    when m (MetricsCollector.IncrementActiveConnections m)) ;;;
   ConnPool.add_active 1 ;;;
   (let* m := ConnPool.p_metrics in
    when m (MetricsCollector.RecordConnection m 0)) ;;;
   ret (conn connExp, None)) s =
  Done (conn connExp, @None error)
    (set_mc (if metrics (pool s)
             then MkMetrics (int64 (activeConns (mc s) + 1))
                    (int64 (totalConns (mc s) + 1)) (failedConns (mc s))
                    (int64 (totalDuration (mc s) + 0)) (errorTypes (mc s))
                    (protocolStats (mc s))
             else mc s)
       (set_pool
          (set_active (int64 (int64 (active (pool s) + 1) + 1))
             (set_idle (<[key := slice_cut (arr (idle_at (pool s) key)) n i]> (idle (pool s)))
                (pool s))) s)).
Proof.
  destruct s as [ck cn dl li ub [id ac mi ma it me] m].
  unfold bind, ConnPool.p_idle, ConnPool.p_metrics, ConnPool.p_field, ConnPool.store_idle,
    ConnPool.add_active, ConnPool.upd_pool, gets, modify, ret, when,
    MetricsCollector.IncrementActiveConnections, MetricsCollector.RecordConnection,
    MetricsCollector.on_collector. simpl.
  destruct me; reflexivity.
Qed.

(** The scan of [Get], from position [i1] down: it always returns; either it
    finds nothing, every entry below [i1] is closed and the key is left with
    an empty window, or it returns the connection at some position [i], that
    entry had not expired, is open, and the key is left with what
    [append(conns[:i], conns[i+1:]...)] makes of the window of [n]. *)
Lemma Get_loop_spec key n a : ∀ i1 s,
  idle (pool s) !! key = Some (Slice a i1) → (i1 ≤ n)%nat → (n ≤ length a)%nat →
  Forall (λ e, is_Some (conn e)) (take i1 a) →
  ∃ r s', ConnPool.Get_loop key n i1 s = Done r s' ∧
    dialed s' = dialed s ∧ listen s' = listen s ∧ udp_bind s' = udp_bind s ∧
    clock s ≤ clock s' ∧ same_limits (pool s) (pool s') ∧
    (∀ c', closes (conn_of s c') ≤ closes (conn_of s' c'))%nat ∧
    ((r = (None, None) ∧
      idle (pool s') = <[key := Slice a 0]> (idle (pool s)) ∧
      active (pool s') = active (pool s) ∧
      ∀ j e, (j < i1)%nat → a !! j = Some e → closed_in s' e)
     ∨
     (∃ i e c, (i < i1)%nat ∧ a !! i = Some e ∧ conn e = Some c ∧
        r = (Some c, None) ∧ clock s ≤ expiryTime e ∧
        closes (conn_of s' c) = 0%nat ∧ rdeadline (conn_of s' c) = None ∧
        idle (pool s') = <[key := slice_cut a n i]> (idle (pool s)) ∧
        active (pool s') = int64 (int64 (active (pool s) + 1) + 1) ∧
        ∀ j e', (i < j < i1)%nat → a !! j = Some e' → closed_in s' e')).
Proof.
  induction i1 as [|i IH]; intros s Hk Hin Hna Hsome.
  - exists (None, None), s. split; [done|]. repeat split; try done; try lia.
    left. repeat split; try lia. by rewrite insert_id.
  - assert (Hia : (i < length a)%nat) by lia.
    destruct (lookup_lt_is_Some_2 _ _ Hia) as [e He].
    assert (Hce : is_Some (conn e)).
    { rewrite Forall_forall in Hsome. apply Hsome.
      apply list_elem_of_lookup. exists i. rewrite lookup_take_lt by lia. done. }
    destruct Hce as [c Hc].
    (* after the entry at [i] is removed *)
    assert (Hremoved : ∀ s1, idle (pool s1) !! key = Some (Slice a (S i)) →
      clock s1 = clock s → dialed s1 = dialed s → listen s1 = listen s →
      udp_bind s1 = udp_bind s → pool s1 = pool s →
      (∀ c', closes (conn_of s c') ≤ closes (conn_of s1 c'))%nat →
      ∃ r s', (ConnPool.removeConn key i ;;; ConnPool.Get_loop key n i) s1 = Done r s' ∧
        dialed s' = dialed s ∧ listen s' = listen s ∧ udp_bind s' = udp_bind s ∧
        clock s ≤ clock s' ∧ same_limits (pool s) (pool s') ∧
        (∀ c', closes (conn_of s c') ≤ closes (conn_of s' c'))%nat ∧
        ((r = (None, None) ∧
          idle (pool s') = <[key := Slice a 0]> (idle (pool s)) ∧
          active (pool s') = active (pool s) ∧
          ∀ j e, (j < S i)%nat → a !! j = Some e → closed_in s' e)
         ∨
         (∃ i0 e c, (i0 < S i)%nat ∧ a !! i0 = Some e ∧ conn e = Some c ∧
            r = (Some c, None) ∧ clock s ≤ expiryTime e ∧
            closes (conn_of s' c) = 0%nat ∧ rdeadline (conn_of s' c) = None ∧
            idle (pool s') = <[key := slice_cut a n i0]> (idle (pool s)) ∧
            active (pool s') = int64 (int64 (active (pool s) + 1) + 1) ∧
            ∀ j e', (i0 < j < S i)%nat → a !! j = Some e' → closed_in s' e'))).
    { intros s1 Hk1 Hck1 Hd1 Hl1 Hu1 Hp1 Hmono1.
      unfold bind at 1. rewrite (removeConn_last key i a e c s1 Hk1 He Hc).
      set (s1' := set_pool _ s1).
      destruct (conn_Close_spec s1' c) as (s2 & -> & (Hp2&Hm2&Hd2&Hl2&Hu2) & Hck2 & Hmono2 & Hcl2).
      assert (Hk2 : idle (pool s2) !! key = Some (Slice a i)).
      { rewrite Hp2. unfold s1'. simpl. by rewrite lookup_insert_eq. }
      destruct (IH s2 Hk2) as (r & s' & Hrun & Hd & Hl & Hu & Hck & Hlim & Hmono & Hres).
      { lia. } { done. }
      { rewrite Forall_forall in *. intros x Hx. apply Hsome.
        apply list_elem_of_lookup in Hx as [j Hj].
        destruct (decide (j < i)%nat).
        - rewrite lookup_take_lt in Hj by lia. apply list_elem_of_lookup.
          exists j. rewrite lookup_take_lt by lia. done.
        - rewrite lookup_take_ge in Hj by lia. done. }
      exists r, s'. split; [done|].
      assert (Hclose_i : closed_in s' e).
      { exists c. split; [done|]. specialize (Hmono c). lia. }
      assert (Hidle2 : idle (pool s2) = <[key := Slice a i]> (idle (pool s))).
      { rewrite Hp2. unfold s1'. simpl. by rewrite Hp1. }
      repeat split.
      - rewrite Hd, Hd2. unfold s1'. simpl. done.
      - rewrite Hl, Hl2. unfold s1'. simpl. done.
      - rewrite Hu, Hu2. unfold s1'. simpl. done.
      - rewrite <- Hck. rewrite Hck2. unfold s1'. simpl. lia.
      - destruct Hlim as (?&?&?&?). rewrite Hp2 in *. unfold s1' in *. simpl in *.
        rewrite Hp1 in *. done.
      - destruct Hlim as (?&?&?&?). rewrite Hp2 in *. unfold s1' in *. simpl in *.
        rewrite Hp1 in *. done.
      - destruct Hlim as (?&?&?&?). rewrite Hp2 in *. unfold s1' in *. simpl in *.
        rewrite Hp1 in *. done.
      - destruct Hlim as (?&?&?&?). rewrite Hp2 in *. unfold s1' in *. simpl in *.
        rewrite Hp1 in *. done.
      - intros c'. specialize (Hmono c'). specialize (Hmono2 c'). specialize (Hmono1 c').
        assert (conn_of s1' c' = conn_of s1 c') by done.
        rewrite H in Hmono2. lia.
      - destruct Hres as [(-> & Hi & Ha & Hcl)|(i0 & e0 & c0 & Hi0 & He0 & Hc0 & -> & Hexp & Hop & Hrd & Hi & Ha & Hcl)].
        + left. repeat split.
          * rewrite Hi, Hidle2. by rewrite insert_insert_eq.
          * rewrite Ha, Hp2. unfold s1'. simpl. by rewrite Hp1.
          * intros j e' Hj He'. destruct (decide (j = i)) as [->|].
            -- rewrite He in He'. by inversion He'; subst.
            -- apply (Hcl j); [lia|done].
        + right. exists i0, e0, c0. repeat split; try done; try lia.
          * rewrite Hck2 in Hexp. unfold s1' in Hexp. simpl in Hexp. lia.
          * rewrite Hi, Hidle2. by rewrite insert_insert_eq.
          * rewrite Ha, Hp2. unfold s1'. simpl. by rewrite Hp1.
          * intros j e' Hj He'. destruct (decide (j = i)) as [->|].
            -- rewrite He in He'. by inversion He'; subst.
            -- apply (Hcl j); [lia|done]. }
    simpl.
    unfold bind at 1. unfold ConnPool.index at 1, bind at 1.
    unfold ConnPool.p_idle at 1, ConnPool.p_field, gets at 1, idle_at at 1.
    rewrite Hk. simpl. rewrite decide_True by lia. rewrite He. unfold ret at 1.
    unfold bind at 1, time_Now, gets at 1.
    case_bool_decide as Hexp.
    + apply Hremoved; try done.
    + unfold bind at 1.
      destruct (isConnAlive_spec s (conn e)) as (b & s1 & -> & (Hp1&Hm1&Hd1&Hl1&Hu1) & Hck1 & Hckf & Hcl1 & Hb).
      destruct b.
      * destruct (Hb eq_refl) as (c0 & Hc0 & Hopen & Hrd).
        rewrite Hc in Hc0. inversion Hc0; subst c0.
        rewrite Get_found. unfold idle_at. rewrite Hp1, Hk. simpl.
        eexists _, _. split; [reflexivity|].
        repeat split; simpl; try done; try lia; try (by rewrite Hp1).
        -- intros c'. rewrite <- (Hcl1 c'). done.
        -- right. exists i, e, c. repeat split; simpl; try done; try lia;
             try (by rewrite Hp1).
           ++ by rewrite Hc.
           ++ unfold conn_of. simpl. fold (conn_of s1 c). by rewrite Hcl1.
      * apply Hremoved; try done.
        -- by rewrite Hp1.
        -- by apply Hckf.
        -- intros c'. rewrite Hcl1. lia.
Qed.

(** ** [Get] as a whole *)

(** [Get] always returns, in one of three ways: refused at the limit, nothing
    found (every idle entry of the key closed and dropped), or an entry of the
    key's idle list handed out. *)
Lemma Get_spec network addr s :
  pool_inv s →
  let key := pool_key network addr in
  let sl := idle_at (pool s) key in
  ∃ r s', ConnPool.Get network addr s = Done r s' ∧
    dialed s' = dialed s ∧ listen s' = listen s ∧ udp_bind s' = udp_bind s ∧
    clock s ≤ clock s' ∧ same_limits (pool s) (pool s') ∧
    (∀ c', closes (conn_of s c') ≤ closes (conn_of s' c'))%nat ∧
    (∀ key', key' ≠ key → idle (pool s') !! key' = idle (pool s) !! key') ∧
    ((r = (None, Some limit_error) ∧ maxActive (pool s) ≤ active (pool s) ∧
      pool s' = pool s ∧ conns s' = conns s ∧ clock s' = clock s)
     ∨
     (r = (None, None) ∧ active (pool s) < maxActive (pool s) ∧
      len (idle_at (pool s') key) = 0%nat ∧
      active (pool s') = active (pool s) ∧
      ∀ e, e ∈ view sl → closed_in s' e)
     ∨
     (∃ i e c, view sl !! i = Some e ∧ conn e = Some c ∧
        r = (Some c, None) ∧ active (pool s) < maxActive (pool s) ∧
        clock s ≤ expiryTime e ∧
        closes (conn_of s' c) = 0%nat ∧ rdeadline (conn_of s' c) = None ∧
        idle (pool s') !! key = Some (slice_cut (arr sl) (len sl) i) ∧
        active (pool s') = int64 (int64 (active (pool s) + 1) + 1) ∧
        ∀ j e', (i < j)%nat → view sl !! j = Some e' → closed_in s' e')).
Proof.
  intros Hinv key sl.
  unfold ConnPool.Get. fold (pool_key network addr). fold key.
  unfold bind at 1, ConnPool.p_field at 1, gets at 1.
  unfold bind at 1, ConnPool.p_field at 1, gets at 1.
  case_bool_decide as Hlim.
  - unfold bind at 1. unfold MetricsCollector.RecordErrorType. rewrite sink_step.
    unfold ret. eexists _, _. split; [reflexivity|].
    destruct (metrics (pool s)); repeat split; simpl; try done; try lia;
      left; repeat split; done.
  - unfold bind at 1, ConnPool.p_idle at 1, ConnPool.p_field at 1, gets at 1.
    fold sl. case_bool_decide as Hlen.
    + assert (Hk : idle (pool s) !! key = Some sl).
      { unfold sl, idle_at in *. destruct (idle (pool s) !! key); [done|].
        simpl in Hlen. lia. }
      destruct (Hinv key sl Hk) as (Hcap & Hsort & Hbound & Hsome).
      destruct sl as [a n]. simpl in *.
      destruct (Get_loop_spec key n a n s Hk) as
        (r & s' & Hrun & Hd & Hl & Hu & Hck & (?&?&?&?) & Hmono & Hres); try done.
      exists r, s'. split; [done|]. repeat split; try done.
      * intros key' Hne.
        destruct Hres as [(_ & Hi & _)|(i & e & c & _ & _ & _ & _ & _ & _ & _ & Hi & _)];
          rewrite Hi; by rewrite lookup_insert_ne.
      * right.
        destruct Hres as [(-> & Hi & Ha & Hcl)|(i & e & c & Hin & He & Hc & -> & Hexp & Hop & Hrd & Hi & Ha & Hcl)].
        -- left. repeat split; try done; try lia.
           ++ unfold idle_at. rewrite Hi, lookup_insert_eq. done.
           ++ intros e He. apply list_elem_of_lookup in He as [j Hj].
              unfold view in Hj. simpl in Hj.
              apply lookup_take_Some in Hj as [Hj Hjn]. by apply (Hcl j).
        -- right. exists i, e, c. repeat split; try done; try lia.
           ++ unfold view. simpl. rewrite lookup_take_lt by lia. done.
           ++ rewrite Hi. by rewrite lookup_insert_eq.
           ++ intros j e' Hj He'. unfold view in He'. simpl in He'.
              apply lookup_take_Some in He' as [He' Hjn]. apply (Hcl j); [lia|done].
    + unfold ret. eexists _, _. split; [reflexivity|].
      repeat split; try done; try lia.
      right. left. repeat split; try done; try lia.
      * fold sl. lia.
      * intros e He. unfold view in He. replace (len sl) with 0%nat in He by lia.
        simpl in He. by apply elem_of_nil in He.
Qed.

(** ** The invariant of reachable states *)

Lemma by_expiry_sublist l1 l2 :
  l1 `sublist_of` l2 → by_expiry l2 → by_expiry l1.
Proof.
  unfold by_expiry. induction 1 as [|x l1 l2 Hs IH|x l1 l2 Hs IH]; intros H2.
  - done.
  - apply StronglySorted_cons in H2 as [Hx H2]. apply StronglySorted_cons. split; [|auto].
    rewrite Forall_forall in *. intros y Hy. apply Hx. by eapply elem_of_sublist.
  - apply StronglySorted_cons in H2 as [Hx H2]. auto.
Qed.

Lemma Forall_sublist_of {A} (P : A → Prop) (l1 l2 : list A) :
  l1 `sublist_of` l2 → Forall P l2 → Forall P l1.
Proof.
  intros Hs. rewrite !Forall_forall. intros H x Hx. apply H. by eapply elem_of_sublist.
Qed.

Lemma slice_ok_mono t t' sl : t ≤ t' → slice_ok t sl → slice_ok t' sl.
Proof.
  intros Ht (?&?&Hb&?). repeat split; try done.
  eapply Forall_impl; [exact Hb|]. simpl. intros; lia.
Qed.

Lemma slice_ok_sub t sl sl' :
  slice_ok t sl → (len sl' ≤ length (arr sl'))%nat →
  view sl' `sublist_of` view sl → slice_ok t sl'.
Proof.
  intros (?&?&?&?) Hl Hs. repeat split; try done.
  - by eapply by_expiry_sublist.
  - by eapply Forall_sublist_of.
  - by eapply Forall_sublist_of.
Qed.

Lemma slice_ok_append t sl x :
  slice_ok t sl → expiryTime x = t → is_Some (conn x) →
  slice_ok t (slice_append sl x).
Proof.
  intros (Hl&Hs&Hb&Hc) Hx Hcx. repeat split.
  - by apply len_slice_append.
  - rewrite view_slice_append. apply StronglySorted_app. repeat split.
    + intros a b Ha Hb'. apply list_elem_of_singleton in Hb'. subst b.
      rewrite Forall_forall in Hb. rewrite Hx. by apply Hb.
    + done.
    + repeat constructor.
  - rewrite view_slice_append. apply Forall_app. split; [done|].
    repeat constructor. lia.
  - rewrite view_slice_append. apply Forall_app. split; [done|].
    by repeat constructor.
Qed.

Lemma pool_inv_alt s :
  pool_inv s ↔
  ∀ key sl, idle (pool s) !! key = Some sl → slice_ok (clock s + idleTimeout (pool s)) sl.
Proof. done. Qed.

Lemma slice_ok_nil t a : slice_ok t (Slice a 0).
Proof. repeat split; simpl; try lia; unfold view; simpl; constructor. Qed.

(** [Get] keeps the invariant. *)
Lemma Get_inv network addr s r s' :
  pool_inv s → ConnPool.Get network addr s = Done r s' → pool_inv s'.
Proof.
  intros Hinv Hrun.
  destruct (Get_spec network addr s Hinv) as
    (r0 & s0 & Hrun0 & _ & _ & _ & Hck & (?&?&Hto&?) & _ & Hother & Hres).
  rewrite Hrun in Hrun0. inversion Hrun0; subst r0 s0. clear Hrun0.
  apply pool_inv_alt. intros key sl Hk.
  rewrite pool_inv_alt in Hinv. rewrite Hto.
  destruct (decide (key = pool_key network addr)) as [->|Hne].
  - destruct Hres as [(_ & _ & Hp & _ & Hc)|[(_ & _ & Hlen & _)|(i & e & c & Hi & _ & _ & _ & _ & _ & _ & Hk' & _)]].
    + rewrite Hp in Hk. rewrite Hc. by eapply Hinv.
    + unfold idle_at in Hlen. rewrite Hk in Hlen. simpl in Hlen.
      destruct sl as [a n]. simpl in Hlen. subst n. apply slice_ok_nil.
    + rewrite Hk in Hk'. inversion Hk'; subst sl. clear Hk'.
      assert (Hold : idle (pool s) !! pool_key network addr =
                     Some (idle_at (pool s) (pool_key network addr))).
      { unfold idle_at in *. destruct (idle (pool s) !! pool_key network addr); [done|].
        simpl in Hi. unfold view in Hi. simpl in Hi. done. }
      specialize (Hinv _ _ Hold).
      apply slice_ok_mono with (t := clock s + idleTimeout (pool s)); [lia|].
      set (old := idle_at (pool s) (pool_key network addr)) in *.
      assert (Hin : (i < len old)%nat).
      { unfold view in Hi. apply lookup_take_Some in Hi. lia. }
      destruct Hinv as (Hcap&?&?&?).
      eapply slice_ok_sub; [by repeat split| |].
      * unfold slice_cut. simpl. rewrite !length_app, !length_take, !length_drop. lia.
      * rewrite view_slice_cut by lia. apply sublist_delete.
  - rewrite Hother in Hk by done.
    apply slice_ok_mono with (t := clock s + idleTimeout (pool s)); [lia|]. by eapply Hinv.
Qed.

(** ** [Put] *)

(** [Put] always returns: a nil connection is ignored, a connection for a key
    whose idle list is full is closed, any other is appended to the idle list
    of its key with expiry [now + idleTimeout]. *)
Lemma Put_spec network addr conn s :
  let key := pool_key network addr in
  let sl := idle_at (pool s) key in
  ∃ s', ConnPool.Put network addr conn s = Done tt s' ∧
    clock s' = clock s ∧ same_limits (pool s) (pool s') ∧
    dialed s' = dialed s ∧ listen s' = listen s ∧ udp_bind s' = udp_bind s ∧
    (∀ key', key' ≠ key → idle (pool s') !! key' = idle (pool s) !! key') ∧
    ((conn = None ∧ s' = s)
     ∨
     (∃ c s1, conn = Some c ∧ maxIdle (pool s) ≤ Z.of_nat (len sl) ∧
        conn_Close (Some c) s = Done tt s1 ∧ conns s' = conns s1 ∧
        idle (pool s') = idle (pool s) ∧
        active (pool s') = int64 (active (pool s) + -1))
     ∨
     (∃ c, conn = Some c ∧ Z.of_nat (len sl) < maxIdle (pool s) ∧
        conns s' = conns s ∧
        idle (pool s') =
          <[key := slice_append sl (ConnWithExpiry (Some c) (clock s + idleTimeout (pool s)))]>
            (idle (pool s)) ∧
        active (pool s') = int64 (active (pool s) + -1))).
Proof.
  intros key sl. destruct conn as [c|].
  2:{ exists s. repeat split; try done. by left. }
  unfold ConnPool.Put. fold (pool_key network addr). fold key.
  unfold bind at 1, ConnPool.p_idle at 1, ConnPool.p_field at 1, gets at 1. fold sl.
  unfold bind at 1, ConnPool.p_field at 1, gets at 1.
  case_bool_decide as Hfull.
  - unfold bind at 1.
    destruct (conn_Close_spec s c) as (s1 & Hclose & (Hp1&Hm1&Hd1&Hl1&Hu1) & Hck1 & Hmono1 & Hcl1).
    rewrite Hclose.
    unfold bind at 1, ConnPool.add_active, ConnPool.upd_pool, modify at 1.
    unfold MetricsCollector.DecrementActiveConnections. rewrite sink_step.
    eexists. split; [reflexivity|].
    destruct (metrics _); simpl; rewrite ?Hp1; repeat split; try done;
      right; left; exists c, s1; repeat split; done.
  - unfold bind at 1, time_Now, gets at 1.
    unfold bind at 1, ConnPool.p_field at 1, gets at 1.
    unfold bind at 1, ConnPool.store_idle, ConnPool.upd_pool, modify at 1.
    unfold bind at 1, ConnPool.add_active, ConnPool.upd_pool, modify at 1.
    unfold MetricsCollector.DecrementActiveConnections. rewrite sink_step.
    eexists. split; [reflexivity|].
    destruct (metrics _); simpl; repeat split; try done;
      try (by intros key' Hne; rewrite lookup_insert_ne);
      right; right; exists c; repeat split; try done; lia.
Qed.

(** [Put] keeps the invariant. *)
Lemma Put_inv network addr conn s s' :
  pool_inv s → ConnPool.Put network addr conn s = Done tt s' → pool_inv s'.
Proof.
  intros Hinv Hrun.
  destruct (Put_spec network addr conn s) as
    (s0 & Hrun0 & Hck & (?&?&Hto&?) & _ & _ & _ & Hother & Hres).
  rewrite Hrun in Hrun0. inversion Hrun0; subst s0. clear Hrun0.
  destruct Hres as [(_ & ->)|[(c & s1 & _ & _ & _ & _ & Hi & _)|(c & _ & _ & _ & Hi & _)]].
  - done.
  - apply pool_inv_alt. intros key sl Hk. rewrite Hi in Hk. rewrite Hck, Hto.
    by eapply Hinv.
  - apply pool_inv_alt. intros key sl Hk. rewrite Hck, Hto.
    destruct (decide (key = pool_key network addr)) as [->|Hne].
    + rewrite Hi, lookup_insert_eq in Hk. inversion Hk; subst sl. clear Hk.
      apply slice_ok_append; [|done|by eexists].
      unfold idle_at. destruct (idle (pool s) !! pool_key network addr) as [old|] eqn:Eo.
      * by eapply Hinv.
      * apply slice_ok_nil.
    + rewrite Hi, lookup_insert_ne in Hk by done. by eapply Hinv.
Qed.

(** ** [CleanUp] *)

Lemma CleanUp_scan_spec now : ∀ elems alive s,
  Forall (λ e, is_Some (conn e)) elems →
  ∃ kept s', ConnPool.CleanUp_scan now elems alive s = Done (alive ++ kept) s' ∧
    kept `sublist_of` elems ∧
    idle (pool s') = idle (pool s) ∧ same_limits (pool s) (pool s') ∧
    clock s ≤ clock s' ∧
    dialed s' = dialed s ∧ listen s' = listen s ∧ udp_bind s' = udp_bind s.
Proof.
  induction elems as [|e rest IH]; intros alive s Hsome.
  - exists [], s. rewrite app_nil_r. repeat split; try done; lia.
  - apply Forall_cons in Hsome as [[c Hc] Hsome].
    assert (Hdrop : ∀ s0, pool s0 = pool s → clock s0 = clock s →
       dialed s0 = dialed s → listen s0 = listen s → udp_bind s0 = udp_bind s →
       ∃ kept s', (conn_Close (conn e) ;;; ConnPool.add_active (-1) ;;;
                   ConnPool.CleanUp_scan now rest alive) s0 = Done (alive ++ kept) s' ∧
         kept `sublist_of` e :: rest ∧
         idle (pool s') = idle (pool s) ∧ same_limits (pool s) (pool s') ∧
         clock s ≤ clock s' ∧
         dialed s' = dialed s ∧ listen s' = listen s ∧ udp_bind s' = udp_bind s).
    { intros s0 Hp0 Hck0 Hd0 Hl0 Hu0. rewrite Hc. unfold bind at 1.
      destruct (conn_Close_spec s0 c) as (s1 & -> & (Hp1&Hm1&Hd1&Hl1&Hu1) & Hck1 & _ & _).
      unfold bind at 1, ConnPool.add_active, ConnPool.upd_pool, modify at 1.
      set (s2 := set_pool _ s1).
      destruct (IH alive s2 Hsome) as (kept & s' & -> & Hsub & Hi & (?&?&?&?) & Hck & Hd & Hl & Hu).
      exists kept, s'. split; [done|]. unfold s2 in *. simpl in *.
      rewrite Hp1, Hp0 in *.
      repeat split; try congruence; try lia; try (by apply sublist_cons). }
    simpl. case_bool_decide as Hexp.
    + by apply Hdrop.
    + unfold bind at 1.
      destruct (isConnAlive_spec s (conn e)) as (b & s1 & -> & (Hp1&Hm1&Hd1&Hl1&Hu1) & Hck1 & Hckf & _ & _).
      destruct b; simpl.
      * destruct (IH (alive ++ [e]) s1 Hsome) as (kept & s' & -> & Hsub & Hi & (?&?&?&?) & Hck & Hd & Hl & Hu).
        exists (e :: kept), s'. rewrite <- app_assoc. simpl. split; [done|].
        rewrite Hp1 in *.
        repeat split; try congruence; try lia; try (by apply sublist_skip).
      * destruct (Hdrop s1) as (kept & s' & Hrun & Hrest); try done.
        { by apply Hckf. }
        exists kept, s'. split; [done|]. done.
Qed.

Lemma CleanUp_key_inv now key s :
  pool_inv s →
  ∃ s', ConnPool.CleanUp_key now key s = Done tt s' ∧ pool_inv s' ∧
    clock s ≤ clock s' ∧ same_limits (pool s) (pool s') ∧
    dialed s' = dialed s ∧ listen s' = listen s ∧ udp_bind s' = udp_bind s.
Proof.
  intros Hinv. unfold ConnPool.CleanUp_key.
  unfold bind at 1, ConnPool.p_field at 1, gets at 1.
  destruct (idle (pool s) !! key) as [sl|] eqn:Hk.
  2:{ exists s. split; [done|]. split; [done|]. repeat split; try done; lia. }
  destruct (Hinv key sl Hk) as (Hcap & Hsort & Hbound & Hsome).
  unfold bind at 1.
  destruct (CleanUp_scan_spec now (view sl) [] s Hsome) as
    (kept & s1 & -> & Hsub & Hi & (?&?&Hto&?) & Hck & Hd & Hl & Hu).
  simpl.
  assert (Hother : ∀ key' sl', idle (pool s1) !! key' = Some sl' →
            slice_ok (clock s1 + idleTimeout (pool s1)) sl').
  { intros key' sl' Hk'. rewrite Hi in Hk'. rewrite Hto.
    apply slice_ok_mono with (t := clock s + idleTimeout (pool s)); [lia|]. by eapply Hinv. }
  case_bool_decide as Hempty.
  - eexists. split; [reflexivity|]. simpl. split; [|by repeat split].
    apply pool_inv_alt. simpl. intros key' sl' Hk'.
    apply lookup_delete_Some in Hk' as [Hne Hk']. by eapply Hother.
  - eexists. split; [reflexivity|]. simpl. split; [|by repeat split].
    apply pool_inv_alt. simpl. intros key' sl' Hk'.
    destruct (decide (key' = key)) as [->|Hne].
    + rewrite lookup_insert_eq in Hk'. inversion Hk'; subst sl'. clear Hk'.
      apply slice_ok_sub with (sl := sl).
      * rewrite Hto. apply slice_ok_mono with (t := clock s + idleTimeout (pool s)); [lia|].
        by repeat split.
      * done.
      * unfold view at 1. simpl. by rewrite take_ge.
    + rewrite lookup_insert_ne in Hk' by done. by eapply Hother.
Qed.

Lemma CleanUp_keys_inv now : ∀ keys s,
  pool_inv s →
  ∃ s', ConnPool.CleanUp_keys now keys s = Done tt s' ∧ pool_inv s' ∧
    clock s ≤ clock s' ∧ same_limits (pool s) (pool s') ∧
    dialed s' = dialed s ∧ listen s' = listen s ∧ udp_bind s' = udp_bind s.
Proof.
  induction keys as [|key rest IH]; intros s Hinv.
  - exists s. split; [done|]. split; [done|]. repeat split; try done; lia.
  - simpl. unfold bind.
    destruct (CleanUp_key_inv now key s Hinv) as (s1 & -> & Hinv1 & Hck1 & (?&?&?&?) & ?&?&?).
    destruct (IH s1 Hinv1) as (s' & -> & Hinv' & Hck & (?&?&?&?) & ?&?&?).
    exists s'. split; [done|]. split; [done|]. repeat split; try congruence; lia.
Qed.

(** [CleanUp] always returns and keeps the invariant. *)
Lemma CleanUp_inv s :
  pool_inv s →
  ∃ s', ConnPool.CleanUp s = Done tt s' ∧ pool_inv s' ∧ clock s ≤ clock s'.
Proof.
  intros Hinv. unfold ConnPool.CleanUp.
  unfold bind at 1, time_Now, gets at 1.
  unfold bind at 1, ConnPool.p_field at 1, gets at 1.
  destruct (CleanUp_keys_inv (clock s) (fst <$> map_to_list (idle (pool s))) s Hinv)
    as (s' & -> & ? & ? & _). eauto.
Qed.

(** Every reachable state satisfies the invariant. *)
Lemma reachable_inv s : reachable s → pool_inv s.
Proof.
  induction 1 as [s mi mt it m Hnew|s s' Hreach IH Hstep].
  - intros key sl Hk. rewrite Hnew in Hk. simpl in Hk. by rewrite lookup_empty in Hk.
  - destruct Hstep as [network addr s r s' Hrun|network addr conn s s' Hrun|s s' Hrun|s s' Hp Hck].
    + by eapply Get_inv.
    + by eapply Put_inv.
    + destruct (CleanUp_inv s IH) as (s0 & Hrun0 & Hinv0 & _).
      rewrite Hrun in Hrun0. by inversion Hrun0; subst.
    + apply pool_inv_alt. intros key sl Hk. rewrite Hp in *.
      apply slice_ok_mono with (t := clock s + idleTimeout (pool s)); [lia|]. by eapply IH.
Qed.

(** ** What the pool never does to a connection *)

Lemma stays_refl s : stays s s.
Proof. by intros c'. Qed.

Lemma stays_trans s1 s2 s3 : stays s1 s2 → stays s2 s3 → stays s1 s3.
Proof.
  intros H12 H23 c'. destruct (H12 c') as [? ?], (H23 c') as [? ?].
  split; [congruence|auto].
Qed.

Lemma stays_conns s s' : conns s' = conns s → stays s s'.
Proof. intros H c'. unfold conn_of. by rewrite H. Qed.

Lemma stays_alter_at s c cs t (f : conn_state → conn_state) :
  conns s !! c = Some cs → peer (f cs) = peer cs →
  (inbox cs = [] → inbox (f cs) = []) →
  stays s (set_clock t (set_conns (alter f c (conns s)) s)).
Proof.
  intros Hl Hp Hi c'. unfold conn_of. simpl. rewrite list_lookup_alter.
  case_decide; subst; [|done]. rewrite Hl. simpl. auto.
Qed.

Lemma stays_alter_here s c cs (f : conn_state → conn_state) :
  conns s !! c = Some cs → peer (f cs) = peer cs →
  (inbox cs = [] → inbox (f cs) = []) →
  stays s (set_conns (alter f c (conns s)) s).
Proof.
  intros Hl Hp Hi c'. unfold conn_of. simpl. rewrite list_lookup_alter.
  case_decide; subst; [|done]. rewrite Hl. simpl. auto.
Qed.

Lemma stays_alter s c (f : conn_state → conn_state) :
  (∀ x, peer (f x) = peer x) → (∀ x, inbox x = [] → inbox (f x) = []) →
  stays s (set_conns (alter f c (conns s)) s).
Proof.
  intros Hp Hi c'. unfold conn_of. simpl. rewrite list_lookup_alter.
  case_decide; subst; [|done]. destruct (conns s !! c'); simpl; [|done]. auto.
Qed.

Lemma isConnAlive_stays s conn b s' :
  isConnAlive conn s = Done b s' →
  stays s s' ∧
  (b = true → ∃ c, conn = Some c ∧
     (inbox (conn_of s c) ≠ [] ∨ peer (conn_of s c) = PeerSilent)).
Proof.
  destruct conn as [c|]; [|by intros [= <- <-]; split; [apply stays_refl|]].
  destruct (decide (closes (conn_of s c) = 0%nat ∧ kind (conn_of s c) ≠ KHTTP2))
    as [[Ho Hk]|Hn].
  - pose proof (open_valid _ _ Ho) as Hv.
    destruct (lookup_lt_is_Some_2 _ _ Hv) as [cs Hl].
    assert (Hcs : conn_of s c = cs) by (unfold conn_of; by rewrite Hl).
    rewrite Hcs in *.
    rewrite (isConnAlive_open s c cs Hl Ho Hk).
    destruct (inbox cs) as [|b0 rest] eqn:Ein.
    + destruct (peer cs) eqn:Ep; intros [= <- <-].
      * split; [by apply (stays_alter_at s c cs)|].
        intros _. exists c. split; [done|]. rewrite Hcs. by right.
      * split; [by apply stays_alter|]. done.
      * split; [by apply stays_alter|]. done.
    + destruct (kind cs) eqn:Ekd; [| |case_bool_decide]; intros [= <- <-];
        (split; [apply (stays_alter_here s c cs); [done|done|by rewrite Ein]|]);
        first [done|intros _; exists c; split; [done|]; left; by rewrite Hcs, Ein].
  - rewrite isConnAlive_refused.
    + intros [= <- <-]. split; [apply stays_refl|done].
    + destruct (decide (closes (conn_of s c) = 0%nat)); [|by left].
      right. destruct (decide (kind (conn_of s c) = KHTTP2)); [done|]. tauto.
Qed.

Lemma conn_Close_stays s c s' :
  conn_Close (Some c) s = Done tt s' → stays s s'.
Proof.
  unfold conn_Close, bind at 1. unfold get_conn, gets at 1.
  set (incr := λ x, set_closes (S (closes x)) x).
  assert (Hone : ∀ s0 c0, stays s0 (set_conns (alter incr c0 (conns s0)) s0)).
  { intros. by apply stays_alter. }
  destruct (kind (conn_of s c)) as [| |ctl].
  - intros [= <-]. apply Hone.
  - intros [= <-]. apply Hone.
  - unfold bind. destruct (is_closed (conn_of s c)); simpl.
    + intros [= <-]. apply Hone.
    + intros [= <-]. eapply stays_trans; [apply (Hone s ctl)|]. apply Hone.
Qed.

Lemma removeConn_stays key i s s' :
  ConnPool.removeConn key i s = Done tt s' → stays s s'.
Proof.
  unfold ConnPool.removeConn. intros H.
  apply bind_inv in H as (sl & s1 & H1 & H). inversion H1; subst sl s1. clear H1.
  apply bind_inv in H as (e & s1 & H1 & H).
  assert (s1 = s) as ->.
  { unfold ConnPool.index, bind, ConnPool.p_idle, ConnPool.p_field, gets in H1.
    destruct (if decide _ then _ else _); by inversion H1. }
  apply bind_inv in H as ([] & s2 & H2 & H). inversion H2; subst s2. clear H2.
  destruct (conn e) as [c|]; [|done].
  apply conn_Close_stays in H. eapply stays_trans; [|exact H].
  by apply stays_conns.
Qed.

(** The connection [Get] hands out was answering when it was probed: it had
    sent something or was silent, not at end of file or reset. *)
Lemma Get_loop_stays key n : ∀ i1 s r s',
  ConnPool.Get_loop key n i1 s = Done r s' →
  stays s s' ∧
  (∀ c, r.1 = Some c →
     inbox (conn_of s c) ≠ [] ∨ peer (conn_of s c) = PeerSilent).
Proof.
  induction i1 as [|i IH]; intros s r s' Hrun.
  - inversion Hrun; subst. split; [apply stays_refl|done].
  - simpl in Hrun.
    apply bind_inv in Hrun as (e & s1 & H1 & Hrun).
    assert (s1 = s) as ->.
    { unfold ConnPool.index, bind, ConnPool.p_idle, ConnPool.p_field, gets in H1.
      destruct (if decide _ then _ else _); by inversion H1. }
    apply bind_inv in Hrun as (now & s1 & H2 & Hrun). inversion H2; subst now s1. clear H2.
    assert (Hremoved : ∀ s1, stays s s1 →
      (ConnPool.removeConn key i ;;; ConnPool.Get_loop key n i) s1 = Done r s' →
      stays s s' ∧
      (∀ c, r.1 = Some c → inbox (conn_of s c) ≠ [] ∨ peer (conn_of s c) = PeerSilent)).
    { intros s1 Hs1 Hr.
      apply bind_inv in Hr as ([] & s2 & Hrm & Hr).
      apply removeConn_stays in Hrm.
      destruct (IH _ _ _ Hr) as [Hst Hal].
      assert (Hs2 : stays s s2) by (by eapply stays_trans).
      split; [by eapply stays_trans|].
      intros c Hc. destruct (Hs2 c) as [Hp Hi].
      destruct (Hal c Hc) as [Hin|Hpe].
      - left. intros Hempty. by apply Hin, Hi.
      - right. congruence. }
    case_bool_decide.
    + apply (Hremoved s); [apply stays_refl|done].
    + apply bind_inv in Hrun as (b & s1 & Hprobe & Hrun).
      apply isConnAlive_stays in Hprobe as [Hst Hb].
      destruct b.
      * rewrite Get_found in Hrun. inversion Hrun; subst r s'. clear Hrun.
        split.
        -- eapply stays_trans; [exact Hst|]. by apply stays_conns.
        -- simpl. intros c Hc. destruct (Hb eq_refl) as (c0 & Hc0 & Hal).
           rewrite Hc in Hc0. by inversion Hc0; subst.
      * by apply (Hremoved s1).
Qed.

Lemma Get_stays network addr s r s' :
  ConnPool.Get network addr s = Done r s' →
  stays s s' ∧
  (∀ c, r.1 = Some c →
     inbox (conn_of s c) ≠ [] ∨ peer (conn_of s c) = PeerSilent).
Proof.
  unfold ConnPool.Get. intros H.
  apply bind_inv in H as (ac & s1 & H1 & H). inversion H1; subst ac s1. clear H1.
  apply bind_inv in H as (ma & s1 & H1 & H). inversion H1; subst ma s1. clear H1.
  case_bool_decide.
  - apply bind_inv in H as ([] & s1 & H1 & H). inversion H; subst r s'. clear H.
    unfold MetricsCollector.RecordErrorType in H1. rewrite sink_step in H1.
    inversion H1; subst s1. split; [|done].
    apply stays_conns. by destruct (metrics _).
  - apply bind_inv in H as (sl & s1 & H1 & H). inversion H1; subst sl s1. clear H1.
    case_bool_decide.
    + by apply Get_loop_stays in H.
    + inversion H; subst. split; [apply stays_refl|done].
Qed.

(** ** The time a probe and a Get take *)

(** The probe takes no time unless it waits for its deadline, one second. *)
Lemma isConnAlive_clock s conn b s' :
  isConnAlive conn s = Done b s' →
  clock s ≤ clock s' ≤ clock s + Second.
Proof.
  pose proof Second_pos as Hsec.
  destruct conn as [c|]; [|intros [= <- <-]; lia].
  destruct (decide (closes (conn_of s c) = 0%nat ∧ kind (conn_of s c) ≠ KHTTP2))
    as [[Ho Hk]|Hn].
  - pose proof (open_valid _ _ Ho) as Hv.
    destruct (lookup_lt_is_Some_2 _ _ Hv) as [cs Hl].
    assert (Hcs : conn_of s c = cs) by (unfold conn_of; by rewrite Hl).
    rewrite Hcs in *.
    rewrite (isConnAlive_open s c cs Hl Ho Hk).
    destruct (inbox cs) as [|b0 rest];
      [destruct (peer cs)|destruct (kind cs); [| |case_bool_decide]];
      intros [= <- <-]; simpl; lia.
  - rewrite isConnAlive_refused.
    + intros [= <- <-]. lia.
    + destruct (decide (closes (conn_of s c) = 0%nat)); [|by left].
      right. destruct (decide (kind (conn_of s c) = KHTTP2)); [done|]. tauto.
Qed.

Lemma removeConn_clock key i s s' :
  ConnPool.removeConn key i s = Done tt s' → clock s' = clock s.
Proof.
  unfold ConnPool.removeConn. intros H.
  apply bind_inv in H as (sl & s1 & H1 & H). inversion H1; subst sl s1. clear H1.
  apply bind_inv in H as (e & s1 & H1 & H).
  assert (s1 = s) as ->.
  { unfold ConnPool.index, bind, ConnPool.p_idle, ConnPool.p_field, gets in H1.
    destruct (if decide _ then _ else _); by inversion H1. }
  apply bind_inv in H as ([] & s2 & H2 & H). inversion H2; subst s2. clear H2.
  destruct (conn e) as [c|]; [|done].
  match type of H with conn_Close _ ?s0 = _ =>
    destruct (conn_Close_spec s0 c) as (s2 & Hrun & _ & Hck & _) end.
  rewrite Hrun in H. inversion H; subst s2. by rewrite Hck.
Qed.

(** The scan of [Get] waits for one probe at most: the one of the connection
    it hands out. *)
Lemma Get_loop_clock key n : ∀ i1 s r s',
  ConnPool.Get_loop key n i1 s = Done r s' →
  clock s ≤ clock s' ≤ clock s + Second.
Proof.
  pose proof Second_pos as Hsec.
  induction i1 as [|i IH]; intros s r s' Hrun.
  - inversion Hrun; subst. lia.
  - simpl in Hrun.
    apply bind_inv in Hrun as (e & s1 & H1 & Hrun).
    assert (s1 = s) as ->.
    { unfold ConnPool.index, bind, ConnPool.p_idle, ConnPool.p_field, gets in H1.
      destruct (if decide _ then _ else _); by inversion H1. }
    apply bind_inv in Hrun as (now & s1 & H2 & Hrun). inversion H2; subst now s1. clear H2.
    assert (Hremoved : ∀ s1, clock s1 = clock s →
      (ConnPool.removeConn key i ;;; ConnPool.Get_loop key n i) s1 = Done r s' →
      clock s ≤ clock s' ≤ clock s + Second).
    { intros s1 Hs1 Hr.
      apply bind_inv in Hr as ([] & s2 & Hrm & Hr).
      apply removeConn_clock in Hrm. apply IH in Hr. lia. }
    case_bool_decide.
    + by apply (Hremoved s).
    + apply bind_inv in Hrun as (b & s1 & Hprobe & Hrun).
      destruct (isConnAlive_spec s (conn e)) as (b' & s1' & Hp' & _ & _ & Hdead & _).
      rewrite Hp' in Hprobe. inversion Hprobe; subst b' s1'. clear Hprobe.
      apply isConnAlive_clock in Hp'.
      destruct b.
      * rewrite Get_found in Hrun. inversion Hrun; subst r s'. simpl. lia.
      * apply (Hremoved s1); [by apply Hdead|done].
Qed.

Lemma Get_clock network addr s r s' :
  ConnPool.Get network addr s = Done r s' →
  clock s ≤ clock s' ≤ clock s + Second.
Proof.
  pose proof Second_pos as Hsec.
  unfold ConnPool.Get. intros H.
  apply bind_inv in H as (ac & s1 & H1 & H). inversion H1; subst ac s1. clear H1.
  apply bind_inv in H as (ma & s1 & H1 & H). inversion H1; subst ma s1. clear H1.
  case_bool_decide.
  - apply bind_inv in H as ([] & s1 & H1 & H). inversion H; subst r s'. clear H.
    unfold MetricsCollector.RecordErrorType in H1. rewrite sink_step in H1.
    inversion H1; subst s1. destruct (metrics _); simpl; lia.
  - apply bind_inv in H as (sl & s1 & H1 & H). inversion H1; subst sl s1. clear H1.
    case_bool_decide.
    + by apply Get_loop_clock in H.
    + inversion H; subst. lia.
Qed.

Lemma by_expiry_lookup l i j x y :
  by_expiry l → l !! i = Some x → l !! j = Some y → (i < j)%nat →
  expiryTime x ≤ expiryTime y.
Proof.
  intros Hs Hi Hj Hij. unfold by_expiry in Hs.
  rewrite <- (take_drop j l) in Hs.
  apply (StronglySorted_app_1_elem_of _ _ _ x y) in Hs; [done| |].
  - apply list_elem_of_lookup. exists i. by rewrite lookup_take_lt.
  - apply list_elem_of_lookup. exists 0%nat. rewrite lookup_drop.
    by rewrite Nat.add_0_r.
Qed.

(** C3 (ConnPool.Get, ConnPool.removeConn), as the code has it.  In every
    state a pool can reach, [Get] returns, after one second at most.  The
    connection it returns sat in the idle list of the key and had not expired
    when [Get] tested it: its expiry time is not before the clock [Get]
    started at.  The probe that follows the test may wait for a second, so
    when [Get] returns the entry can be past its expiry time, by a second at
    most.  The connection was never closed and was answering the probe (data
    waiting, or silent); the entries the scan passed before it were closed,
    and none of them had expired.  When nothing is returned (and the pool was
    not at its limit) every entry of the key, expired ones included, was
    closed and the idle list of the key is left empty. *)
Theorem Get_returns_unexpired_when_tested network addr s :
  reachable s →
  let key := pool_key network addr in
  let old := view (idle_at (pool s) key) in
  ∃ r s', ConnPool.Get network addr s = Done r s' ∧
    clock s ≤ clock s' ≤ clock s + Second ∧
    match r.1 with
    | Some c =>
      ∃ i e, old !! i = Some e ∧ conn e = Some c ∧
        ¬ (expiryTime e < clock s) ∧
        clock s' - Second ≤ expiryTime e ∧
        closes (conn_of s' c) = 0%nat ∧
        (inbox (conn_of s c) ≠ [] ∨ peer (conn_of s c) = PeerSilent) ∧
        (∀ j e', (i < j)%nat → old !! j = Some e' →
           closed_in s' e' ∧ ¬ (expiryTime e' < clock s))
    | None =>
      r.2 = None →
      view (idle_at (pool s') key) = [] ∧ ∀ e, e ∈ old → closed_in s' e
    end.
Proof.
  intros Hreach key old. pose proof (reachable_inv s Hreach) as Hinv.
  destruct (Get_spec network addr s Hinv) as
    (r & s' & Hrun & _ & _ & _ & _ & _ & _ & _ & Hres).
  exists r, s'. split; [done|].
  pose proof (Get_clock _ _ _ _ _ Hrun) as Hclock. split; [done|].
  destruct (Get_stays _ _ _ _ _ Hrun) as [_ Halive].
  destruct Hres as [(-> & _)|[(-> & _ & Hlen & _ & Hcl)|(i & e & c & Hi & Hc & -> & _ & Hexp & Hop & _ & _ & _ & Hcl)]].
  - simpl. done.
  - simpl. intros _. split; [|done]. unfold view, key. by rewrite Hlen.
  - simpl. exists i, e.
    split; [done|]. split; [done|]. split; [lia|]. split; [lia|]. split; [done|].
    split; [by apply Halive|].
    intros j e' Hij Hj. split; [by apply (Hcl j)|].
    assert (by_expiry old) as Hsorted.
    { unfold old, idle_at. destruct (idle (pool s) !! key) as [sl|] eqn:Hk.
      - by destruct (Hinv key sl Hk) as (_ & ? & _).
      - constructor. }
    fold key in Hi. fold old in Hi.
    pose proof (by_expiry_lookup old i j e e' Hsorted Hi Hj Hij). lia.
Qed.

(** ** The probe's verdicts *)

Lemma Read_after_probe s c rest n :
  closes (conn_of s c) = 0%nat → rdeadline (conn_of s c) = None →
  kind (conn_of s c) = KSocket →
  inbox (conn_of s c) = rest → rest ≠ [] →
  ∃ s', Read c n s = Done (Ok (Z.of_nat (length (take n rest)), take n rest)) s'.
Proof.
  intros Ho Hd Hk Hi Hne. unfold Read, bind, get_conn, time_Now, gets, is_closed, expired.
  rewrite Ho, Hd, Hi, Hk. rewrite bool_decide_false by lia.
  destruct rest; [done|]. eexists. reflexivity.
Qed.

(** C10 (isConnAlive).  The probe always answers, and alive only when its
    read succeeds or times out.  On a socket that is open: if the peer has
    already sent data the one-byte read succeeds, the verdict is alive, the
    read deadline is cleared, and the byte read is gone: the inbox holds only
    what followed it, and that is what the next read of the connection
    delivers.  On a relay that is open and has a datagram waiting, the read
    takes the whole datagram, which is gone with it: of ten bytes or more it
    succeeds and the verdict is alive, under ten bytes it fails with
    [io.ErrShortBuffer] and the verdict is dead.  If nothing has arrived and
    the peer is silent the read times out after one second, the verdict is
    alive and the deadline is cleared.  If nothing has arrived and the peer
    has closed or reset the connection, the verdict is dead. *)
Theorem isConnAlive_discards_byte s c :
  let cs := conn_of s c in
  ∃ b s', isConnAlive (Some c) s = Done b s' ∧
    (b = true ↔
       closes cs = 0%nat ∧ kind cs ≠ KHTTP2 ∧ (inbox cs ≠ [] ∨ peer cs = PeerSilent) ∧
       (∀ ctl, kind cs = KUDPRelay ctl → inbox cs = [] ∨ (10 ≤ length (inbox cs))%nat)) ∧
    (∀ byte0 rest, closes cs = 0%nat → kind cs = KSocket → inbox cs = byte0 :: rest →
       b = true ∧ inbox (conn_of s' c) = rest ∧ rdeadline (conn_of s' c) = None ∧
       clock s' = clock s ∧
       (rest ≠ [] → ∀ n, ∃ s'',
          Read c n s' = Done (Ok (Z.of_nat (length (take n rest)), take n rest)) s'')) ∧
    (∀ ctl, closes cs = 0%nat → kind cs = KUDPRelay ctl → inbox cs ≠ [] →
       b = bool_decide (10 ≤ length (inbox cs))%nat ∧
       inbox (conn_of s' c) = [] ∧ clock s' = clock s ∧
       (b = true → rdeadline (conn_of s' c) = None)) ∧
    (closes cs = 0%nat → kind cs ≠ KHTTP2 → inbox cs = [] → peer cs = PeerSilent →
       b = true ∧ rdeadline (conn_of s' c) = None ∧ clock s' = clock s + Second) ∧
    (inbox cs = [] → peer cs ≠ PeerSilent → b = false).
Proof.
  intros cs. assert (Hcs : conn_of s c = cs) by done. clearbody cs.
  destruct (decide (closes cs = 0%nat ∧ kind cs ≠ KHTTP2)) as [[Ho Hk]|Hn].
  - assert (Hv : (c < length (conns s))%nat) by (apply open_valid; by rewrite Hcs).
    destruct (lookup_lt_is_Some_2 _ _ Hv) as [cs' Hl].
    assert (cs' = cs) as -> by (unfold conn_of in Hcs; by rewrite Hl in Hcs).
    rewrite (isConnAlive_open s c cs Hl) by congruence.
    assert (Hat : ∀ f t, conn_of (set_clock t (set_conns (alter f c (conns s)) s)) c = f cs).
    { intros f t. unfold conn_of. simpl. by rewrite list_lookup_alter_eq, Hl. }
    assert (Hat' : ∀ f, conn_of (set_conns (alter f c (conns s)) s) c = f cs).
    { intros f. unfold conn_of. simpl. by rewrite list_lookup_alter_eq, Hl. }
    destruct (inbox cs) as [|b0 rest] eqn:Ein.
    + destruct (peer cs) eqn:Ep.
      * eexists _, _. split; [reflexivity|]. split; [|repeat split; try done].
        -- split; [intros _; repeat split; try done; [by right|by left]|done].
        -- by rewrite Hat.
      * eexists _, _. split; [reflexivity|]. split; [|repeat split; try done].
        split; [done|]. intros (_ & _ & [?|?] & _); done.
      * eexists _, _. split; [reflexivity|]. split; [|repeat split; try done].
        split; [done|]. intros (_ & _ & [?|?] & _); done.
    + destruct (kind cs) as [| |ctl0] eqn:Ekd; [|done|].
      * eexists _, _. split; [reflexivity|]. split.
        { split; [intros _; repeat split; try done; by left|done]. }
        split; [|split; [|split]; intros; done].
        intros byte0 rest0 _ _ [= <- <-]. rewrite Hat'.
        repeat split; try done.
        intros Hne n. apply Read_after_probe; rewrite ?Hat'; done.
      * cbn [length]. case_bool_decide as Hshort.
        -- eexists _, _. split; [reflexivity|]. split.
           { split; [done|]. intros (_ & _ & _ & Hd).
             destruct (Hd ctl0 eq_refl) as [?|Hl10]; [done|]. simpl in Hl10. lia. }
           split; [intros; done|]. split; [|split; intros; done].
           intros ctl _ _ _. rewrite Hat'. repeat split; try done.
           symmetry. apply bool_decide_false. simpl. lia.
        -- eexists _, _. split; [reflexivity|]. split.
           { split; [|done]. intros _. repeat split; try done; [by left|].
             intros ctl _. right. simpl. lia. }
           split; [intros; done|]. split; [|split; intros; done].
           intros ctl _ _ _. rewrite Hat'. repeat split; try done.
           symmetry. apply bool_decide_true. simpl. lia.
  - rewrite isConnAlive_refused.
    + exists false, s. split; [done|]. split.
      { split; [done|]. intros (? & ? & _). tauto. }
      split; [intros byte0 rest Ho Hk; exfalso; apply Hn; split; [done|]; by rewrite Hk|].
      split; [|split; [intros; tauto|done]].
      intros ctl Ho Hk. exfalso. apply Hn. split; [done|]. by rewrite Hk.
    + rewrite Hcs. destruct (decide (closes cs = 0%nat)); [|by left].
      right. destruct (decide (kind cs = KHTTP2)); [done|]. tauto.
Qed.

(** The probe changes neither the number of connections nor what kind of
    connection a handle denotes. *)
Lemma isConnAlive_shape s conn b s' :
  isConnAlive conn s = Done b s' →
  length (conns s') = length (conns s) ∧
  ∀ c', kind (conn_of s' c') = kind (conn_of s c').
Proof.
  destruct conn as [c|]; [|by intros [= <- <-]].
  destruct (decide (closes (conn_of s c) = 0%nat ∧ kind (conn_of s c) ≠ KHTTP2))
    as [[Ho Hk]|Hn].
  - pose proof (open_valid _ _ Ho) as Hv.
    destruct (lookup_lt_is_Some_2 _ _ Hv) as [cs Hl].
    assert (Hcs : conn_of s c = cs) by (unfold conn_of; by rewrite Hl).
    rewrite Hcs in *.
    rewrite (isConnAlive_open s c cs Hl Ho Hk).
    destruct (inbox cs) as [|b0 rest];
      [destruct (peer cs)|destruct (kind cs); [| |case_bool_decide]]; intros [= <- <-];
      (split; [simpl; by rewrite length_alter|]); intros c';
      first [by apply (conn_of_alter_field kind) | by apply (conn_of_alter_field' kind)].
  - rewrite isConnAlive_refused.
    + by intros [= <- <-].
    + destruct (decide (closes (conn_of s c) = 0%nat)); [|by left].
      right. destruct (decide (kind (conn_of s c) = KHTTP2)); [done|]. tauto.
Qed.

(** ** The wrapper's Close *)



(** ** A dialer talking on the connection it has just opened *)

Lemma conn_of_last l cs s0 :
  conn_of (set_conns (l ++ [cs]) s0) (length l) = cs.
Proof. unfold conn_of. simpl. by rewrite lookup_app_r, Nat.sub_diag by lia. Qed.

Lemma alter_last (f : conn_state → conn_state) (l : list conn_state) cs :
  alter f (length l) (l ++ [cs]) = l ++ [f cs].
Proof.
  rewrite alter_app_r_alt by lia. by rewrite Nat.sub_diag.
Qed.

Lemma connect_answers s address script :
  answers s address script →
  connect address s =
  Done (Ok (length (conns s)))
       (set_conns (conns s ++ [script]) (set_dialed (dialed s ++ [address]) s)).
Proof.
  intros [i Hfind]. unfold connect, new_conn, bind, modify, gets, ret. simpl.
  by rewrite Hfind.
Qed.

Lemma Write_last l cs s0 b :
  usable (clock s0) cs →
  Write (length l) b (set_conns (l ++ [cs]) s0) =
  Done None (set_conns (l ++ [set_outbox (outbox cs ++ [b]) cs]) s0).
Proof.
  intros (Ho & Hp & Hr & Hw).
  unfold Write, bind, get_conn, time_Now, gets, upd_conn, modify, ret, is_closed.
  rewrite conn_of_last.
  change (clock (set_conns (l ++ [cs]) s0)) with (clock s0).
  rewrite Ho, Hw. rewrite bool_decide_false by lia.
  destruct (peer cs); try done; cbv beta;
    change (conns (set_conns (l ++ [cs]) s0)) with (l ++ [cs]);
    by rewrite alter_last.
Qed.

Lemma read_exactly_last short l cs s0 n got more :
  usable (clock s0) cs → inbox cs = got ++ more → length got = n →
  read_exactly short (length l) n (set_conns (l ++ [cs]) s0) =
  Done (Ok got) (set_conns (l ++ [set_inbox more cs]) s0).
Proof.
  intros (Ho & Hp & Hr & Hw) Hin Hn.
  unfold read_exactly. destruct n as [|n].
  - destruct got; [|done]. simpl in Hin. unfold ret. do 2 f_equal.
    simpl. do 2 f_equal. destruct cs; simpl in *. by subst.
  - unfold bind, get_conn, time_Now, gets, upd_conn, modify, ret, is_closed.
    rewrite conn_of_last.
    change (clock (set_conns (l ++ [cs]) s0)) with (clock s0).
    rewrite Ho, Hr. rewrite bool_decide_false by lia.
    rewrite decide_True by (rewrite Hin, length_app; lia).
    cbv beta. change (conns (set_conns (l ++ [cs]) s0)) with (l ++ [cs]).
    rewrite alter_last, Hin. rewrite <- Hn.
    by rewrite take_app_length, drop_app_length.
Qed.

Lemma usable_set_outbox now cs v : usable now cs → usable now (set_outbox v cs).
Proof. by intros (?&?&?&?). Qed.

Lemma usable_set_inbox now cs v : usable now cs → usable now (set_inbox v cs).
Proof. by intros (?&?&?&?). Qed.

Lemma apply_deadline_last ctx l cs s0 :
  closes cs = 0%nat → kind cs = KSocket →
  SocksDialer.apply_deadline ctx (length l) (set_conns (l ++ [cs]) s0) =
  Done tt (set_conns (l ++ [with_deadline ctx cs]) s0).
Proof.
  intros Ho Hk. unfold SocksDialer.apply_deadline, with_deadline.
  destruct (ctx_deadline ctx) as [d|]; [|done].
  unfold SetDeadline, bind, get_conn, gets, upd_conn, modify, ret, is_closed.
  rewrite conn_of_last. rewrite Ho, Hk. rewrite bool_decide_false by lia.
  cbv beta. change (conns (set_conns (l ++ [cs]) s0)) with (l ++ [cs]).
  by rewrite alter_last.
Qed.

Lemma usable_with_deadline ctx now cs :
  fresh_socket cs →
  match ctx_deadline ctx with Some d => now < d | None => True end →
  usable now (with_deadline ctx cs).
Proof.
  intros (Hk & Ho & Hr & Hw & Hp & _) Hd. unfold with_deadline, usable.
  destruct (ctx_deadline ctx) as [d|]; simpl.
  - repeat split; try done; apply bool_decide_false; lia.
  - rewrite Hr, Hw. done.
Qed.

Lemma PutUint16_uint16 p :
  PutUint16 (uint16 p) = [(p / 256) mod 256; p mod 256].
Proof.
  unfold PutUint16, uint16, byte, shr. rewrite Z.shiftr_div_pow2 by lia.
  f_equal; [|f_equal].
  - change (2 ^ 8) with 256. change 65536 with (256 * 256).
    rewrite Z.rem_mul_r by lia.
    rewrite (Z.mul_comm 256 ((p / 256) mod 256)), Z.div_add by lia.
    rewrite Z.div_small by (apply Z.mod_pos_bound; lia).
    rewrite Z.add_0_l. apply Z.mod_mod. lia.
  - change 65536 with (256 * 256). rewrite Z.rem_mul_r by lia.
    rewrite (Z.mul_comm 256 ((p / 256) mod 256)), Z.mod_add by lia.
    apply Z.mod_mod. lia.
Qed.

Lemma io_ReadFull_last l cs s0 n got more :
  usable (clock s0) cs → inbox cs = got ++ more → length got = n →
  io_ReadFull (length l) n (set_conns (l ++ [cs]) s0) =
  Done (Ok got) (set_conns (l ++ [set_inbox more cs]) s0).
Proof. apply read_exactly_last. Qed.

Lemma io_CopyN_Discard_last l cs s0 n got more :
  usable (clock s0) cs → inbox cs = got ++ more → length got = n →
  io_CopyN_Discard (length l) n (set_conns (l ++ [cs]) s0) =
  Done None (set_conns (l ++ [set_inbox more cs]) s0).
Proof.
  intros. unfold io_CopyN_Discard, bind.
  by rewrite (read_exactly_last io_EOF l cs s0 n got more).
Qed.

(** One step of a run: the first action of a sequence returns. *)
Ltac step_by lem :=
  unfold bind at 1; rewrite lem; cbv beta iota.

(** C1 (SocksDialer.dialSocks5).  With no credentials configured (user or
    password empty) the dialer offers no-auth only.  Against a proxy that
    accepts the connection, selects no-auth (05 00) and answers the request
    with 05 00 00 01 00 00 00 00 00 00, it returns the open socket, having
    written the method frame 05 01 00 and then exactly one request frame:
    05 01 00, the address type, the address bytes and the port, high byte
    first.  The address is 03, length, name for a host that is no IP literal;
    01 and four bytes for an IPv4 address; 04 and sixteen bytes otherwise.
    The reply is consumed whole: what the proxy sent after it is what is left
    to read. *)
Theorem dialSocks5_noauth_frame `{L : GoLib} (d : SocksDialer.t) ctx addr host port portNum
    s script rest :
  socks_User (SocksDialer.Config d) = EmptyString ∨
  socks_Pass (SocksDialer.Config d) = EmptyString →
  net_SplitHostPort addr = Ok (host, port) →
  strconv_Atoi port = Ok portNum →
  answers s (SocksDialer.proxyURL d) script → fresh_socket script →
  inbox script = [5; 0] ++ [5; 0; 0; 1; 0; 0; 0; 0; 0; 0] ++ rest →
  match ctx_deadline ctx with Some dl => clock s < dl | None => True end →
  let c := length (conns s) in
  ∃ s', SocksDialer.dialSocks5 d ctx addr s = Done (Ok c) s' ∧
    closes (conn_of s' c) = 0%nat ∧ inbox (conn_of s' c) = rest ∧
    dialed s' = dialed s ++ [SocksDialer.proxyURL d] ∧
    ∃ atyp address,
      outbox (conn_of s' c) =
        [[5; 1; 0];
         [5; 1; 0] ++ [atyp] ++ address ++ [(portNum / 256) mod 256; portNum mod 256]] ∧
      match net_ParseIP host with
      | None => atyp = 3 ∧ address = strlen host mod 256 :: bytes_of host
      | Some ip =>
        match To4 ip with
        | Some ip4 => atyp = 1 ∧ address = ip4
        | None => atyp = 4 ∧ address = To16 ip
        end
      end.
Proof.
  intros Hcred Hsplit Hatoi Hans Hfresh Hin Hdl c. subst c.
  assert (Hmethods : nonempty (socks_User (SocksDialer.Config d)) &&
                     nonempty (socks_Pass (SocksDialer.Config d)) = false).
  { unfold nonempty. destruct Hcred as [-> | ->]; [done|].
    by rewrite andb_false_r. }
  pose proof Hfresh as (Hk & Ho & Hr & Hw & Hp & Hout).
  pose proof (usable_with_deadline ctx (clock s) script Hfresh Hdl) as Hus.
  set (s0 := set_dialed (dialed s ++ [SocksDialer.proxyURL d]) s).
  assert (Hck0 : clock s0 = clock s) by done.
  rewrite <- Hck0 in Hus.
  assert (Hin1 : inbox (with_deadline ctx script) =
                 [5; 0] ++ [5; 0; 0; 1; 0; 0; 0; 0; 0; 0] ++ rest).
  { unfold with_deadline. by destruct (ctx_deadline ctx). }
  assert (Hout1 : outbox (with_deadline ctx script) = []).
  { unfold with_deadline. by destruct (ctx_deadline ctx). }
  unfold SocksDialer.dialSocks5, net_DialTimeout.
  step_by (connect_answers s _ script Hans). fold s0.
  step_by (apply_deadline_last ctx (conns s) script s0 Ho Hk).
  rewrite Hmethods.
  step_by (Write_last (conns s) _ s0 ([5; byte (Z.of_nat (length [0]))] ++ [0]) Hus).
  set (cs2 := set_outbox _ _).
  assert (Hus2 : usable (clock s0) cs2) by (by apply usable_set_outbox).
  step_by (io_ReadFull_last (conns s) cs2 s0 2 [5; 0]
             ([5; 0; 0; 1; 0; 0; 0; 0; 0; 0] ++ rest) Hus2 Hin1 eq_refl).
  change (at_ [5; 0] 0) with 5. change (at_ [5; 0] 1) with 0.
  rewrite bool_decide_true by done. rewrite bool_decide_false by done.
  cbn [negb]. cbv beta iota. unfold bind at 1. unfold ret at 1. cbv beta iota.
  rewrite Hsplit, Hatoi.
  set (cs3 := set_inbox _ cs2).
  assert (Hus3 : usable (clock s0) cs3) by (by apply usable_set_inbox).
  step_by (Write_last (conns s) cs3 s0 (SocksDialer.socks5_request host portNum) Hus3).
  set (cs4 := set_outbox _ cs3).
  assert (Hus4 : usable (clock s0) cs4) by (by apply usable_set_outbox).
  step_by (io_ReadFull_last (conns s) cs4 s0 4 [5; 0; 0; 1]
             ([0; 0; 0; 0; 0; 0] ++ rest) Hus4 eq_refl eq_refl).
  change (at_ [5; 0; 0; 1] 1) with 0. change (at_ [5; 0; 0; 1] 3) with 1.
  rewrite bool_decide_true by done. cbn [negb]. cbv beta iota.
  unfold bind at 1.
  unfold SocksDialer.skip_bound. rewrite bool_decide_true by done.
  set (cs5 := set_inbox _ cs4).
  assert (Hus5 : usable (clock s0) cs5) by (by apply usable_set_inbox).
  rewrite (io_CopyN_Discard_last (conns s) cs5 s0 (4 + 2) [0; 0; 0; 0; 0; 0] rest
             Hus5 eq_refl eq_refl). cbv beta iota. unfold ret.
  eexists. split; [reflexivity|].
  rewrite conn_of_last. repeat split.
  - simpl. unfold with_deadline. by destruct (ctx_deadline ctx).
  - simpl. rewrite Hout1. simpl.
    unfold SocksDialer.socks5_request. rewrite PutUint16_uint16. unfold byte.
    destruct (net_ParseIP host) as [ip|].
    + destruct (To4 ip) as [ip4|].
      * exists 1, ip4. split; [|done]. by rewrite <- !app_assoc.
      * exists 4, (To16 ip). split; [|done]. by rewrite <- !app_assoc.
    + exists 3, (strlen host mod 256 :: bytes_of host). split; [|done].
      by rewrite <- !app_assoc.
Qed.

Lemma conn_Close_last l cs s0 :
  kind cs = KSocket →
  conn_Close (Some (length l)) (set_conns (l ++ [cs]) s0) =
  Done tt (set_conns (l ++ [set_closes (S (closes cs)) cs]) s0).
Proof.
  intros Hk. unfold conn_Close, bind, get_conn, gets, upd_conn, modify.
  rewrite conn_of_last, Hk. cbv beta.
  change (conns (set_conns (l ++ [cs]) s0)) with (l ++ [cs]).
  by rewrite alter_last.
Qed.

Lemma kind_with_deadline ctx cs : kind (with_deadline ctx cs) = kind cs.
Proof. unfold with_deadline. by destruct (ctx_deadline ctx). Qed.

(** ** CONNECT through an HTTP or HTTPS proxy *)

Lemma Read_last l cs s0 n :
  usable (clock s0) cs → kind cs = KSocket → inbox cs ≠ [] →
  Read (length l) n (set_conns (l ++ [cs]) s0) =
  Done (Ok (Z.of_nat (length (take n (inbox cs))), take n (inbox cs)))
       (set_conns (l ++ [set_inbox (drop n (inbox cs)) cs]) s0).
Proof.
  intros (Ho & Hp & Hr & Hw) Hk Hne.
  unfold Read, bind, get_conn, time_Now, gets, upd_conn, modify, ret, is_closed.
  rewrite conn_of_last.
  change (clock (set_conns (l ++ [cs]) s0)) with (clock s0).
  rewrite Ho, Hr, Hk. rewrite bool_decide_false by lia.
  destruct (inbox cs) as [|b0 r0] eqn:Ein; [done|]. cbv beta.
  change (conns (set_conns (l ++ [cs]) s0)) with (l ++ [cs]).
  by rewrite alter_last.
Qed.

(** A read that finds nothing on a socket without a read deadline. *)
Lemma Read_dry_last l cs s0 n :
  usable (clock s0) cs → inbox cs = [] → rdeadline cs = None →
  Read (length l) n (set_conns (l ++ [cs]) s0) =
  match peer cs with
  | PeerSilent => Hang
  | _ => Done (Err io_EOF) (set_conns (l ++ [cs]) s0)
  end.
Proof.
  intros (Ho & Hp & Hr & Hw) Hin Hd.
  unfold Read, bind, get_conn, time_Now, gets, is_closed, starved, hang, ret.
  rewrite conn_of_last. change (clock (set_conns (l ++ [cs]) s0)) with (clock s0).
  rewrite Ho, Hr, Hin, Hd. rewrite bool_decide_false by lia.
  by destruct (peer cs).
Qed.

Lemma in_time_no_err ctx now : in_time ctx now → ctx_Err ctx now = None.
Proof.
  intros [Hc Hd]. unfold ctx_Err, expired. rewrite Hc.
  destruct (ctx_deadline ctx); [|done]. by rewrite bool_decide_false by lia.
Qed.

Lemma usable_fresh now cs : fresh_socket cs → usable now cs.
Proof. intros (?&?&Hr&Hw&?&?). unfold usable. rewrite Hr, Hw. done. Qed.

Lemma conn_of_set_mc m s c : conn_of (set_mc m s) c = conn_of s c.
Proof. done. Qed.

Lemma set_inbox_same cs : set_inbox (inbox cs) cs = cs.
Proof. by destruct cs. Qed.

Section ReaderFacts.
Context `{L : GoLib}.

(** The reader of the head takes what [pulls] says it takes. *)
Lemma ReadResponse_loop_pulls l s0 got rest head rest0 :
  pulls wants_head got rest head rest0 →
  ∀ cs fuel, usable (clock s0) cs → kind cs = KSocket → inbox cs = rest →
    (length rest < fuel)%nat →
    ReadResponse_loop fuel (length l) got (set_conns (l ++ [cs]) s0) =
    ReadResponse_loop 0 (length l) head (set_conns (l ++ [set_inbox rest0 cs]) s0).
Proof.
  induction 1 as [got rest Hstop|got rest room head rest0 Hmore Hroom Hne Hpull IH];
    intros cs fuel Hus Hk Hin Hfuel; (destruct fuel as [|fuel]; [lia|]).
  - unfold wants_head in Hstop. subst rest. rewrite set_inbox_same. simpl.
    by destruct (http_ReadResponse got).
  - unfold wants_head in Hmore. simpl.
    destruct (http_ReadResponse got) as [| |room'] eqn:Eg; try done.
    inversion Hmore; subst room'. subst rest.
    step_by (Read_last l cs s0 room Hus Hk Hne).
    apply (IH (set_inbox (drop room (inbox cs)) cs)).
    + by apply usable_set_inbox.
    + done.
    + done.
    + rewrite length_drop. destruct (inbox cs); [done|]. simpl in *. lia.
Qed.

(** [Body.Close] reads what [pulls] says it reads. *)
Lemma Body_Close_loop_pulls l s0 got rest got' rest' :
  pulls http_Body_Close got rest got' rest' →
  ∀ cs fuel, usable (clock s0) cs → kind cs = KSocket → inbox cs = rest →
    (length rest < fuel)%nat →
    Body_Close_loop fuel (length l) got (set_conns (l ++ [cs]) s0) =
    Done tt (set_conns (l ++ [set_inbox rest' cs]) s0).
Proof.
  induction 1 as [got rest Hstop|got rest room got' rest' Hmore Hroom Hne Hpull IH];
    intros cs fuel Hus Hk Hin Hfuel; (destruct fuel as [|fuel]; [lia|]).
  - subst rest. rewrite set_inbox_same. simpl. by rewrite Hstop.
  - simpl. rewrite Hmore. subst rest.
    step_by (Read_last l cs s0 room Hus Hk Hne).
    apply (IH (set_inbox (drop room (inbox cs)) cs)).
    + by apply usable_set_inbox.
    + done.
    + done.
    + rewrite length_drop. destruct (inbox cs); [done|]. simpl in *. lia.
Qed.

(** [Body.Close] on a body that has not arrived in full: it blocks while the
    peer is silent, and returns when the peer has hung up. *)
Lemma Body_Close_loop_stalls l s0 got rest got' :
  stalls http_Body_Close got rest got' →
  ∀ cs fuel, usable (clock s0) cs → kind cs = KSocket → inbox cs = rest →
    rdeadline cs = None → (length rest < fuel)%nat →
    Body_Close_loop fuel (length l) got (set_conns (l ++ [cs]) s0) =
    match peer cs with
    | PeerSilent => Hang
    | _ => Done tt (set_conns (l ++ [set_inbox [] cs]) s0)
    end.
Proof.
  induction 1 as [got room Hmore|got rest room got' Hmore Hroom Hne Hstall IH];
    intros cs fuel Hus Hk Hin Hd Hfuel; (destruct fuel as [|fuel]; [lia|]).
  - simpl. rewrite Hmore. unfold bind.
    rewrite (Read_dry_last l cs s0 room Hus Hin Hd).
    rewrite <- Hin, set_inbox_same. by destruct (peer cs).
  - simpl. rewrite Hmore. subst rest.
    step_by (Read_last l cs s0 room Hus Hk Hne).
    apply (IH (set_inbox (drop room (inbox cs)) cs)).
    + by apply usable_set_inbox.
    + done.
    + done.
    + done.
    + rewrite length_drop. destruct (inbox cs); [done|]. simpl in *. lia.
Qed.

(** [http.ReadResponse] on a connection that holds the head of a response. *)
Lemma http_ReadResponse_from_last l cs s0 code status head rest0 :
  usable (clock s0) cs → kind cs = KSocket →
  head_arrived (inbox cs) code status head rest0 →
  http_ReadResponse_from (length l) (set_conns (l ++ [cs]) s0) =
  Done (Ok (code, status), head) (set_conns (l ++ [set_inbox rest0 cs]) s0).
Proof.
  intros Hus Hk (Hne & Hpull & Hparse). unfold http_ReadResponse_from.
  step_by (Read_last l cs s0 4096 Hus Hk Hne).
  unfold bind at 1, get_conn, gets at 1. rewrite conn_of_last.
  rewrite (ReadResponse_loop_pulls l s0 _ _ _ _ Hpull
             (set_inbox (drop 4096 (inbox cs)) cs));
    [|by apply usable_set_inbox|done|done|simpl; lia].
  simpl. by rewrite Hparse.
Qed.

Lemma sendConnectRequest_arrived (d : HTTPProxyDialer.t) addr l cs s0 code status rest :
  usable (clock s0) cs → kind cs = KSocket →
  response_arrived (inbox cs) code status rest →
  ∃ cs', HTTPProxyDialer.sendConnectRequest d (length l) addr (set_conns (l ++ [cs]) s0) =
           Done (connect_verdict code status) (set_conns (l ++ [cs']) s0) ∧
         closes cs' = closes cs ∧ kind cs' = kind cs ∧ inbox cs' = rest.
Proof.
  intros Hus Hk (head & rest0 & got & Hhead & Hbody).
  unfold HTTPProxyDialer.sendConnectRequest.
  step_by (Write_last l cs s0 (http_Request_Write addr (HTTPProxyDialer.basic_auth d)) Hus).
  set (cs1 := set_outbox _ cs).
  assert (Hus1 : usable (clock s0) cs1) by (by apply usable_set_outbox).
  step_by (http_ReadResponse_from_last l cs1 s0 code status head rest0 Hus1 Hk Hhead).
  unfold bind at 1, Body_Close, bind at 1, get_conn, gets at 1. rewrite conn_of_last.
  rewrite (Body_Close_loop_pulls l s0 _ _ _ _ Hbody (set_inbox rest0 cs1));
    [|by apply usable_set_inbox|done|done|simpl; lia].
  unfold ret. exists (set_inbox rest cs1). split; [|by repeat split].
  unfold connect_verdict. repeat case_bool_decide; try lia; reflexivity.
Qed.

Lemma sendConnectRequest_missing (d : HTTPProxyDialer.t) addr l cs s0 code status :
  usable (clock s0) cs → kind cs = KSocket → rdeadline cs = None →
  body_missing (inbox cs) code status →
  match peer cs with
  | PeerSilent =>
      HTTPProxyDialer.sendConnectRequest d (length l) addr (set_conns (l ++ [cs]) s0) = Hang
  | _ =>
      ∃ cs', HTTPProxyDialer.sendConnectRequest d (length l) addr (set_conns (l ++ [cs]) s0) =
               Done (connect_verdict code status) (set_conns (l ++ [cs']) s0) ∧
             closes cs' = closes cs ∧ kind cs' = kind cs
  end.
Proof.
  intros Hus Hk Hd (head & rest0 & got & Hhead & Hbody).
  assert (Hrun : HTTPProxyDialer.sendConnectRequest d (length l) addr (set_conns (l ++ [cs]) s0) =
    match peer cs with
    | PeerSilent => Hang
    | _ => Done (connect_verdict code status)
             (set_conns (l ++ [set_inbox [] (set_outbox (outbox cs ++
                [http_Request_Write addr (HTTPProxyDialer.basic_auth d)]) cs)]) s0)
    end).
  { unfold HTTPProxyDialer.sendConnectRequest.
    step_by (Write_last l cs s0 (http_Request_Write addr (HTTPProxyDialer.basic_auth d)) Hus).
    set (cs1 := set_outbox _ cs).
    assert (Hus1 : usable (clock s0) cs1) by (by apply usable_set_outbox).
    step_by (http_ReadResponse_from_last l cs1 s0 code status head rest0 Hus1 Hk Hhead).
    unfold bind at 1, Body_Close, bind at 1, get_conn, gets at 1. rewrite conn_of_last.
    rewrite (Body_Close_loop_stalls l s0 _ _ _ Hbody (set_inbox rest0 cs1));
      [|by apply usable_set_inbox|done|done|done|simpl; lia].
    change (peer (set_inbox rest0 cs1)) with (peer cs).
    destruct (peer cs); try done; unfold ret;
      f_equal; unfold connect_verdict; repeat case_bool_decide; try lia; reflexivity. }
  rewrite Hrun. destruct (peer cs); try done; eexists; by repeat split.
Qed.

(** The start of [dialHTTP] and of [dialHTTPS]: the connect, and for HTTPS
    the handshake, leave the answering socket as the last connection. *)
Lemma dial_to_request (d : HTTPProxyDialer.t) ctx addr s script :
  HTTPProxyDialer.proxyType d = HTTP ∨
  (HTTPProxyDialer.proxyType d = HTTPS ∧ HTTPProxyDialer.tlsConfig d = true ∧
   tls_ok script = true) →
  in_time ctx (clock s) →
  answers s (HTTPProxyDialer.proxyURL_Host d) script → fresh_socket script →
  let s0 := set_dialed (dialed s ++ [HTTPProxyDialer.proxyURL_Host d]) s in
  let send := HTTPProxyDialer.sendConnectRequest d (length (conns s)) addr
                (set_conns (conns s ++ [script]) s0) in
  (match HTTPProxyDialer.proxyType d with
   | HTTP => let* r := HTTPProxyDialer.dialHTTP d ctx addr in ret (Some r)
   | HTTPS => let* r := HTTPProxyDialer.dialHTTPS d ctx addr in ret (Some r)
   | HTTP2 => let* r := HTTPProxyDialer.dialHTTP2 d ctx addr in ret (Some r)
   | _ => ret None
   end) s =
  match send with
  | Done (Some err) s1 =>
      match HTTPProxyDialer.proxyType d with
      | HTTP => (conn_Close (Some (length (conns s))) ;;; ret (Some (Err err))) s1
      | _ => Done (Some (Err err)) s1
      end
  | Done None s1 => Done (Some (Ok (length (conns s)))) s1
  | Panic w => Panic w
  | Hang => Hang
  end.
Proof.
  intros Hty Hctx Hans Hfresh s0 send. subst send.
  pose proof Hfresh as (Hkind & Hopen & _).
  destruct Hty as [->|(-> & Htls & Hok)].
  - unfold HTTPProxyDialer.dialHTTP.
    unfold bind at 1 2, net_Dialer_DialContext, bind at 1, time_Now, gets at 1.
    rewrite (in_time_no_err _ _ Hctx).
    rewrite (connect_answers s _ script Hans). cbv beta iota. fold s0.
    unfold bind at 1.
    destruct (HTTPProxyDialer.sendConnectRequest d (length (conns s)) addr _)
      as [[e|] s1| |]; try done.
    unfold bind. by destruct (conn_Close _ _).
  - unfold HTTPProxyDialer.dialHTTPS. rewrite Htls. cbn [negb]. cbv iota.
    unfold bind at 1 2, net_Dialer_DialContext, bind at 1, time_Now, gets at 1.
    rewrite (in_time_no_err _ _ Hctx).
    rewrite (connect_answers s _ script Hans). cbv beta iota. fold s0.
    unfold bind at 1, tls_Handshake, bind at 1, time_Now, gets at 1.
    unfold bind at 1, get_conn, gets at 1. rewrite conn_of_last.
    change (clock (set_conns (conns s ++ [script]) s0)) with (clock s).
    rewrite (in_time_no_err _ _ Hctx). unfold is_closed.
    rewrite Hopen, Hok. rewrite bool_decide_false by lia. unfold ret at 1. cbv beta iota.
    unfold bind at 1.
    by destruct (HTTPProxyDialer.sendConnectRequest d (length (conns s)) addr _)
      as [[e|] s1| |].
Qed.

(** The calls of the collector around the dial neither block nor change
    anything but the collector. *)
Lemma http_DialContext_frame (d : HTTPProxyDialer.t) ctx network addr s :
  HTTPProxyDialer.is_tcp network = true → in_time ctx (clock s) →
  ∃ s1, clock s1 = clock s ∧ conns s1 = conns s ∧ listen s1 = listen s ∧
        dialed s1 = dialed s ∧
    HTTPProxyDialer.DialContext d ctx network addr s =
    match (match HTTPProxyDialer.proxyType d with
           | HTTP => let* r := HTTPProxyDialer.dialHTTP d ctx addr in ret (Some r)
           | HTTPS => let* r := HTTPProxyDialer.dialHTTPS d ctx addr in ret (Some r)
           | HTTP2 => let* r := HTTPProxyDialer.dialHTTP2 d ctx addr in ret (Some r)
           | _ => ret None
           end) s1 with
    | Done None s2 =>
        Done (Err (WrapError ErrUnsupportedProxy
                     (ProxyType_string (HTTPProxyDialer.proxyType d)))) s2
    | Done (Some r) s2 =>
        Done r (if HTTPProxyDialer.metrics d
                then set_mc (mc (default s2 (final
                       (match r with
                        | Err err =>
                            MetricsCollector.RecordFailure true err s2
                        | Ok _ =>
                            (MetricsCollector.IncrementActiveConnections true ;;;
                             MetricsCollector.RecordConnection true (clock s2 - clock s)) s2
                        end)))) s2
                else s2)
    | Panic w => Panic w
    | Hang => Hang
    end.
Proof.
  intros Htcp Hctx. unfold HTTPProxyDialer.DialContext.
  unfold bind at 1, time_Now, gets at 1.
  assert (Hpre : ∃ s1, when (HTTPProxyDialer.metrics d)
             (MetricsCollector.RecordConnection (HTTPProxyDialer.metrics d) 0) s = Done tt s1 ∧
           clock s1 = clock s ∧ conns s1 = conns s ∧ listen s1 = listen s ∧
           dialed s1 = dialed s).
  { destruct (HTTPProxyDialer.metrics d); eexists; split; try reflexivity; done. }
  destruct Hpre as (s1 & Hrun1 & Hck1 & Hconns1 & Hl1 & Hd1).
  exists s1. repeat (split; [done|]).
  unfold bind at 1. rewrite Hrun1. rewrite Htcp. cbn [negb]. cbv iota.
  unfold bind at 1, time_Now, gets at 1. rewrite Hck1.
  rewrite (in_time_no_err _ _ Hctx).
  unfold bind at 1.
  match goal with
  | |- match ?x with _ => _ end = _ => destruct x as [[[c|e]|] s2| |]
  end; try done;
    destruct (HTTPProxyDialer.metrics d) eqn:Em; done.
Qed.

End ReaderFacts.

(** C7 (HTTPProxyDialer.DialContext, dialHTTP, dialHTTPS,
    sendConnectRequest).  A dial over tcp through an HTTP or HTTPS proxy that
    accepts the connection (and, for HTTPS, completes the TLS handshake) and
    answers the CONNECT with a response, its head of any length and as much
    of its body as [Body.Close] reads: status 407 comes back as
    ErrHTTPProxyAuth, which is not a protocol error; status 200 comes back as
    the open socket and no error, with what the reader left on it; any other
    status comes back as ErrProxyProtocol wrapped with the status text.  When
    the head has arrived but not all of the body that [Body.Close] reads,
    the dial gives the same answer once the proxy hangs up, and does not
    return as long as the proxy stays silent: the socket has no read
    deadline. *)
Theorem http_connect_status `{L : GoLib} (d : HTTPProxyDialer.t) ctx network addr
    s script code status :
  HTTPProxyDialer.proxyType d = HTTP ∨
  (HTTPProxyDialer.proxyType d = HTTPS ∧ HTTPProxyDialer.tlsConfig d = true ∧
   tls_ok script = true) →
  HTTPProxyDialer.is_tcp network = true →
  in_time ctx (clock s) →
  answers s (HTTPProxyDialer.proxyURL_Host d) script → fresh_socket script →
  let c := length (conns s) in
  (∀ rest, response_arrived (inbox script) code status rest →
     ∃ r s', HTTPProxyDialer.DialContext d ctx network addr s = Done r s' ∧
       (code = 407 → r = Err ErrHTTPProxyAuth) ∧
       (code = 200 → r = Ok c ∧ closes (conn_of s' c) = 0%nat ∧
                     inbox (conn_of s' c) = rest) ∧
       (code ≠ 407 → code ≠ 200 → r = Err (WrapError ErrProxyProtocol status))) ∧
  (body_missing (inbox script) code status →
     match peer script with
     | PeerSilent => HTTPProxyDialer.DialContext d ctx network addr s = Hang
     | _ => ∃ s', HTTPProxyDialer.DialContext d ctx network addr s =
                    Done (connect_result code status c) s'
     end) ∧
  errors_Is ErrHTTPProxyAuth ErrProxyProtocol = false ∧
  errors_Is (WrapError ErrProxyProtocol status) ErrProxyProtocol = true ∧
  errors_Is (WrapError ErrProxyProtocol status) ErrHTTPProxyAuth = false.
Proof.
  intros Hty Htcp Hctx Hans Hfresh c. subst c.
  destruct (http_DialContext_frame d ctx network addr s Htcp Hctx)
    as (s1 & Hck1 & Hconns1 & Hl1 & Hd1 & Hframe).
  assert (Hans1 : answers s1 (HTTPProxyDialer.proxyURL_Host d) script).
  { destruct Hans as [i Hi]. exists i. by rewrite Hl1. }
  assert (Hctx1 : in_time ctx (clock s1)) by (by rewrite Hck1).
  pose proof (dial_to_request d ctx addr s1 script Hty Hctx1 Hans1 Hfresh) as Hdial.
  cbv zeta in Hdial. rewrite Hconns1 in Hdial.
  pose proof Hfresh as (Hkind & Hopen & Hrd & _).
  set (s0 := set_dialed _ s1) in Hdial.
  assert (Hus : usable (clock s0) script) by (by apply usable_fresh).
  split; [|split; [|by repeat split]].
  - intros rest Harr.
    destruct (sendConnectRequest_arrived d addr (conns s) script s0 code status rest
                Hus Hkind Harr) as (cs' & Hsend & Hcl & Hk & Hin).
    rewrite Hsend in Hdial. rewrite Hframe, Hdial. clear Hframe Hdial Hsend.
    unfold connect_verdict.
    destruct (bool_decide (code = 407)) eqn:E407.
    + apply bool_decide_eq_true in E407.
      assert (Hrun : ∃ s2, match HTTPProxyDialer.proxyType d with
               | HTTP => (conn_Close (Some (length (conns s))) ;;; ret (Some (Err ErrHTTPProxyAuth)))
                           (set_conns (conns s ++ [cs']) s0)
               | _ => Done (Some (Err ErrHTTPProxyAuth)) (set_conns (conns s ++ [cs']) s0)
               end = Done (Some (@Err nat ErrHTTPProxyAuth)) s2).
      { destruct (HTTPProxyDialer.proxyType d); try (eexists; reflexivity).
        unfold bind. rewrite conn_Close_last by congruence. eexists. reflexivity. }
      destruct Hrun as (s2 & ->).
      eexists _, _. split; [reflexivity|]. repeat split; intros; try done; lia.
    + apply bool_decide_eq_false in E407.
      destruct (bool_decide (code = 200)) eqn:E200.
      * apply bool_decide_eq_true in E200.
        eexists _, _. split; [reflexivity|].
        split; [intros; lia|]. split; [|intros; lia].
        intros _. split; [done|].
        destruct (HTTPProxyDialer.metrics d); rewrite ?conn_of_set_mc, conn_of_last;
          split; congruence.
      * apply bool_decide_eq_false in E200.
        assert (Hrun : ∃ s2, match HTTPProxyDialer.proxyType d with
               | HTTP => (conn_Close (Some (length (conns s))) ;;;
                          ret (Some (Err (WrapError ErrProxyProtocol status))))
                           (set_conns (conns s ++ [cs']) s0)
               | _ => Done (Some (Err (WrapError ErrProxyProtocol status)))
                        (set_conns (conns s ++ [cs']) s0)
               end = Done (Some (@Err nat (WrapError ErrProxyProtocol status))) s2).
        { destruct (HTTPProxyDialer.proxyType d); try (eexists; reflexivity).
          unfold bind. rewrite conn_Close_last by congruence. eexists. reflexivity. }
        destruct Hrun as (s2 & ->).
        eexists _, _. split; [reflexivity|]. repeat split; intros; try done; lia.
  - intros Hmiss.
    pose proof (sendConnectRequest_missing d addr (conns s) script s0 code status
                  Hus Hkind Hrd Hmiss) as Hsend.
    destruct Hfresh as (_ & _ & _ & _ & Hreset & _).
    destruct (peer script).
    + rewrite Hframe, Hdial, Hsend. done.
    + destruct Hsend as (cs' & Hsend & Hcl & Hk).
      rewrite Hsend in Hdial. rewrite Hframe, Hdial. clear Hframe Hdial Hsend.
      unfold connect_result. destruct (connect_verdict code status) as [e|].
      * assert (Hrun : ∃ s2, match HTTPProxyDialer.proxyType d with
               | HTTP => (conn_Close (Some (length (conns s))) ;;; ret (Some (Err e)))
                           (set_conns (conns s ++ [cs']) s0)
               | _ => Done (Some (Err e)) (set_conns (conns s ++ [cs']) s0)
               end = Done (Some (@Err nat e)) s2).
        { destruct (HTTPProxyDialer.proxyType d); try (eexists; reflexivity).
          unfold bind. rewrite conn_Close_last by congruence. eexists. reflexivity. }
        destruct Hrun as (s2 & ->). eexists. reflexivity.
      * eexists. reflexivity.
    + done.
Qed.

(** ** Cancellation *)

(** The HTTP dialer looks at the context before it dials: when the context is
    done it returns the cancellation error (the deadline error when the
    deadline has passed) and no connect is attempted. *)
Lemma http_dial_honours_done_context `{L : GoLib} (d : HTTPProxyDialer.t) ctx network addr s e :
  HTTPProxyDialer.is_tcp network = true → ctx_Err ctx (clock s) = Some e →
  ∃ s', HTTPProxyDialer.DialContext d ctx network addr s =
          Done (Err (if bool_decide (e = context_DeadlineExceeded)
                     then ErrContextDeadlineExceeded else ErrContextCanceled)) s' ∧
        dialed s' = dialed s ∧ conns s' = conns s.
Proof.
  intros Htcp Hctx. unfold HTTPProxyDialer.DialContext.
  unfold bind at 1, time_Now, gets at 1.
  destruct (HTTPProxyDialer.metrics d); unfold when, bind, time_Now, gets,
    MetricsCollector.RecordConnection, MetricsCollector.on_collector, modify, ret;
    rewrite Htcp; simpl; rewrite Hctx; case_bool_decide; eauto.
Qed.

(** The SOCKS dialer never asks whether the context is done: all it takes
    from the context is its deadline. *)
Lemma socks_dial_reads_deadline_only `{L : GoLib} (d : SocksDialer.t) ctx network addr :
  SocksDialer.DialContext d ctx network addr =
  SocksDialer.DialContext d (MkContext false (ctx_deadline ctx)) network addr.
Proof. reflexivity. Qed.

(** C6, at inputs where the code departs from it (SocksDialer.DialContext;
    dialSocks4 and dialSocks5 call net.DialTimeout without the context).
    With a context that is already canceled the SOCKS5 dialer connects to the
    proxy, negotiates and returns the open socket with no error.  With a
    context whose deadline has already passed the SOCKS5 and SOCKS4 dialers
    still connect to the proxy, and what comes back is the i/o timeout of the
    first write, not the deadline-exceeded error of the context. *)
Theorem socks_dial_ignores_done_context :
  ctx_Err canceled 0 = Some context_Canceled ∧
  (∃ s', SocksDialer.DialContext (L := GoStd_lib) socks5_dialer canceled "tcp" "example.com:80"
           socks5_world = Done (Ok 0%nat) s' ∧
         dialed s' = ["127.0.0.1:1080"] ∧ closes (conn_of s' 0) = 0%nat) ∧
  ctx_Err overdue (clock (set_clock 5 socks5_world)) = Some context_DeadlineExceeded ∧
  (∃ s', SocksDialer.DialContext (L := GoStd_lib) socks5_dialer overdue "tcp" "example.com:80"
           (set_clock 5 socks5_world) = Done (Err os_ErrDeadlineExceeded) s' ∧
         dialed s' = ["127.0.0.1:1080"]) ∧
  (∃ s', SocksDialer.DialContext (L := GoStd_lib) socks4_dialer overdue "tcp" "93.184.216.34:80"
           (set_clock 5 (socks4_world 90)) = Done (Err os_ErrDeadlineExceeded) s' ∧
         dialed s' = ["127.0.0.1:1080"]).
Proof.
  split; [reflexivity|]. split; [eexists; vm_compute; by repeat split|].
  split; [reflexivity|]. split; eexists; vm_compute; by repeat split.
Qed.

(** ** The pool's limit and its counter *)

(** The snapshot's total is the sum of its two counts, as int64. *)
Lemma Stats_total s :
  ∃ st, ConnPool.Stats_ s = Done st s ∧
    ConnPool.TotalCount st = int64 (ConnPool.ActiveCount st + ConnPool.IdleCount st) ∧
    ConnPool.ActiveCount st = active (pool s).
Proof.
  unfold ConnPool.Stats_, bind, ConnPool.p_field, gets, ret.
  eexists. split; [reflexivity|]. done.
Qed.

(** C2, at inputs where the code departs from it (ProxyManager.DialContext,
    ConnPool.Get).  The pool is built for at most one connection in total.
    Two dials in a row both succeed and leave two open connections with the
    caller; [Get] compared only the pool's counter, which a fresh dial never
    raises, with the limit.  And once the counter has reached the limit and
    [Get] does answer with its limit error, DialContext drops that error and
    dials: the caller gets a third connection, and no error. *)
Theorem pool_limit_not_enforced :
  returned (two_dials one_conn_world) =
    Some (Ok (MkPoolConn (Some 0%nat) "tcp" "example.com:80" false),
          Ok (MkPoolConn (Some 1%nat) "tcp" "example.com:80" false),
          ConnPool.MkStats 0 0 0 (300 * Second) 5 1) ∧
  ((λ s, closes <$> conns s) <$> final (two_dials one_conn_world)) = Some [0; 0]%nat ∧
  returned (dial_at_limit one_conn_world) =
    Some ((None, Some (errors_New "connection pool: max active connections reached")),
          Ok (MkPoolConn (Some 2%nat) "tcp" "example.com:80" false),
          ConnPool.MkStats 2 0 2 (300 * Second) 5 1) ∧
  ((λ s, closes <$> conns s) <$> final (dial_at_limit one_conn_world)) = Some [0; 0; 0]%nat.
Proof. repeat split; vm_compute; reflexivity. Qed.

(** C8, at inputs where the code departs from it (ConnPool.Get, Put,
    CleanUp, Stats).  The snapshot's total is always the sum of its active and
    idle counts ([Stats_total]), but the active count is not the number of
    connections handed out and not yet returned.  With a single connection:
    put back, taken, put back and taken again, the snapshot says two active,
    where one connection is out; [Get] adds two per hand-out.  With two idle
    connections swept by CleanUp after their expiry and nothing handed out,
    the snapshot says minus four active; [Put] and [CleanUp] each take one
    off for an idle entry. *)
Theorem active_count_miscounts :
  returned (put_get_twice one_socket_world) =
    Some ((Some 0%nat, None), (Some 0%nat, None),
          ConnPool.MkStats 2 0 2 (300 * Second) 5 10) ∧
  returned (put_expire_cleanup two_socket_world) =
    Some (ConnPool.MkStats (-4) 0 (-4) (300 * Second) 5 10).
Proof. split; vm_compute; reflexivity. Qed.

(** ** Metrics never steer *)

Lemma sink_inv s1 s2 :
  same_but_sink s1 s2 →
  ∃ ck cn dl li ub idl ac mi ma it m1 m2,
    s1 = State ck cn dl li ub (MkConnPool idl ac mi ma it false) m1 ∧
    s2 = State ck cn dl li ub (MkConnPool idl ac mi ma it true) m2.
Proof.
  destruct s1 as [ck cn dl li ub [idl ac mi ma it me] m1].
  destruct s2 as [ck2 cn2 dl2 li2 ub2 [idl2 ac2 mi2 ma2 it2 me2] m2].
  unfold same_but_sink. simpl. intros (?&?&?&?&?&?&?&?&?&?&?&?). subst.
  by exists ck2, cn2, dl2, li2, ub2, idl2, ac2, mi2, ma2, it2, m1, m2.
Qed.

Lemma sink_intro ck cn dl li ub idl ac mi ma it m1 m2 :
  same_but_sink (State ck cn dl li ub (MkConnPool idl ac mi ma it false) m1)
                (State ck cn dl li ub (MkConnPool idl ac mi ma it true) m2).
Proof. by repeat split. Qed.

Ltac sink_cases H :=
  apply sink_inv in H as (ck&cn&dl&li&ub&idl&ac&mi&ma&it&m1&m2&->&->).

Lemma sim2_ret {A} (a : A) : sim2 (ret a) (ret a).
Proof. intros s1 s2 H. by split. Qed.

Lemma sim2_bind {A B} (c1 c2 : M A) (k1 k2 : A → M B) :
  sim2 c1 c2 → (∀ a, sim2 (k1 a) (k2 a)) → sim2 (bind c1 k1) (bind c2 k2).
Proof.
  intros Hc Hk s1 s2 H. specialize (Hc s1 s2 H). unfold bind.
  destruct (c1 s1) as [a1 s1'|w1|], (c2 s2) as [a2 s2'|w2|]; try done.
  destruct Hc as [-> Hs]. by apply Hk.
Qed.

Lemma sim2_gets {A} (f : state → A) :
  (∀ ck cn dl li ub idl ac mi ma it m1 m2,
     f (State ck cn dl li ub (MkConnPool idl ac mi ma it false) m1) =
     f (State ck cn dl li ub (MkConnPool idl ac mi ma it true) m2)) →
  sim2 (gets f) (gets f).
Proof.
  intros Hf s1 s2 H. pose proof H as H'. sink_cases H'. split; [apply Hf|done].
Qed.

Lemma sim2_modify (f : state → state) :
  (∀ ck cn dl li ub idl ac mi ma it m1 m2,
     same_but_sink (f (State ck cn dl li ub (MkConnPool idl ac mi ma it false) m1))
                   (f (State ck cn dl li ub (MkConnPool idl ac mi ma it true) m2))) →
  sim2 (modify f) (modify f).
Proof. intros Hf s1 s2 H. sink_cases H. split; [done|apply Hf]. Qed.

Lemma sim2_panic {A} w : w ≠ NilSink → sim2 (@panic A w) (panic w).
Proof. intros Hw s1 s2 H. by split. Qed.

Lemma sim2_hang {A} : sim2 (@hang A) hang.
Proof. by intros s1 s2 H. Qed.

Lemma quiet_collector g : quiet (MetricsCollector.on_collector true g).
Proof. intros s1 s2 H. sink_cases H. split; [done|]. apply sink_intro. Qed.

Lemma quiet_seq c1 c2 : quiet c1 → quiet c2 → quiet (c1 ;;; c2).
Proof.
  intros H1 H2 s1 s2 H. specialize (H1 s1 s2 H). unfold bind.
  unfold ret in H1 at 1. destruct (c1 s2) as [[] s2'| |]; try done.
  destruct H1 as [_ H1]. apply (H2 s1 s2' H1).
Qed.

(** [if d.metrics != nil { ... }] with the nil and with a real sink. *)
Lemma sim2_when_flag c1 c2 : quiet c2 → sim2 (when false c1) (when true c2).
Proof. intros Hq. exact Hq. Qed.

(** [if p.metrics != nil { p.metrics.Method(...) }] on the pool. *)
Lemma sim2_sink g :
  sim2 (let* m := ConnPool.p_metrics in when m (MetricsCollector.on_collector m g))
       (let* m := ConnPool.p_metrics in when m (MetricsCollector.on_collector m g)).
Proof. intros s1 s2 H. sink_cases H. split; [done|]. apply sink_intro. Qed.

Ltac sim_leaf :=
  first
  [ apply sim2_ret
  | apply sim2_hang
  | apply sim2_panic; done
  | apply sim2_gets; intros; reflexivity
  | apply sim2_modify; intros; apply sink_intro
  | apply sim2_sink
  | apply sim2_when_flag; repeat (first [apply quiet_collector | apply quiet_seq]) ].

Create HintDb sim discriminated.

Ltac sim_go :=
  repeat first
  [ sim_leaf
  | solve [auto 1 with sim nocore]
  | match goal with
    | |- sim2 (bind _ _) (bind _ _) => apply sim2_bind; [|intros ?]
    | |- sim2 (match ?x with _ => _ end) _ => destruct x
    | |- sim2 (when ?b _) (when ?b _) => destruct b; unfold when at 1 2
    end ].

Lemma sim2_get_conn c : sim2 (get_conn c) (get_conn c).
Proof. unfold get_conn. sim_go. Qed.

Lemma sim2_upd_conn c f : sim2 (upd_conn c f) (upd_conn c f).
Proof. unfold upd_conn. sim_go. Qed.

Lemma sim2_time_Now : sim2 time_Now time_Now.
Proof. unfold time_Now. sim_go. Qed.

#[local] Hint Resolve sim2_get_conn sim2_upd_conn sim2_time_Now : sim.

Lemma sim2_starved {A} c cs e : sim2 (@starved A c cs e) (starved c cs e).
Proof. unfold starved. sim_go. Qed.

#[local] Hint Resolve sim2_starved : sim.

Lemma sim2_SetReadDeadline c t : sim2 (SetReadDeadline c t) (SetReadDeadline c t).
Proof. unfold SetReadDeadline. sim_go. Qed.

Lemma sim2_SetDeadline c t : sim2 (SetDeadline c t) (SetDeadline c t).
Proof. unfold SetDeadline. sim_go. Qed.

Lemma sim2_Read c n : sim2 (Read c n) (Read c n).
Proof. unfold Read. sim_go. Qed.

Lemma sim2_read_exactly e c n : sim2 (read_exactly e c n) (read_exactly e c n).
Proof. unfold read_exactly. sim_go. Qed.

Lemma sim2_Write c b : sim2 (Write c b) (Write c b).
Proof. unfold Write. sim_go. Qed.

Lemma sim2_conn_Close conn : sim2 (conn_Close conn) (conn_Close conn).
Proof. unfold conn_Close. sim_go. Qed.

#[local] Hint Resolve sim2_SetReadDeadline sim2_SetDeadline sim2_Read sim2_read_exactly
  sim2_Write sim2_conn_Close : sim.

Lemma sim2_isConnAlive conn : sim2 (isConnAlive conn) (isConnAlive conn).
Proof. unfold isConnAlive. sim_go. Qed.

#[local] Hint Resolve sim2_isConnAlive : sim.

Ltac unfold_metrics :=
  unfold MetricsCollector.RecordConnection, MetricsCollector.RecordFailure,
    MetricsCollector.IncrementActiveConnections, MetricsCollector.DecrementActiveConnections,
    MetricsCollector.RecordLatency, MetricsCollector.RecordErrorType,
    MetricsCollector.RecordProtocol.

Ltac unfold_pool :=
  unfold ConnPool.p_idle, ConnPool.p_field, ConnPool.store_idle, ConnPool.add_active,
    ConnPool.upd_pool.

Lemma sim2_index key n i : sim2 (ConnPool.index key n i) (ConnPool.index key n i).
Proof. unfold ConnPool.index. unfold_pool. sim_go. Qed.

#[local] Hint Resolve sim2_index : sim.

Lemma sim2_removeConn key i : sim2 (ConnPool.removeConn key i) (ConnPool.removeConn key i).
Proof. unfold ConnPool.removeConn. unfold_pool. sim_go. Qed.

#[local] Hint Resolve sim2_removeConn : sim.

Lemma sim2_Get_loop key n i1 :
  sim2 (ConnPool.Get_loop key n i1) (ConnPool.Get_loop key n i1).
Proof.
  induction i1 as [|i IH]; simpl; unfold_metrics; unfold_pool; sim_go.
Qed.

#[local] Hint Resolve sim2_Get_loop : sim.

Lemma sim2_Get network addr :
  sim2 (ConnPool.Get network addr) (ConnPool.Get network addr).
Proof. unfold ConnPool.Get. unfold_metrics. unfold_pool. sim_go. Qed.

Lemma sim2_Put network addr conn :
  sim2 (ConnPool.Put network addr conn) (ConnPool.Put network addr conn).
Proof. unfold ConnPool.Put. unfold_metrics. unfold_pool. sim_go. Qed.

Lemma sim2_CleanUp_scan now elems : ∀ alive,
  sim2 (ConnPool.CleanUp_scan now elems alive) (ConnPool.CleanUp_scan now elems alive).
Proof.
  induction elems as [|e rest IH]; intros alive; simpl; unfold_pool; sim_go.
Qed.

#[local] Hint Resolve sim2_CleanUp_scan : sim.

Lemma sim2_CleanUp_key now key :
  sim2 (ConnPool.CleanUp_key now key) (ConnPool.CleanUp_key now key).
Proof. unfold ConnPool.CleanUp_key. unfold_pool. sim_go. Qed.

#[local] Hint Resolve sim2_CleanUp_key : sim.

Lemma sim2_CleanUp_keys now keys :
  sim2 (ConnPool.CleanUp_keys now keys) (ConnPool.CleanUp_keys now keys).
Proof. induction keys as [|key rest IH]; simpl; sim_go. Qed.

#[local] Hint Resolve sim2_CleanUp_keys sim2_Get sim2_Put : sim.

Lemma sim2_CleanUp : sim2 ConnPool.CleanUp ConnPool.CleanUp.
Proof. unfold ConnPool.CleanUp. unfold_pool. sim_go. Qed.

Lemma sim2_Stats : sim2 ConnPool.Stats_ ConnPool.Stats_.
Proof. unfold ConnPool.Stats_. unfold_pool. sim_go. Qed.

Lemma sim2_Close w : sim2 (poolConn.Close w) (poolConn.Close w).
Proof. unfold poolConn.Close. sim_go. Qed.

Lemma sim2_new_conn cs : sim2 (new_conn cs) (new_conn cs).
Proof. unfold new_conn. sim_go. Qed.

#[local] Hint Resolve sim2_new_conn : sim.

Lemma sim2_connect a : sim2 (connect a) (connect a).
Proof. unfold connect. sim_go. Qed.

#[local] Hint Resolve sim2_connect : sim.

Lemma sim2_net_DialTimeout a : sim2 (net_DialTimeout a) (net_DialTimeout a).
Proof. unfold net_DialTimeout. sim_go. Qed.

Lemma sim2_net_Dialer_DialContext ctx a :
  sim2 (net_Dialer_DialContext ctx a) (net_Dialer_DialContext ctx a).
Proof. unfold net_Dialer_DialContext. sim_go. Qed.

Lemma sim2_tls_Handshake ctx c : sim2 (tls_Handshake ctx c) (tls_Handshake ctx c).
Proof. unfold tls_Handshake. sim_go. Qed.

Lemma sim2_net_ListenUDP c : sim2 (net_ListenUDP c) (net_ListenUDP c).
Proof. unfold net_ListenUDP. sim_go. Qed.

Lemma sim2_io_ReadFull c n : sim2 (io_ReadFull c n) (io_ReadFull c n).
Proof. unfold io_ReadFull. sim_go. Qed.

Lemma sim2_io_CopyN_Discard c n : sim2 (io_CopyN_Discard c n) (io_CopyN_Discard c n).
Proof. unfold io_CopyN_Discard. sim_go. Qed.

#[local] Hint Resolve sim2_net_DialTimeout sim2_net_Dialer_DialContext sim2_tls_Handshake
  sim2_net_ListenUDP sim2_io_ReadFull sim2_io_CopyN_Discard : sim.

Section Dialers.
Context `{L : GoLib}.

Lemma sim2_ReadResponse_loop fuel c : ∀ got,
  sim2 (ReadResponse_loop fuel c got) (ReadResponse_loop fuel c got).
Proof. induction fuel as [|fuel IH]; intros got; simpl; sim_go. Qed.

Lemma sim2_Body_Close_loop fuel c : ∀ got,
  sim2 (Body_Close_loop fuel c got) (Body_Close_loop fuel c got).
Proof. induction fuel as [|fuel IH]; intros got; simpl; sim_go. Qed.

#[local] Hint Resolve sim2_ReadResponse_loop sim2_Body_Close_loop : sim.

Lemma sim2_http_ReadResponse_from c :
  sim2 (http_ReadResponse_from c) (http_ReadResponse_from c).
Proof. unfold http_ReadResponse_from. sim_go. Qed.

Lemma sim2_Body_Close c got : sim2 (Body_Close c got) (Body_Close c got).
Proof. unfold Body_Close. sim_go. Qed.

#[local] Hint Resolve sim2_http_ReadResponse_from sim2_Body_Close : sim.

Lemma sim2_sendConnectRequest d b1 b2 c addr :
  sim2 (HTTPProxyDialer.sendConnectRequest (http_with_sink b1 d) c addr)
       (HTTPProxyDialer.sendConnectRequest (http_with_sink b2 d) c addr).
Proof. unfold HTTPProxyDialer.sendConnectRequest. sim_go. Qed.

#[local] Hint Resolve sim2_sendConnectRequest : sim.

Lemma sim2_dialHTTP d b1 b2 ctx addr :
  sim2 (HTTPProxyDialer.dialHTTP (http_with_sink b1 d) ctx addr)
       (HTTPProxyDialer.dialHTTP (http_with_sink b2 d) ctx addr).
Proof. unfold HTTPProxyDialer.dialHTTP. simpl. sim_go. Qed.

Lemma sim2_dialHTTPS d b1 b2 ctx addr :
  sim2 (HTTPProxyDialer.dialHTTPS (http_with_sink b1 d) ctx addr)
       (HTTPProxyDialer.dialHTTPS (http_with_sink b2 d) ctx addr).
Proof. unfold HTTPProxyDialer.dialHTTPS. simpl. sim_go. Qed.

Lemma sim2_http2_Do d b1 b2 ctx :
  sim2 (HTTPProxyDialer.http2_Do (http_with_sink b1 d) ctx)
       (HTTPProxyDialer.http2_Do (http_with_sink b2 d) ctx).
Proof. unfold HTTPProxyDialer.http2_Do. simpl. sim_go. Qed.

#[local] Hint Resolve sim2_http2_Do : sim.

Lemma sim2_dialHTTP2 d b1 b2 ctx addr :
  sim2 (HTTPProxyDialer.dialHTTP2 (http_with_sink b1 d) ctx addr)
       (HTTPProxyDialer.dialHTTP2 (http_with_sink b2 d) ctx addr).
Proof. unfold HTTPProxyDialer.dialHTTP2. simpl. sim_go. Qed.

#[local] Hint Resolve sim2_dialHTTP sim2_dialHTTPS sim2_dialHTTP2 : sim.

Lemma sim2_http_DialContext d ctx network addr :
  sim2 (HTTPProxyDialer.DialContext (http_with_sink false d) ctx network addr)
       (HTTPProxyDialer.DialContext (http_with_sink true d) ctx network addr).
Proof.
  unfold HTTPProxyDialer.DialContext. unfold_metrics. simpl. sim_go.
Qed.

Lemma sim2_apply_deadline ctx c :
  sim2 (SocksDialer.apply_deadline ctx c) (SocksDialer.apply_deadline ctx c).
Proof. unfold SocksDialer.apply_deadline. sim_go. Qed.

#[local] Hint Resolve sim2_apply_deadline : sim.

Lemma sim2_dialSocks4 d b1 b2 ctx addr :
  sim2 (SocksDialer.dialSocks4 (socks_with_sink b1 d) ctx addr)
       (SocksDialer.dialSocks4 (socks_with_sink b2 d) ctx addr).
Proof. unfold SocksDialer.dialSocks4. simpl. sim_go. Qed.

Lemma sim2_authenticateSocks5 d b1 b2 c :
  sim2 (SocksDialer.authenticateSocks5 (socks_with_sink b1 d) c)
       (SocksDialer.authenticateSocks5 (socks_with_sink b2 d) c).
Proof. unfold SocksDialer.authenticateSocks5. simpl. sim_go. Qed.

Lemma sim2_skip_bound c atyp :
  sim2 (SocksDialer.skip_bound c atyp) (SocksDialer.skip_bound c atyp).
Proof. unfold SocksDialer.skip_bound. sim_go. Qed.

#[local] Hint Resolve sim2_authenticateSocks5 sim2_skip_bound : sim.

Lemma sim2_dialSocks5 d b1 b2 ctx addr :
  sim2 (SocksDialer.dialSocks5 (socks_with_sink b1 d) ctx addr)
       (SocksDialer.dialSocks5 (socks_with_sink b2 d) ctx addr).
Proof. unfold SocksDialer.dialSocks5. simpl. sim_go. Qed.

Lemma sim2_dialUDPSocks5 d b1 b2 network :
  sim2 (SocksDialer.dialUDPSocks5 (socks_with_sink b1 d) network)
       (SocksDialer.dialUDPSocks5 (socks_with_sink b2 d) network).
Proof. unfold SocksDialer.dialUDPSocks5. simpl. sim_go. Qed.

#[local] Hint Resolve sim2_dialSocks4 sim2_dialSocks5 sim2_dialUDPSocks5 : sim.

Lemma sim2_dialWithTimeout d b1 b2 ctx addr :
  sim2 (SocksDialer.dialWithTimeout (socks_with_sink b1 d) ctx addr)
       (SocksDialer.dialWithTimeout (socks_with_sink b2 d) ctx addr).
Proof. unfold SocksDialer.dialWithTimeout. simpl. sim_go. Qed.

#[local] Hint Resolve sim2_dialWithTimeout : sim.

Lemma sim2_socks_DialContext d ctx network addr :
  sim2 (SocksDialer.DialContext (socks_with_sink false d) ctx network addr)
       (SocksDialer.DialContext (socks_with_sink true d) ctx network addr).
Proof.
  unfold SocksDialer.DialContext, SocksDialer.validateNetwork. unfold_metrics. simpl. sim_go.
Qed.

Lemma sim2_bind_ret {A B} (a1 a2 : A) (k1 k2 : A → M B) :
  sim2 (k1 a1) (k2 a2) → sim2 (bind (ret a1) k1) (bind (ret a2) k2).
Proof. intros H s1 s2 R. exact (H s1 s2 R). Qed.

Lemma sim2_manager_DialContext pm ctx network addr :
  sim2 (ProxyManager.DialContext (manager_with_sink false pm) ctx network addr)
       (ProxyManager.DialContext (manager_with_sink true pm) ctx network addr).
Proof.
  pose proof sim2_http_DialContext. pose proof sim2_socks_DialContext.
  destruct pm as [[[me mi mt it]|] dl m].
  - unfold ProxyManager.DialContext, ProxyManager.metrics_on. unfold_metrics. simpl.
    rewrite andb_false_r, andb_true_r.
    apply sim2_bind; [sim_go|intros start].
    apply sim2_bind_ret.
    apply sim2_bind; [destruct me; sim_go|intros _].
    apply sim2_bind; [sim_go|intros g].
    destruct g as [[c|] [e|]]; try (by sim_go);
      (destruct dl as [[|d|d]|]; simpl; [| | |by sim_go]);
      (apply sim2_bind; [by sim_go|intros r]);
      (destruct r as [conn|err]; [|by sim_go]);
      apply sim2_bind_ret;
      (apply sim2_bind; [by sim_go|intros now]);
      (apply sim2_bind; [destruct me; sim_go|intros _]); sim_go.
  - unfold ProxyManager.DialContext, ProxyManager.metrics_on. simpl. sim_go.
Qed.

End Dialers.

(** C9 (ConnPool.Get, Put, CleanUp, Stats, poolConn.Close, the DialContext of
    HTTPProxyDialer, SocksDialer and ProxyManager).  Run once with nil sink
    pointers and once with a collector behind them, from states that differ
    at most in the collector, every operation of the pool and every dialer
    ends the same way: it returns the same connection/error value and leaves
    the same clock, connections, connect log and pool contents, or it panics
    for the same reason, or it blocks in both runs.  No run panics on a nil
    sink. *)
Theorem metrics_sink_never_steers `{L : GoLib} s1 s2 :
  same_but_sink s1 s2 →
  (∀ network addr,
     same_outcome (ConnPool.Get network addr s1) (ConnPool.Get network addr s2)) ∧
  (∀ network addr conn,
     same_outcome (ConnPool.Put network addr conn s1) (ConnPool.Put network addr conn s2)) ∧
  same_outcome (ConnPool.CleanUp s1) (ConnPool.CleanUp s2) ∧
  same_outcome (ConnPool.Stats_ s1) (ConnPool.Stats_ s2) ∧
  (∀ w, same_outcome (poolConn.Close w s1) (poolConn.Close w s2)) ∧
  (∀ d ctx network addr,
     same_outcome
       (HTTPProxyDialer.DialContext (http_with_sink false d) ctx network addr s1)
       (HTTPProxyDialer.DialContext (http_with_sink true d) ctx network addr s2)) ∧
  (∀ d ctx network addr,
     same_outcome
       (SocksDialer.DialContext (socks_with_sink false d) ctx network addr s1)
       (SocksDialer.DialContext (socks_with_sink true d) ctx network addr s2)) ∧
  (∀ pm ctx network addr,
     same_outcome
       (ProxyManager.DialContext (manager_with_sink false pm) ctx network addr s1)
       (ProxyManager.DialContext (manager_with_sink true pm) ctx network addr s2)).
Proof.
  intros H.
  split; [intros; by apply sim2_Get|].
  split; [intros; by apply sim2_Put|].
  split; [by apply sim2_CleanUp|].
  split; [by apply sim2_Stats|].
  split; [intros; by apply sim2_Close|].
  split; [intros; by apply sim2_http_DialContext|].
  split; [intros; by apply sim2_socks_DialContext|].
  intros; by apply sim2_manager_DialContext.
Qed.

(** ** The theorems at concrete inputs *)

Lemma after_put_reachable : reachable after_put.
Proof.
  apply (reach_step one_socket_world).
  - by apply (reach_new _ 5 10 (300 * Second) false).
  - by apply (step_Put "tcp" "a" (Some 0%nat)).
Qed.

Lemma Get_returns_unexpired_when_tested_witness :
  reachable after_put ∧
  ∃ r s', ConnPool.Get "tcp" "a" after_put = Done r s' ∧
    clock s' ≤ clock after_put + Second ∧
    ∀ c, r.1 = Some c → closes (conn_of s' c) = 0%nat.
Proof.
  split; [exact after_put_reachable|].
  destruct (Get_returns_unexpired_when_tested "tcp" "a" after_put after_put_reachable)
    as (r & s' & Hrun & Hclock & Hpost).
  exists r, s'. split; [exact Hrun|]. split; [exact (proj2 Hclock)|].
  intros c Hc. rewrite Hc in Hpost.
  destruct Hpost as (i & e & _ & _ & _ & _ & Ho & _). exact Ho.
Defined.


Lemma dialSocks5_noauth_frame_witness :
  ∃ s', SocksDialer.dialSocks5 (L := GoStd_lib) socks5_dialer Background "example.com:443"
          socks5_world = Done (Ok 0%nat) s' ∧
        closes (conn_of s' 0) = 0%nat.
Proof.
  destruct (dialSocks5_noauth_frame (L := GoStd_lib) socks5_dialer Background
              "example.com:443" "example.com" "443" 443 socks5_world
              (quiet_socket ([5; 0] ++ [5; 0; 0; 1; 0; 0; 0; 0; 0; 0])) [])
    as (s' & Hrun & Hopen & _).
  - left. reflexivity.
  - reflexivity.
  - reflexivity.
  - exists 0%nat. reflexivity.
  - repeat split; simpl; discriminate.
  - reflexivity.
  - exact I.
  - exists s'. split; [exact Hrun|exact Hopen].
Defined.

Lemma http_connect_status_witness :
  ∃ s', HTTPProxyDialer.DialContext (L := GoStd_lib) http_dialer Background "tcp"
          "example.com:443" http_407_body_world = Done (Err ErrHTTPProxyAuth) s'.
Proof.
  set (sent := bytes_of "HTTP/1.1 407 Proxy Authentication Required"
                 ++ [13; 10] ++ bytes_of "Content-Length: 5"
                 ++ [13; 10; 13; 10] ++ bytes_of "login").
  destruct (http_connect_status (L := GoStd_lib) http_dialer Background "tcp"
              "example.com:443" http_407_body_world (quiet_socket sent)
              407 "407 Proxy Authentication Required")
    as (Harrived & _).
  - left. reflexivity.
  - reflexivity.
  - split; [reflexivity|exact I].
  - exists 0%nat. reflexivity.
  - repeat split; simpl; discriminate.
  - destruct (Harrived []) as (r & s' & Hrun & H407 & _).
    + exists sent, [], sent. split; [split; [discriminate|split]|].
      * apply pulls_stop. reflexivity.
      * reflexivity.
      * apply pulls_stop. reflexivity.
    + exists s'. rewrite Hrun. rewrite (H407 eq_refl). reflexivity.
Defined.

Lemma metrics_sink_never_steers_witness :
  same_but_sink one_socket_world one_socket_world_with_sink ∧
  same_outcome (ConnPool.Put "tcp" "a" (Some 0%nat) one_socket_world)
               (ConnPool.Put "tcp" "a" (Some 0%nat) one_socket_world_with_sink).
Proof.
  assert (H : same_but_sink one_socket_world one_socket_world_with_sink)
    by (repeat split).
  split; [exact H|].
  destruct (metrics_sink_never_steers (L := GoStd_lib) _ _ H) as (_ & HPut & _).
  apply HPut.
Defined.

(** C3 as it is written does not hold of the code.  The one entry of the
    pool expires at 300 s; at that very moment it has not expired for [Get],
    whose probe then waits a second for the silent peer, and [Get] hands the
    connection out at 301 s, past its expiry time. *)
Lemma Get_returns_entry_past_expiry :
  reachable at_expiry ∧
  ∃ s' e, ConnPool.Get "tcp" "a" at_expiry = Done (Some 0%nat, None) s' ∧
    view (idle_at (pool at_expiry) (pool_key "tcp" "a")) !! 0%nat = Some e ∧
    conn e = Some 0%nat ∧ expiryTime e < clock s'.
Proof.
  split.
  - apply (reach_step after_put); [exact after_put_reachable|].
    apply step_world; [reflexivity|]. vm_compute. discriminate.
  - eexists _, _. split; [vm_compute; reflexivity|].
    split; [vm_compute; reflexivity|]. split; [reflexivity|]. vm_compute. reflexivity.
Qed.

(** C4 (SocksDialer.dialSocks4).  For the target 93.184.216.34:80 the
    replies 0x5B, 0x5C and 0x5D do not come back as the three errors the
    package declares for them: 0x5C and 0x5D yield one and the same error,
    ErrSOCKSAuthFailed, 0x5B yields ErrSOCKSConnectFailed, and none of them
    yields ErrSOCKS4RequestRejected, ErrSOCKS4IdentdFailed or
    ErrSOCKS4IdentdMismatch. *)
Theorem socks4_replies_not_told_apart :
  let reply code :=
    returned (SocksDialer.dialSocks4 (L := GoStd_lib) socks4_dialer Background
                "93.184.216.34:80" (socks4_world code)) in
  reply 92 = reply 93 ∧
  reply 91 ≠ Some (Err ErrSOCKS4RequestRejected) ∧
  reply 92 ≠ Some (Err ErrSOCKS4IdentdFailed) ∧
  reply 93 ≠ Some (Err ErrSOCKS4IdentdMismatch) ∧
  reply 91 = Some (Err ErrSOCKSConnectFailed) ∧
  reply 92 = Some (Err ErrSOCKSAuthFailed).
Proof.
  vm_compute. repeat split; discriminate.
Qed.


(** * Further properties *)

(** ** The sweep in full *)

Lemma answering_back s s' c :
  stays s s' →
  inbox (conn_of s' c) ≠ [] ∨ peer (conn_of s' c) = PeerSilent →
  inbox (conn_of s c) ≠ [] ∨ peer (conn_of s c) = PeerSilent.
Proof.
  intros Hst [Hin|Hp]; destruct (Hst c) as [Hpeer Hempty].
  - left. intros Hnil. by apply Hin, Hempty.
  - right. congruence.
Qed.

Lemma stays_set_pool s p : stays s (set_pool p s).
Proof. by apply stays_conns. Qed.

(** The inner loop of [CleanUp]: what it keeps was unexpired, open and
    answering the probe; what it drops it has closed. *)
Lemma CleanUp_scan_sweeps now : ∀ elems alive s,
  Forall (λ e, is_Some (conn e)) elems →
  ∃ kept s', ConnPool.CleanUp_scan now elems alive s = Done (alive ++ kept) s' ∧
    kept `sublist_of` elems ∧
    idle (pool s') = idle (pool s) ∧
    stays s s' ∧
    (∀ c', closes (conn_of s c') ≤ closes (conn_of s' c'))%nat ∧
    (∀ e, e ∈ kept → ¬ expiryTime e < now ∧
       ∃ c, conn e = Some c ∧ closes (conn_of s c) = 0%nat ∧
            (inbox (conn_of s c) ≠ [] ∨ peer (conn_of s c) = PeerSilent)) ∧
    (∀ e, e ∈ elems → e ∈ kept ∨ closed_in s' e).
Proof.
  induction elems as [|e rest IH]; intros alive s Hsome.
  - exists [], s. rewrite app_nil_r. split; [done|]. split; [done|]. split; [done|].
    split; [apply stays_refl|]. split; [done|].
    split; intros e He; by apply elem_of_nil in He.
  - apply Forall_cons in Hsome as [[c Hc] Hsome].
    assert (Hdrop : ∀ s0, pool s0 = pool s → stays s s0 →
       (∀ c', closes (conn_of s c') ≤ closes (conn_of s0 c'))%nat →
       ∃ kept s', (conn_Close (conn e) ;;; ConnPool.add_active (-1) ;;;
                   ConnPool.CleanUp_scan now rest alive) s0 = Done (alive ++ kept) s' ∧
         kept `sublist_of` e :: rest ∧
         idle (pool s') = idle (pool s) ∧
         stays s s' ∧
         (∀ c', closes (conn_of s c') ≤ closes (conn_of s' c'))%nat ∧
         (∀ e0, e0 ∈ kept → ¬ expiryTime e0 < now ∧
            ∃ c0, conn e0 = Some c0 ∧ closes (conn_of s c0) = 0%nat ∧
                 (inbox (conn_of s c0) ≠ [] ∨ peer (conn_of s c0) = PeerSilent)) ∧
         (∀ e0, e0 ∈ e :: rest → e0 ∈ kept ∨ closed_in s' e0)).
    { intros s0 Hp0 Hst0 Hcl0. rewrite Hc. unfold bind at 1.
      destruct (conn_Close_spec s0 c) as (s1 & Hrun1 & (Hp1&_) & _ & Hcl1 & Hclosed).
      pose proof (conn_Close_stays _ _ _ Hrun1) as Hst1. rewrite Hrun1.
      unfold bind at 1, ConnPool.add_active, ConnPool.upd_pool, modify at 1.
      set (s2 := set_pool _ s1).
      assert (Hc2 : ∀ c', conn_of s2 c' = conn_of s1 c') by done.
      destruct (IH alive s2 Hsome) as (kept & s' & -> & Hsub & Hi & Hst & Hcl & Hkept & Hgone).
      assert (Hst02 : stays s s2).
      { eapply stays_trans; [exact Hst0|]. eapply stays_trans; [exact Hst1|].
        apply stays_set_pool. }
      assert (Hcl02 : ∀ c', (closes (conn_of s c') ≤ closes (conn_of s2 c'))%nat).
      { intros c'. rewrite Hc2. specialize (Hcl0 c'). specialize (Hcl1 c'). lia. }
      exists kept, s'. split; [done|]. split; [by apply sublist_cons|].
      split; [rewrite Hi; unfold s2; simpl; by rewrite Hp1, Hp0|].
      split; [by eapply stays_trans|].
      split; [intros c'; specialize (Hcl02 c'); specialize (Hcl c'); lia|].
      split.
      - intros e0 He0. destruct (Hkept e0 He0) as (Hne & c0 & Hc0 & Ho & Ha).
        split; [done|]. exists c0. split; [done|].
        split; [specialize (Hcl02 c0); lia|]. by eapply answering_back.
      - intros e0 He0. apply elem_of_cons in He0 as [->|He0]; [|by apply Hgone].
        right. exists c. split; [done|]. specialize (Hcl c). rewrite Hc2 in Hcl. lia. }
    simpl. case_bool_decide as Hexp.
    + apply Hdrop; [done|apply stays_refl|done].
    + unfold bind at 1.
      destruct (isConnAlive_spec s (conn e)) as
        (b & s1 & Hrun1 & (Hp1&_) & _ & _ & Hcl1 & Halive).
      destruct (isConnAlive_stays _ _ _ _ Hrun1) as [Hst1 Hans]. rewrite Hrun1.
      destruct b; simpl.
      * destruct (IH (alive ++ [e]) s1 Hsome) as
          (kept & s' & -> & Hsub & Hi & Hst & Hcl & Hkept & Hgone).
        exists (e :: kept), s'. rewrite <- app_assoc. simpl. split; [done|].
        split; [by apply sublist_skip|]. split; [by rewrite Hi, Hp1|].
        split; [by eapply stays_trans|].
        split; [intros c'; rewrite <- Hcl1; apply Hcl|].
        split.
        -- intros e0 He0. apply elem_of_cons in He0 as [->|He0].
           ++ split; [done|]. destruct (Halive eq_refl) as (c0 & Hc0 & Ho & _).
              destruct (Hans eq_refl) as (c1 & Hc1 & Ha). rewrite Hc0 in Hc1.
              inversion Hc1; subst c1. exists c0. by rewrite <- Hc0.
           ++ destruct (Hkept e0 He0) as (Hne & c0 & Hc0 & Ho & Ha).
              split; [done|]. exists c0. split; [done|].
              split; [by rewrite <- Hcl1|]. by eapply answering_back.
        -- intros e0 He0. apply elem_of_cons in He0 as [->|He0].
           ++ left. apply elem_of_cons. by left.
           ++ destruct (Hgone e0 He0) as [?|?]; [left|by right].
              apply elem_of_cons. by right.
      * apply Hdrop; [done|done|]. intros c'. by rewrite Hcl1.
Qed.

Lemma closed_in_mono s s' e :
  (∀ c', closes (conn_of s c') ≤ closes (conn_of s' c'))%nat →
  closed_in s e → closed_in s' e.
Proof. intros Hcl (c & Hc & Hne). exists c. split; [done|]. specialize (Hcl c). lia. Qed.

Lemma swept_nil now s s' : swept now s s' [] [].
Proof.
  split; [done|]. split; intros e He; by apply elem_of_nil in He.
Qed.

(** [swept] seen from an earlier start and a later end. *)
Lemma swept_widen now s0 s s' s1 old new :
  stays s0 s → (∀ c', closes (conn_of s0 c') ≤ closes (conn_of s c'))%nat →
  (∀ c', closes (conn_of s' c') ≤ closes (conn_of s1 c'))%nat →
  swept now s s' old new → swept now s0 s1 old new.
Proof.
  intros Hst Hcl0 Hcl1 (Hsub & Hkept & Hgone). split; [done|]. split.
  - intros e He. destruct (Hkept e He) as (Hne & c & Hc & Ho & Ha).
    split; [done|]. exists c. split; [done|].
    split; [specialize (Hcl0 c); lia|]. by eapply answering_back.
  - intros e He. destruct (Hgone e He) as [?|?]; [by left|right].
    by eapply closed_in_mono.
Qed.

(** One key of the sweep. *)
Lemma CleanUp_key_sweeps now key s :
  pool_inv s →
  ∃ s', ConnPool.CleanUp_key now key s = Done tt s' ∧
    stays s s' ∧
    (∀ c', closes (conn_of s c') ≤ closes (conn_of s' c'))%nat ∧
    (∀ key', key' ≠ key → idle (pool s') !! key' = idle (pool s) !! key') ∧
    (idle (pool s') !! key = None ∨ view (idle_at (pool s') key) ≠ []) ∧
    swept now s s' (view (idle_at (pool s) key)) (view (idle_at (pool s') key)).
Proof.
  intros Hinv. unfold ConnPool.CleanUp_key.
  unfold bind at 1, ConnPool.p_field at 1, gets at 1.
  destruct (idle (pool s) !! key) as [sl|] eqn:Hk.
  2:{ exists s. split; [done|]. split; [apply stays_refl|]. split; [done|].
      split; [done|]. split; [by left|]. unfold idle_at. rewrite Hk. apply swept_nil. }
  destruct (Hinv key sl Hk) as (Hcap & Hsort & Hbound & Hsome).
  unfold bind at 1.
  destruct (CleanUp_scan_sweeps now (view sl) [] s Hsome) as
    (kept & s1 & -> & Hsub & Hi & Hst & Hcl & Hkept & Hgone).
  simpl. unfold idle_at at 2. rewrite Hk. simpl.
  case_bool_decide as Hempty.
  - eexists. split; [reflexivity|]. simpl.
    split; [eapply stays_trans; [exact Hst|apply stays_set_pool]|].
    split; [done|].
    split; [intros key' Hne; by rewrite lookup_delete_ne, Hi|].
    split; [left; by rewrite lookup_delete_eq|].
    unfold idle_at. simpl. rewrite lookup_delete_eq. simpl.
    destruct kept; [|done]. done.
  - eexists. split; [reflexivity|]. simpl.
    split; [eapply stays_trans; [exact Hst|apply stays_set_pool]|].
    split; [done|].
    split; [intros key' Hne; by rewrite lookup_insert_ne, Hi|].
    assert (Hview : view (idle_at (set_idle (<[key:=Slice kept (length kept)]> (idle (pool s1)))
                           (pool s1)) key) = kept).
    { unfold idle_at. simpl. rewrite lookup_insert_eq. simpl. unfold view. simpl.
      by rewrite take_ge. }
    rewrite Hview.
    split; [right; by destruct kept|]. done.
Qed.

(** The outer loop of the sweep over distinct keys. *)
Lemma CleanUp_keys_sweeps now : ∀ keys s,
  NoDup keys → pool_inv s →
  ∃ s', ConnPool.CleanUp_keys now keys s = Done tt s' ∧ pool_inv s' ∧
    same_limits (pool s) (pool s') ∧ clock s ≤ clock s' ∧
    stays s s' ∧
    (∀ c', closes (conn_of s c') ≤ closes (conn_of s' c'))%nat ∧
    (∀ key, key ∉ keys → idle (pool s') !! key = idle (pool s) !! key) ∧
    (∀ key, key ∈ keys →
       (idle (pool s') !! key = None ∨ view (idle_at (pool s') key) ≠ []) ∧
       swept now s s' (view (idle_at (pool s) key)) (view (idle_at (pool s') key))).
Proof.
  induction keys as [|key rest IH]; intros s Hnd Hinv.
  - exists s. split; [done|]. split; [done|]. split; [done|]. split; [lia|].
    split; [apply stays_refl|]. split; [done|]. split; [done|].
    intros key Hin. by apply elem_of_nil in Hin.
  - apply NoDup_cons in Hnd as [Hnotin Hnd]. simpl. unfold bind.
    destruct (CleanUp_key_sweeps now key s Hinv) as
      (s1 & Hrun1 & Hst1 & Hcl1 & Hoth1 & Hne1 & Hsw1).
    destruct (CleanUp_key_inv now key s Hinv) as (s1' & Hrun1' & Hinv1 & Hck1 & Hlim1 & _).
    rewrite Hrun1 in Hrun1'. inversion Hrun1'; subst s1'. clear Hrun1'. rewrite Hrun1.
    destruct (IH s1 Hnd Hinv1) as
      (s' & -> & Hinv' & Hlim & Hck & Hst & Hcl & Hout & Hin).
    exists s'. split; [done|]. split; [done|].
    split; [destruct Hlim1 as (?&?&?&?), Hlim as (?&?&?&?); repeat split; congruence|].
    split; [lia|]. split; [by eapply stays_trans|].
    split; [intros c'; specialize (Hcl1 c'); specialize (Hcl c'); lia|].
    split.
    + intros key' Hnin. apply not_elem_of_cons in Hnin as [Hne Hnin].
      rewrite Hout by done. by apply Hoth1.
    + intros key' Hk'. apply elem_of_cons in Hk' as [->|Hk'].
      * assert (Hsame : idle (pool s') !! key = idle (pool s1) !! key) by by apply Hout.
        unfold idle_at at 1 3. rewrite Hsame. fold (idle_at (pool s1) key).
        split; [done|].
        apply (swept_widen now s s s1 s'); [apply stays_refl|done|exact Hcl|exact Hsw1].
      * assert (Hne : key' ≠ key) by (intros Heq; apply Hnotin; by rewrite <- Heq).
        destruct (Hin key' Hk') as [Hnone Hsw]. split; [done|].
        assert (Hold : idle_at (pool s1) key' = idle_at (pool s) key').
        { unfold idle_at. by rewrite Hoth1. }
        rewrite Hold in Hsw.
        by apply (swept_widen now s s1 s' s').
Qed.

(** [CleanUp] as a whole. *)
Lemma CleanUp_full s :
  pool_inv s →
  ∃ s', ConnPool.CleanUp s = Done tt s' ∧ pool_inv s' ∧
    same_limits (pool s) (pool s') ∧
    (∀ key sl', idle (pool s') !! key = Some sl' → view sl' ≠ []) ∧
    ∀ key, swept (clock s) s s' (view (idle_at (pool s) key)) (view (idle_at (pool s') key)).
Proof.
  intros Hinv. unfold ConnPool.CleanUp.
  unfold bind at 1, time_Now, gets at 1.
  unfold bind at 1, ConnPool.p_field at 1, gets at 1.
  destruct (CleanUp_keys_sweeps (clock s) (fst <$> map_to_list (idle (pool s))) s)
    as (s' & -> & Hinv' & Hlim & _ & _ & _ & Hout & Hin).
  { apply NoDup_fst_map_to_list. }
  { done. }
  assert (Hkeys : ∀ key, key ∈ (fst <$> map_to_list (idle (pool s))) ↔
                         is_Some (idle (pool s) !! key)).
  { intros key. rewrite list_elem_of_fmap. split.
    - intros ([k v] & -> & Hkv). apply elem_of_map_to_list in Hkv. simpl. eauto.
    - intros [v Hv]. exists (key, v). split; [done|]. by apply elem_of_map_to_list. }
  exists s'. split; [done|]. split; [done|]. split; [done|]. split.
  - intros key sl' Hk'.
    destruct (decide (key ∈ (fst <$> map_to_list (idle (pool s))))) as [Hkin|Hkout].
    + destruct (Hin key Hkin) as [[Hnone|Hne] _]; [congruence|].
      unfold idle_at in Hne. by rewrite Hk' in Hne.
    + rewrite (Hout key Hkout) in Hk'. exfalso. apply Hkout, Hkeys. eauto.
  - intros key.
    destruct (decide (key ∈ (fst <$> map_to_list (idle (pool s))))) as [Hkin|Hkout].
    + by destruct (Hin key Hkin) as [_ Hsw].
    + assert (Hnone : idle (pool s) !! key = None).
      { apply eq_None_not_Some. intros Hs. by apply Hkout, Hkeys. }
      unfold idle_at. rewrite (Hout key Hkout), Hnone. apply swept_nil.
Qed.

(** ** The bound on idle connections *)

Lemma len_slice_cut a n i : len (slice_cut a n i) = (n - 1)%nat.
Proof. done. Qed.

Lemma len_slice_append_S sl x : len (slice_append sl x) = S (len sl).
Proof. unfold slice_append. by case_decide. Qed.

Lemma Get_bounded network addr s r s' :
  pool_inv s → idle_bounded s →
  ConnPool.Get network addr s = Done r s' → idle_bounded s'.
Proof.
  intros Hinv Hb Hrun.
  destruct (Get_spec network addr s Hinv) as
    (r0 & s0 & Hrun0 & _ & _ & _ & _ & (Hmi & _) & _ & Hother & Hres).
  rewrite Hrun in Hrun0. inversion Hrun0; subst r0 s0. clear Hrun0.
  intros key' sl' Hk'. rewrite Hmi.
  destruct Hres as [(_ & _ & Hp & _)|[(_ & _ & Hlen & _)|(i & e & c & Hi & _ & _ & _ & _ & _ & _ & Hst & _)]].
  - rewrite Hp in Hk'. by eapply Hb.
  - destruct (decide (key' = pool_key network addr)) as [->|Hne].
    + unfold idle_at in Hlen. rewrite Hk' in Hlen. simpl in Hlen. lia.
    + rewrite Hother in Hk' by done. by eapply Hb.
  - destruct (decide (key' = pool_key network addr)) as [->|Hne].
    + rewrite Hk' in Hst. inversion Hst; subst sl'. rewrite len_slice_cut.
      unfold idle_at. destruct (idle (pool s) !! pool_key network addr) as [sl|] eqn:Hk.
      * simpl. specialize (Hb _ _ Hk). lia.
      * simpl. lia.
    + rewrite Hother in Hk' by done. by eapply Hb.
Qed.

Lemma Put_bounded network addr conn s s' :
  idle_bounded s → ConnPool.Put network addr conn s = Done tt s' → idle_bounded s'.
Proof.
  intros Hb Hrun.
  destruct (Put_spec network addr conn s) as
    (s0 & Hrun0 & _ & (Hmi & _) & _ & _ & _ & Hother & Hres).
  rewrite Hrun in Hrun0. inversion Hrun0; subst s0. clear Hrun0.
  intros key' sl' Hk'. rewrite Hmi.
  destruct Hres as [(_ & ->)|[(c & s1 & _ & _ & _ & _ & Hi & _)|(c & _ & Hroom & _ & Hi & _)]].
  - by eapply Hb.
  - rewrite Hi in Hk'. by eapply Hb.
  - rewrite Hi in Hk'. destruct (decide (key' = pool_key network addr)) as [->|Hne].
    + rewrite lookup_insert_eq in Hk'. inversion Hk'; subst sl'.
      rewrite len_slice_append_S. lia.
    + rewrite lookup_insert_ne in Hk' by done. by eapply Hb.
Qed.

Lemma CleanUp_bounded s s' :
  pool_inv s → idle_bounded s → ConnPool.CleanUp s = Done tt s' → idle_bounded s'.
Proof.
  intros Hinv Hb Hrun.
  destruct (CleanUp_full s Hinv) as (s0 & Hrun0 & Hinv' & (Hmi & _) & _ & Hsw).
  rewrite Hrun in Hrun0. inversion Hrun0; subst s0. clear Hrun0.
  intros key sl' Hk'. rewrite Hmi.
  destruct (Hinv' key sl' Hk') as (Hcap & _).
  destruct (Hsw key) as (Hsub & _). apply sublist_length in Hsub.
  assert (Hnew : idle_at (pool s') key = sl') by (unfold idle_at; by rewrite Hk').
  rewrite Hnew in Hsub. unfold view in Hsub. rewrite !length_take in Hsub.
  unfold idle_at in Hsub. destruct (idle (pool s) !! key) as [sl|] eqn:Hk; simpl in Hsub.
  - specialize (Hb _ _ Hk). lia.
  - lia.
Qed.

Lemma reachable_bounded s : reachable s → idle_bounded s.
Proof.
  induction 1 as [s mi mt it m Hnew|s s' Hreach IH Hstep].
  - intros key sl Hk. rewrite Hnew in Hk. simpl in Hk. by rewrite lookup_empty in Hk.
  - pose proof (reachable_inv s Hreach) as Hinv.
    destruct Hstep as [network addr s r s' Hrun|network addr conn s s' Hrun|s s' Hrun|s s' Hp Hck].
    + by eapply Get_bounded.
    + by eapply Put_bounded.
    + by eapply CleanUp_bounded.
    + intros key sl Hk. rewrite Hp in *. by eapply IH.
Qed.

(** X1 (ConnPool.Put, Get, removeConn, CleanUp).  In every state a pool can
    reach, no key holds more than [maxIdle] idle connections; nothing is ever
    kept idle by a pool whose [maxIdle] is zero or negative. *)
Theorem idle_never_exceeds_maxIdle s key :
  reachable s →
  Z.of_nat (length (view (idle_at (pool s) key))) ≤ Z.max 0 (maxIdle (pool s)).
Proof.
  intros Hreach. pose proof (reachable_bounded s Hreach) as Hb.
  unfold idle_at. destruct (idle (pool s) !! key) as [sl|] eqn:Hk; simpl.
  - specialize (Hb _ _ Hk). unfold view. rewrite length_take. lia.
  - lia.
Qed.

Lemma idle_never_exceeds_maxIdle_witness :
  Z.of_nat (length (view (idle_at (pool after_put) "tcp:a"))) ≤ Z.max 0 (maxIdle (pool after_put)).
Proof. apply (idle_never_exceeds_maxIdle after_put "tcp:a"), after_put_reachable. Defined.

(** X2 (ConnPool.CleanUp, isConnAlive).  From every state a pool can reach,
    [CleanUp] returns.  Afterwards no key is left with an empty list (such
    keys are deleted); under every key the list is what remains of the old
    one, in its order; every entry that remains had not expired at the time
    the sweep read the clock, was never closed and was answering the probe
    (data waiting, or silent); every entry that is gone was closed. *)
Theorem CleanUp_sweeps s :
  reachable s →
  ∃ s', ConnPool.CleanUp s = Done tt s' ∧
    (∀ key sl', idle (pool s') !! key = Some sl' → view sl' ≠ []) ∧
    ∀ key,
      let old := view (idle_at (pool s) key) in
      let new := view (idle_at (pool s') key) in
      new `sublist_of` old ∧
      (∀ e, e ∈ new → ¬ expiryTime e < clock s ∧
         ∃ c, conn e = Some c ∧ closes (conn_of s c) = 0%nat ∧
              (inbox (conn_of s c) ≠ [] ∨ peer (conn_of s c) = PeerSilent)) ∧
      (∀ e, e ∈ old → e ∈ new ∨ closed_in s' e).
Proof.
  intros Hreach.
  destruct (CleanUp_full s (reachable_inv s Hreach)) as (s' & Hrun & _ & _ & Hne & Hsw).
  exists s'. split; [done|]. split; [done|]. intros key. apply Hsw.
Qed.

Lemma CleanUp_sweeps_witness :
  ∃ s', ConnPool.CleanUp after_put = Done tt s' ∧
    ∀ key sl', idle (pool s') !! key = Some sl' → view sl' ≠ [].
Proof.
  destruct (CleanUp_sweeps after_put after_put_reachable) as (s' & Hrun & Hne & _).
  exists s'. split; [exact Hrun|exact Hne].
Defined.

(** ** Putting a connection back and getting it again *)

Lemma isConnAlive_answering s c :
  closes (conn_of s c) = 0%nat → kind (conn_of s c) ≠ KHTTP2 →
  (inbox (conn_of s c) ≠ [] ∨ peer (conn_of s c) = PeerSilent) →
  probe_reads (conn_of s c) →
  ∃ s1, isConnAlive (Some c) s = Done true s1 ∧ keeps_rest s s1 ∧
    clock s ≤ clock s1 ∧
    (∀ c', closes (conn_of s1 c') = closes (conn_of s c')) ∧
    length (conns s1) = length (conns s) ∧
    (∀ c', kind (conn_of s1 c') = kind (conn_of s c')).
Proof.
  intros Ho Hkind Hans Hdg.
  destruct (isConnAlive_spec s (Some c)) as (b & s1 & Hrun & Hkeep & Hck & _ & Hcl & _).
  destruct (isConnAlive_shape _ _ _ _ Hrun) as [Hlen Hkinds].
  assert (b = true) as ->.
  { pose proof (open_valid s c Ho) as Hv. apply lookup_lt_is_Some in Hv as [cs Hcs].
    assert (Hcs' : conn_of s c = cs) by (unfold conn_of; by rewrite Hcs).
    rewrite Hcs' in *.
    rewrite (isConnAlive_open s c cs Hcs Ho Hkind) in Hrun.
    destruct (inbox cs) as [|b0 rest] eqn:Ein.
    - destruct (peer cs); try (by inversion Hrun); by destruct Hans.
    - destruct (kind cs) as [| |ctl] eqn:Ekd; try (by inversion Hrun).
      case_bool_decide as Hshort; [|by inversion Hrun].
      destruct (Hdg ctl Ekd) as [?|Hl10]; [congruence|rewrite Ein in Hl10; lia]. }
  exists s1. done.
Qed.

Lemma Get_top network addr a n e c s :
  let key := pool_key network addr in
  idle (pool s) !! key = Some (Slice a (S n)) → a !! n = Some e → conn e = Some c →
  ¬ (expiryTime e < clock s) → active (pool s) < maxActive (pool s) →
  closes (conn_of s c) = 0%nat → kind (conn_of s c) ≠ KHTTP2 →
  (inbox (conn_of s c) ≠ [] ∨ peer (conn_of s c) = PeerSilent) →
  probe_reads (conn_of s c) →
  ∃ s', ConnPool.Get network addr s = Done (Some c, None) s' ∧
    idle (pool s') = <[key := Slice a n]> (idle (pool s)) ∧
    (∀ c', closes (conn_of s' c') = closes (conn_of s c')) ∧
    dialed s' = dialed s ∧ length (conns s') = length (conns s) ∧
    active (pool s') = int64 (int64 (active (pool s) + 1) + 1).
Proof.
  intros key Hk Ha Hc Hexp Hact Ho Hkind Hans Hdg.
  assert (Hat : idle_at (pool s) key = Slice a (S n)) by (unfold idle_at; by rewrite Hk).
  unfold ConnPool.Get. fold (pool_key network addr). fold key.
  unfold bind at 1, ConnPool.p_field at 1, gets at 1.
  unfold bind at 1, ConnPool.p_field at 1, gets at 1.
  case_bool_decide; [exfalso; lia|].
  unfold bind at 1, ConnPool.p_idle at 1, ConnPool.p_field at 1, gets at 1.
  rewrite Hat. cbn [len].
  case_bool_decide as Hlen; [|exfalso; simpl in Hlen; lia].
  cbn [ConnPool.Get_loop].
  unfold bind at 1, ConnPool.index at 1.
  unfold bind at 1, ConnPool.p_idle at 1, ConnPool.p_field at 1, gets at 1.
  rewrite Hat. cbn [arr].
  rewrite decide_True by lia. rewrite Ha. unfold ret at 1.
  unfold bind at 1, time_Now at 1, gets at 1.
  case_bool_decide; [done|].
  rewrite Hc. unfold bind at 1.
  destruct (isConnAlive_answering s c Ho Hkind Hans Hdg) as
    (s1 & -> & (Hp1 & _ & Hd1 & _) & _ & Hcl1 & Hlen1 & _).
  rewrite <- Hc. rewrite Get_found.
  eexists. split; [by rewrite Hc|]. simpl.
  rewrite Hp1, Hat. cbn [arr]. rewrite slice_cut_last.
  done.
Qed.

Lemma slice_append_shape sl x :
  slice_append sl x = Slice (arr (slice_append sl x)) (S (len sl)).
Proof. unfold slice_append. by case_decide. Qed.

Lemma arr_slice_append_last sl x :
  (len sl ≤ length (arr sl))%nat → arr (slice_append sl x) !! len sl = Some x.
Proof.
  intros Hcap. unfold slice_append. case_decide; simpl.
  - by rewrite list_lookup_insert_eq by lia.
  - rewrite lookup_app_r by (rewrite length_take; lia).
    rewrite length_take. by replace (len sl - len sl `min` length (arr sl))%nat with 0%nat by lia.
Qed.

Lemma take_arr_slice_append sl x :
  (len sl ≤ length (arr sl))%nat →
  take (len sl) (arr (slice_append sl x)) = view sl.
Proof.
  intros Hcap. unfold slice_append, view. case_decide; simpl.
  - by rewrite take_insert_ge.
  - rewrite take_app_length'; [done|]. rewrite length_take. lia.
Qed.

(** X3 (ConnPool.Put, ConnPool.Get).  In a state a pool can reach, a
    connection that is open and would pass the probe (data waiting, or a
    silent peer; on a relay, no datagram waiting of less than the ten bytes
    its read skips), put back under a key that has room, with a non-negative
    idle timeout and the counter below the limit, is appended to the idle
    list of the key with expiry time now plus the idle timeout, and the next
    [Get] for the same network and address hands out that very connection,
    open, without a socket connect, and leaves the idle list of the key as it
    was before the [Put]. *)
Theorem Put_then_Get_returns_it network addr c s :
  reachable s →
  let key := pool_key network addr in
  closes (conn_of s c) = 0%nat → kind (conn_of s c) ≠ KHTTP2 →
  inbox (conn_of s c) ≠ [] ∨ peer (conn_of s c) = PeerSilent →
  probe_reads (conn_of s c) →
  Z.of_nat (length (view (idle_at (pool s) key))) < maxIdle (pool s) →
  0 ≤ idleTimeout (pool s) →
  int64 (active (pool s) - 1) < maxActive (pool s) →
  ∃ s1 s2,
    ConnPool.Put network addr (Some c) s = Done tt s1 ∧
    view (idle_at (pool s1) key) =
      view (idle_at (pool s) key) ++
      [ConnWithExpiry (Some c) (clock s + idleTimeout (pool s))] ∧
    ConnPool.Get network addr s1 = Done (Some c, None) s2 ∧
    view (idle_at (pool s2) key) = view (idle_at (pool s) key) ∧
    closes (conn_of s2 c) = 0%nat ∧ dialed s2 = dialed s.
Proof.
  intros Hreach key Ho Hkind Hans Hdg Hroom Hto Hact.
  pose proof (reachable_inv s Hreach) as Hinv.
  set (sl := idle_at (pool s) key) in *.
  assert (Hcap : (len sl ≤ length (arr sl))%nat).
  { unfold sl, idle_at. destruct (idle (pool s) !! key) as [sl0|] eqn:Hk; simpl; [|lia].
    by destruct (Hinv key sl0 Hk). }
  assert (Hlen : length (view sl) = len sl) by (unfold view; rewrite length_take; lia).
  destruct (Put_spec network addr (Some c) s) as
    (s1 & Hrun1 & Hck1 & (_ & Hma1 & _) & Hd1 & _ & _ & _ & Hres).
  fold key in Hres. fold sl in Hres.
  destruct Hres as [(Hnone & _)|[(c0 & s0 & _ & Hfull & _)|(c0 & Hc0 & _ & Hconns & Hi & Hact1)]];
    [done|lia|].
  inversion Hc0; subst c0. clear Hc0.
  set (x := ConnWithExpiry (Some c) (clock s + idleTimeout (pool s))) in *.
  assert (Hk1 : idle (pool s1) !! key = Some (Slice (arr (slice_append sl x)) (S (len sl)))).
  { rewrite Hi, lookup_insert_eq. by rewrite <- slice_append_shape. }
  assert (Hconn1 : ∀ c', conn_of s1 c' = conn_of s c') by (intros c'; unfold conn_of; by rewrite Hconns).
  destruct (Get_top network addr (arr (slice_append sl x)) (len sl) x c s1) as
    (s2 & Hrun2 & Hi2 & Hcl2 & Hd2 & _).
  - done.
  - by apply arr_slice_append_last.
  - done.
  - simpl. lia.
  - rewrite Hact1, Hma1. by replace (active (pool s) + -1) with (active (pool s) - 1) by lia.
  - by rewrite Hconn1.
  - by rewrite Hconn1.
  - by rewrite Hconn1.
  - by rewrite Hconn1.
  - exists s1, s2. split; [done|].
    split. { unfold idle_at at 1. rewrite Hi, lookup_insert_eq. simpl. apply view_slice_append. }
    split; [done|].
    split. { unfold idle_at at 1. fold key in Hi2. rewrite Hi2, lookup_insert_eq. simpl.
             unfold view at 1. simpl. by apply take_arr_slice_append. }
    split; [by rewrite Hcl2, Hconn1|congruence].
Qed.

Lemma one_socket_world_reachable : reachable one_socket_world.
Proof. by apply (reach_new _ 5 10 (300 * Second) false). Qed.

Lemma Put_then_Get_returns_it_witness :
  ∃ s1 s2,
    ConnPool.Put "tcp" "a" (Some 0%nat) one_socket_world = Done tt s1 ∧
    ConnPool.Get "tcp" "a" s1 = Done (Some 0%nat, None) s2.
Proof.
  destruct (Put_then_Get_returns_it "tcp" "a" 0%nat one_socket_world)
    as (s1 & s2 & Hput & _ & Hget & _).
  - exact one_socket_world_reachable.
  - reflexivity.
  - simpl. discriminate.
  - right. reflexivity.
  - intros ctl Hk. discriminate Hk.
  - reflexivity.
  - discriminate.
  - reflexivity.
  - exists s1, s2. split; [exact Hput|exact Hget].
Defined.

(** ** What [Get] leaves behind *)

(** X4 (ConnPool.Get, ConnPool.removeConn).  In a state a pool can reach,
    when [Get] hands out the entry at position [i] of the idle list of the
    key, the list it leaves is the old one without that entry and nothing
    else: the entries behind position [i], which the scan found dead and
    closed, are back in the list (the final append works on the copy of the
    slice taken before the scan). *)
Theorem Get_keeps_closed_entries network addr s :
  reachable s →
  let key := pool_key network addr in
  let old := view (idle_at (pool s) key) in
  ∃ r s', ConnPool.Get network addr s = Done r s' ∧
    ∀ c, r = (Some c, None) →
      ∃ i e, old !! i = Some e ∧ conn e = Some c ∧
        view (idle_at (pool s') key) = delete i old ∧
        ∀ j e', (i < j)%nat → old !! j = Some e' →
          closed_in s' e' ∧ e' ∈ view (idle_at (pool s') key).
Proof.
  intros Hreach key old. pose proof (reachable_inv s Hreach) as Hinv.
  destruct (Get_spec network addr s Hinv) as
    (r & s' & Hrun & _ & _ & _ & _ & _ & _ & _ & Hres).
  exists r, s'. split; [done|]. intros c Hr.
  destruct Hres as [(-> & _)|[(-> & _)|(i & e & c0 & Hi & Hc & -> & _ & _ & _ & _ & Hst & _ & Hcl)]];
    [done|done|].
  inversion Hr; subst c0. clear Hr.
  fold key in Hi, Hst, Hcl. fold old in Hi, Hcl.
  assert (Hview : view (idle_at (pool s') key) = delete i old).
  { unfold idle_at at 1. rewrite Hst. simpl.
    pose proof (lookup_lt_Some _ _ _ Hi) as Hlt. unfold old, view in Hlt.
    rewrite length_take in Hlt.
    apply view_slice_cut; [lia|].
    unfold idle_at. destruct (idle (pool s) !! key) as [sl|] eqn:Hk; simpl; [|lia].
    by destruct (Hinv key sl Hk). }
  exists i, e. split; [done|]. split; [done|]. split; [done|].
  intros j e' Hij Hj. split; [by apply (Hcl j)|].
  rewrite Hview. apply list_elem_of_lookup. exists (j - 1)%nat.
  rewrite list_lookup_delete_ge by lia. by replace (S (j - 1)) with j by lia.
Qed.

Lemma after_two_puts_reachable : reachable after_two_puts.
Proof.
  apply (reach_step (default live_and_dead_world
           (final (ConnPool.Put "tcp" "a" (Some 0%nat) live_and_dead_world)))).
  - apply (reach_step live_and_dead_world).
    + by apply (reach_new _ 5 10 (300 * Second) false).
    + by apply (step_Put "tcp" "a" (Some 0%nat)).
  - by apply (step_Put "tcp" "a" (Some 1%nat)).
Qed.

Lemma Get_keeps_closed_entries_witness :
  ∃ r s', ConnPool.Get "tcp" "a" after_two_puts = Done r s' ∧
    ∀ c, r = (Some c, None) →
      ∃ i e, view (idle_at (pool after_two_puts) "tcp:a") !! i = Some e ∧
        view (idle_at (pool s') "tcp:a") =
        delete i (view (idle_at (pool after_two_puts) "tcp:a")).
Proof.
  destruct (Get_keeps_closed_entries "tcp" "a" after_two_puts after_two_puts_reachable)
    as (r & s' & Hrun & Hpost).
  exists r, s'. split; [exact Hrun|].
  intros c Hc. destruct (Hpost c Hc) as (i & e & Hi & _ & Hview & _).
  exists i, e. split; [exact Hi|exact Hview].
Defined.

(** ** A key that is full *)

(** X5 (ConnPool.Put).  In a state a pool can reach, [Put] of a connection
    under a key that already holds [maxIdle] entries (always, when [maxIdle]
    is zero or less) stores nothing: it calls Close on the connection, once,
    leaves every idle list as it was and takes one off the counter. *)
Theorem Put_at_capacity_closes network addr (c : nat) s :
  reachable s →
  let key := pool_key network addr in
  maxIdle (pool s) ≤ Z.of_nat (length (view (idle_at (pool s) key))) →
  (c < length (conns s))%nat → kind (conn_of s c) ≠ KUDPRelay c →
  ∃ s', ConnPool.Put network addr (Some c) s = Done tt s' ∧
    idle (pool s') = idle (pool s) ∧
    closes (conn_of s' c) = S (closes (conn_of s c)) ∧
    active (pool s') = int64 (active (pool s) - 1).
Proof.
  intros Hreach key Hfull Hv Hk. pose proof (reachable_inv s Hreach) as Hinv.
  set (sl := idle_at (pool s) key) in *.
  assert (Hlen : length (view sl) = len sl).
  { unfold view. rewrite length_take. unfold sl, idle_at.
    destruct (idle (pool s) !! key) as [sl0|] eqn:Hk0; simpl; [|lia].
    destruct (Hinv key sl0 Hk0). lia. }
  destruct (Put_spec network addr (Some c) s) as (s' & Hrun & _ & _ & _ & _ & _ & _ & Hres).
  fold key in Hres. fold sl in Hres.
  destruct Hres as [(Hnone & _)|[(c0 & s1 & Hc0 & _ & Hclose & Hconns & Hi & Hact)|(c0 & _ & Hroom & _)]];
    [done| |lia].
  inversion Hc0; subst c0. clear Hc0.
  destruct (conn_Close_counts s c Hv Hk) as (s1' & Hclose' & Hcount).
  rewrite Hclose in Hclose'. inversion Hclose'; subst s1'. clear Hclose'.
  exists s'. split; [done|]. split; [done|].
  split; [unfold conn_of in *; by rewrite Hconns|].
  rewrite Hact. f_equal.
Qed.

Lemma Put_at_capacity_closes_witness :
  ∃ s', ConnPool.Put "tcp" "a" (Some 0%nat) no_idle_world = Done tt s' ∧
    idle (pool s') = idle (pool no_idle_world) ∧
    closes (conn_of s' 0) = 1%nat.
Proof.
  destruct (Put_at_capacity_closes "tcp" "a" 0%nat no_idle_world)
    as (s' & Hrun & Hidle & Hcl & _).
  - by apply (reach_new _ 0 10 (300 * Second) false).
  - reflexivity.
  - simpl. lia.
  - simpl. discriminate.
  - exists s'. split; [exact Hrun|]. split; [exact Hidle|exact Hcl].
Defined.

(** ** HTTP/2 tunnels and the pool *)

(** X6 (poolConn.Close, isConnAlive, http2Conn.SetReadDeadline).  The
    connection [dialHTTP2] returns refuses every deadline, so the probe calls
    it dead: releasing its wrapper never puts it in the pool.  The first Close
    of the wrapper calls Close on the tunnel once and leaves the pool as it
    was. *)
Theorem http2_tunnel_never_pooled (w : poolConn) (c : nat) s :
  Conn w = Some c → once w = false →
  (c < length (conns s))%nat → kind (conn_of s c) = KHTTP2 →
  ∃ s', poolConn.Close w s = Done (MkPoolConn (Conn w) (network w) (addr w) true) s' ∧
    pool s' = pool s ∧
    closes (conn_of s' c) = S (closes (conn_of s c)).
Proof.
  intros Hc Honce Hv Hk. unfold poolConn.Close. rewrite Honce, Hc.
  unfold bind at 1. rewrite isConnAlive_refused by (by right).
  cbv beta iota. unfold bind at 1.
  destruct (conn_Close_spec s c) as (s' & Hrun & (Hp & _) & _).
  destruct (conn_Close_counts s c Hv) as (s'' & Hrun' & Hcount).
  { rewrite Hk. discriminate. }
  rewrite Hrun in Hrun'. inversion Hrun'; subst s''. rewrite Hrun.
  exists s'. done.
Qed.

Lemma http2_tunnel_never_pooled_witness :
  ∃ s', poolConn.Close wrapper0 http2_tunnel_world = Done (MkPoolConn (Some 0%nat) "tcp" "a" true) s' ∧
    pool s' = pool http2_tunnel_world.
Proof.
  destruct (http2_tunnel_never_pooled wrapper0 0%nat http2_tunnel_world)
    as (s' & Hrun & Hp & _).
  - reflexivity.
  - reflexivity.
  - simpl. lia.
  - reflexivity.
  - exists s'. split; [exact Hrun|exact Hp].
Defined.

(** ** The HTTP dialer: refusals and what becomes of the socket *)

(** The first steps of a dialer with a sink pointer: only the collector can
    change. *)
Lemma when_sink_step (b : sinkptr) (g : MetricsCollector → MetricsCollector) s :
  ∃ m', when b (MetricsCollector.on_collector b g) s = Done tt (set_mc m' s).
Proof.
  destruct b; simpl.
  - eexists. reflexivity.
  - exists (mc s). by destruct s.
Qed.

(** X7 (HTTPProxyDialer.DialContext).  The HTTP dialer answers without
    touching the network in three cases, tried in this order: a network other
    than tcp, tcp4 and tcp6 gives ErrUnsupportedProxy wrapped with the
    network's name; a context that is done gives ErrContextDeadlineExceeded
    when its deadline has passed and ErrContextCanceled otherwise; a proxy
    type other than HTTP, HTTPS and HTTP2 gives ErrUnsupportedProxy wrapped
    with the type's name.  No socket connect is attempted and no connection
    is touched. *)
Theorem http_dial_refusals `{L : GoLib} (d : HTTPProxyDialer.t) ctx network addr s :
  HTTPProxyDialer.is_tcp network = false ∨
  is_Some (ctx_Err ctx (clock s)) ∨
  (HTTPProxyDialer.proxyType d ≠ HTTP ∧ HTTPProxyDialer.proxyType d ≠ HTTPS ∧
   HTTPProxyDialer.proxyType d ≠ HTTP2) →
  ∃ e s', HTTPProxyDialer.DialContext d ctx network addr s = Done (Err e) s' ∧
    dialed s' = dialed s ∧ conns s' = conns s ∧ pool s' = pool s ∧
    e = (if negb (HTTPProxyDialer.is_tcp network)
         then WrapError ErrUnsupportedProxy ("unsupported network type: " +:+ network)
         else match ctx_Err ctx (clock s) with
              | Some ce => if bool_decide (ce = context_DeadlineExceeded)
                           then ErrContextDeadlineExceeded else ErrContextCanceled
              | None => WrapError ErrUnsupportedProxy
                          (ProxyType_string (HTTPProxyDialer.proxyType d))
              end) ∧
    (HTTPProxyDialer.is_tcp network = false ∨ ctx_Err ctx (clock s) = None →
     errors_Is e ErrUnsupportedProxy = true).
Proof.
  intros Hcase. unfold HTTPProxyDialer.DialContext.
  unfold bind at 1, time_Now, gets at 1.
  destruct (when_sink_step (HTTPProxyDialer.metrics d)
    (λ m, MkMetrics (activeConns m) (int64 (totalConns m + 1)) (failedConns m)
              (int64 (totalDuration m + 0)) (errorTypes m) (protocolStats m)) s) as [m' Hrun].
  unfold bind at 1. unfold MetricsCollector.RecordConnection. rewrite Hrun.
  destruct (HTTPProxyDialer.is_tcp network) eqn:Htcp; cbn [negb]; cbv iota.
  - unfold bind at 1, time_Now, gets at 1.
    change (clock (set_mc m' s)) with (clock s).
    destruct (ctx_Err ctx (clock s)) as [ce|] eqn:Hctx.
    + case_bool_decide; unfold ret; eexists _, _; (split; [reflexivity|]);
        repeat split; try done; intros [?|?]; done.
    + destruct Hcase as [?|[[? ?]|(H1 & H2 & H3)]]; [done|done|].
      destruct (HTTPProxyDialer.proxyType d) eqn:Hty; try done;
        unfold bind, ret; eexists _, _; (split; [reflexivity|]); repeat split; done.
  - unfold ret. eexists _, _. split; [reflexivity|]. repeat split; done.
Qed.

Lemma http_dial_refusals_witness :
  ∃ s', HTTPProxyDialer.DialContext (L := GoStd_lib) http_dialer canceled "tcp"
          "example.com:443" http_407_world = Done (Err ErrContextCanceled) s' ∧
        dialed s' = [].
Proof.
  destruct (http_dial_refusals (L := GoStd_lib) http_dialer canceled "tcp"
              "example.com:443" http_407_world) as (e & s' & Hrun & Hd & _ & _ & He & _).
  - right. left. eexists. reflexivity.
  - exists s'. rewrite Hrun, He. split; [reflexivity|exact Hd].
Defined.

(** X8 (HTTPProxyDialer.dialHTTP, dialHTTPS).  When the proxy answers the
    CONNECT with a response (its head, and as much of its body as
    [Body.Close] reads) of a status other than 200, [dialHTTP] closes the
    socket it opened before it returns the error.  [dialHTTPS] does not: its
    deferred close tests the [err] of the connect, which the later
    [if err := ...; err != nil] statements shadow, so after a refused CONNECT,
    and likewise after a failed TLS handshake, it returns the error and leaves
    the socket to the proxy open. *)
Theorem dialHTTPS_leaves_socket_open `{L : GoLib} (d : HTTPProxyDialer.t) ctx addr
    s script code status rest :
  in_time ctx (clock s) →
  answers s (HTTPProxyDialer.proxyURL_Host d) script → fresh_socket script →
  response_arrived (inbox script) code status rest →
  code ≠ 200 →
  HTTPProxyDialer.tlsConfig d = true →
  let c := length (conns s) in
  (∃ e s', HTTPProxyDialer.dialHTTP d ctx addr s = Done (Err e) s' ∧
     closes (conn_of s' c) = 1%nat) ∧
  (tls_ok script = true →
   ∃ e s', HTTPProxyDialer.dialHTTPS d ctx addr s = Done (Err e) s' ∧
     length (conns s') = S c ∧ closes (conn_of s' c) = 0%nat) ∧
  (tls_ok script = false →
   ∃ s', HTTPProxyDialer.dialHTTPS d ctx addr s =
           Done (Err (WrapError ErrTLSHandshake "tls: handshake failure")) s' ∧
     length (conns s') = S c ∧ closes (conn_of s' c) = 0%nat).
Proof.
  intros Hctx Hans Hfresh Harr Hcode Htls c. subst c.
  pose proof Hfresh as (Hkind & Hopen & _).
  assert (Hverdict : ∃ e, connect_verdict code status = Some e).
  { unfold connect_verdict. repeat case_bool_decide; try lia; eauto. }
  destruct Hverdict as [e He].
  split; [|split].
  - unfold HTTPProxyDialer.dialHTTP.
    unfold bind at 1, net_Dialer_DialContext, bind at 1, time_Now, gets at 1.
    rewrite (in_time_no_err _ _ Hctx).
    rewrite (connect_answers s _ script Hans). cbv beta iota.
    set (s0 := set_dialed _ s).
    destruct (sendConnectRequest_arrived d addr (conns s) script s0 code status rest)
      as (cs' & Hrun & Hcl & Hk & _); [by apply usable_fresh|done|done|].
    unfold bind at 1. rewrite Hrun, He. cbv beta iota.
    unfold bind. rewrite conn_Close_last by congruence. unfold ret.
    eexists _, _. split; [reflexivity|]. rewrite conn_of_last. simpl. congruence.
  - intros Hok. unfold HTTPProxyDialer.dialHTTPS.
    rewrite Htls. cbn [negb]. cbv iota.
    unfold bind at 1, net_Dialer_DialContext, bind at 1, time_Now, gets at 1.
    rewrite (in_time_no_err _ _ Hctx).
    rewrite (connect_answers s _ script Hans). cbv beta iota.
    set (s0 := set_dialed _ s).
    unfold bind at 1, tls_Handshake, bind at 1, time_Now, gets at 1.
    unfold bind at 1, get_conn, gets at 1. rewrite conn_of_last.
    change (clock (set_conns (conns s ++ [script]) s0)) with (clock s).
    rewrite (in_time_no_err _ _ Hctx). unfold is_closed.
    rewrite Hopen, Hok. rewrite bool_decide_false by lia. unfold ret at 1. cbv beta iota.
    destruct (sendConnectRequest_arrived d addr (conns s) script s0 code status rest)
      as (cs' & Hrun & Hcl & Hk & _); [by apply usable_fresh|done|done|].
    unfold bind at 1. rewrite Hrun, He. cbv beta iota. unfold ret.
    eexists _, _. split; [reflexivity|]. rewrite conn_of_last. simpl.
    rewrite length_app. simpl. split; [lia|congruence].
  - intros Hok. unfold HTTPProxyDialer.dialHTTPS.
    rewrite Htls. cbn [negb]. cbv iota.
    unfold bind at 1, net_Dialer_DialContext, bind at 1, time_Now, gets at 1.
    rewrite (in_time_no_err _ _ Hctx).
    rewrite (connect_answers s _ script Hans). cbv beta iota.
    set (s0 := set_dialed _ s).
    unfold bind at 1, tls_Handshake, bind at 1, time_Now, gets at 1.
    unfold bind at 1, get_conn, gets at 1. rewrite conn_of_last.
    change (clock (set_conns (conns s ++ [script]) s0)) with (clock s).
    rewrite (in_time_no_err _ _ Hctx). unfold is_closed.
    rewrite Hopen, Hok. rewrite bool_decide_false by lia. unfold ret. cbv beta iota.
    eexists. split; [reflexivity|]. rewrite conn_of_last. simpl.
    rewrite length_app. simpl. split; [lia|congruence].
Qed.

Lemma dialHTTPS_leaves_socket_open_witness :
  ∃ e s', HTTPProxyDialer.dialHTTPS (L := GoStd_lib) https_dialer Background
            "example.com:443" https_407_world = Done (Err e) s' ∧
          closes (conn_of s' 0) = 0%nat.
Proof.
  destruct (dialHTTPS_leaves_socket_open (L := GoStd_lib) https_dialer Background
              "example.com:443" https_407_world
              (ConnState KSocket
                 (bytes_of "HTTP/1.1 407 Proxy Authentication Required" ++ [13; 10; 13; 10])
                 PeerSilent [] 0 None None true None)
              407 "407 Proxy Authentication Required" [])
    as (_ & Hs & _).
  - split; [reflexivity|exact I].
  - exists 0%nat. reflexivity.
  - repeat split; simpl; discriminate.
  - eexists _, [], _. split; [split; [discriminate|split]|].
    + apply pulls_stop. reflexivity.
    + reflexivity.
    + apply pulls_stop. reflexivity.
  - discriminate.
  - reflexivity.
  - destruct (Hs eq_refl) as (e & s' & Hrun & _ & Hcl).
    exists e, s'. split; [exact Hrun|exact Hcl].
Defined.

(** X9 (HTTPProxyDialer.dialHTTP2).  Through an HTTP/2 proxy every status
    other than 200 comes back as ErrProxyProtocol wrapped with the status
    text, 407 included: unlike the HTTP and HTTPS paths, this one never
    returns ErrHTTPProxyAuth.  On 200 the dialer returns a connection of its
    own, the tunnel, which is not the socket to the proxy. *)
Theorem dialHTTP2_status `{L : GoLib} (d : HTTPProxyDialer.t) ctx addr s script code status :
  http_NewRequest ("https://" +:+ HTTPProxyDialer.proxyURL_Host d) = None →
  in_time ctx (clock s) →
  answers s (HTTPProxyDialer.proxyURL_Host d) script → fresh_socket script →
  tls_ok script = true → h2_reply script = Some (code, status) →
  let c := length (conns s) in
  ∃ r s', HTTPProxyDialer.dialHTTP2 d ctx addr s = Done r s' ∧
    dialed s' = dialed s ++ [HTTPProxyDialer.proxyURL_Host d] ∧
    (code = 200 → r = Ok (S c) ∧ kind (conn_of s' (S c)) = KHTTP2 ∧
                  closes (conn_of s' (S c)) = 0%nat) ∧
    (code ≠ 200 → r = Err (WrapError ErrProxyProtocol status) ∧
                  errors_Is (WrapError ErrProxyProtocol status) ErrHTTPProxyAuth = false).
Proof.
  intros Hreq Hctx Hans Hfresh Hok Hreply c. subst c.
  pose proof Hfresh as (Hkind & Hopen & _).
  unfold HTTPProxyDialer.dialHTTP2. rewrite Hreq.
  unfold bind at 1, HTTPProxyDialer.http2_Do.
  unfold bind at 1, net_Dialer_DialContext, bind at 1, time_Now, gets at 1.
  rewrite (in_time_no_err _ _ Hctx).
  rewrite (connect_answers s _ script Hans). cbv beta iota.
  set (s0 := set_dialed _ s).
  unfold bind at 1, tls_Handshake, bind at 1, time_Now, gets at 1.
  unfold bind at 1, get_conn, gets at 1. rewrite conn_of_last.
  change (clock (set_conns (conns s ++ [script]) s0)) with (clock s).
  rewrite (in_time_no_err _ _ Hctx). unfold is_closed.
  rewrite Hopen, Hok. rewrite bool_decide_false by lia. unfold ret at 1. cbv beta iota.
  unfold bind at 1, get_conn, gets at 1. rewrite conn_of_last. rewrite Hreply.
  unfold ret at 1. cbv beta iota.
  case_bool_decide as Hcode; cbn [negb]; cbv iota.
  - unfold bind, new_conn, bind, gets, modify, ret. simpl.
    eexists _, _. split; [reflexivity|]. split; [done|].
    split; [|done]. intros _. split; [by rewrite length_app; simpl; f_equal; f_equal; lia|].
    unfold conn_of. simpl.
    replace (S (length (conns s))) with (length (conns s ++ [script])) by (rewrite length_app; simpl; lia).
    by rewrite lookup_app_r, Nat.sub_diag by lia.
  - unfold ret. eexists _, _. split; [reflexivity|]. split; [done|]. split; [done|].
    intros _. done.
Qed.

Lemma dialHTTP2_status_witness :
  ∃ s', HTTPProxyDialer.dialHTTP2 (L := GoStd_lib) http2_dialer Background
          "example.com:443" http2_407_world =
        Done (Err (WrapError ErrProxyProtocol "407 Proxy Authentication Required")) s'.
Proof.
  destruct (dialHTTP2_status (L := GoStd_lib) http2_dialer Background
              "example.com:443" http2_407_world
              (ConnState KSocket [] PeerSilent [] 0 None None true
                 (Some (407, "407 Proxy Authentication Required")))
              407 "407 Proxy Authentication Required")
    as (r & s' & Hrun & _ & _ & Hbad).
  - reflexivity.
  - split; [reflexivity|exact I].
  - exists 0%nat. reflexivity.
  - repeat split; simpl; discriminate.
  - reflexivity.
  - reflexivity.
  - destruct Hbad as [Hr _]; [discriminate|].
    exists s'. rewrite Hrun, Hr. reflexivity.
Defined.

(** ** The SOCKS dialer: networks it refuses *)

(** X10 (SocksDialer.DialContext, validateNetwork, dialWithTimeout).  The
    SOCKS dialer answers ErrSOCKSNetworkNotSupported without a socket connect
    for every network that is neither a tcp nor a udp one, for a udp network
    when UDP is not enabled in its configuration, and for a udp network when
    the proxy is not a SOCKS5 one.  For a tcp network and a proxy type that is
    neither SOCKS4 nor SOCKS5 it answers ErrSOCKSVersionNotSupported, again
    without a connect. *)
Theorem socks_dial_refusals `{L : GoLib} (d : SocksDialer.t) ctx network addr s :
  let tcp := HTTPProxyDialer.is_tcp network in
  let udp := SocksDialer.is_udp network in
  (tcp = false ∧ (udp = false ∨ EnableUDP (SocksDialer.Config d) = false ∨
                  SocksDialer.proxyType d ≠ SOCKS5)) ∨
  (tcp = true ∧ SocksDialer.proxyType d ≠ SOCKS4 ∧ SocksDialer.proxyType d ≠ SOCKS5) →
  ∃ s', SocksDialer.DialContext d ctx network addr s =
          Done (Err (if tcp then ErrSOCKSVersionNotSupported
                     else ErrSOCKSNetworkNotSupported)) s' ∧
        dialed s' = dialed s ∧ conns s' = conns s ∧ pool s' = pool s.
Proof.
  intros tcp udp Hcase. unfold SocksDialer.DialContext.
  unfold bind at 1, time_Now, gets at 1.
  destruct (when_sink_step (SocksDialer.metrics d)
    (λ m, MkMetrics (activeConns m) (int64 (totalConns m + 1)) (failedConns m)
              (int64 (totalDuration m + 0)) (errorTypes m) (protocolStats m)) s) as [m' Hrun].
  unfold bind at 1. unfold MetricsCollector.RecordConnection. rewrite Hrun.
  unfold SocksDialer.validateNetwork.
  change (bool_decide (network = "tcp") || bool_decide (network = "tcp4") ||
          bool_decide (network = "tcp6")) with tcp.
  change (bool_decide (network = "udp") || bool_decide (network = "udp4") ||
          bool_decide (network = "udp6")) with udp.
  assert (Hfail : ∀ e s0, dialed s0 = dialed s → conns s0 = conns s → pool s0 = pool s →
    ∃ s', (when (SocksDialer.metrics d)
             (MetricsCollector.RecordFailure (SocksDialer.metrics d) e) ;;; ret (@Err nat e)) s0 =
          Done (Err e) s' ∧ dialed s' = dialed s ∧ conns s' = conns s ∧ pool s' = pool s).
  { intros e s0 ? ? ?. unfold bind.
    destruct (when_sink_step (SocksDialer.metrics d)
      (λ m, MkMetrics (activeConns m) (totalConns m) (int64 (failedConns m + 1))
              (totalDuration m) (errorTypes m) (protocolStats m)) s0) as [m'' Hrun'].
    unfold MetricsCollector.RecordFailure. rewrite Hrun'. unfold ret. eexists. split; [reflexivity|].
    done. }
  destruct Hcase as [[Htcp Hudp]|(Htcp & H4 & H5)]; rewrite Htcp.
  - destruct udp eqn:Hu.
    + destruct (EnableUDP (SocksDialer.Config d)) eqn:Hen; cbn [negb]; cbv iota.
      * destruct Hudp as [?|[?|Hty]]; [done|done|].
        fold udp. rewrite Hu. rewrite bool_decide_false by done. cbn [negb]. cbv iota.
        unfold ret. eexists. split; [reflexivity|]. done.
      * by apply Hfail.
    + by apply Hfail.
  - fold udp. assert (Hu : udp = false).
    { unfold tcp, udp, HTTPProxyDialer.is_tcp, SocksDialer.is_udp in *.
      repeat case_bool_decide; subst; try done. }
    rewrite Hu. unfold bind at 1, SocksDialer.dialWithTimeout.
    destruct (SocksDialer.proxyType d) eqn:Hty; try done; unfold ret at 1; cbv beta iota;
      by apply Hfail.
Qed.

Lemma socks_dial_refusals_witness :
  ∃ s', SocksDialer.DialContext (L := GoStd_lib) socks4_dialer Background "udp"
          "93.184.216.34:53" (socks4_world 90) = Done (Err ErrSOCKSNetworkNotSupported) s' ∧
        dialed s' = [].
Proof.
  destruct (socks_dial_refusals (L := GoStd_lib) socks4_dialer Background "udp"
              "93.184.216.34:53" (socks4_world 90)) as (s' & Hrun & Hd & _).
  - left. split; [reflexivity|]. right. left. reflexivity.
  - exists s'. split; [exact Hrun|exact Hd].
Defined.

(** ** SOCKS4 and SOCKS4a requests *)

Lemma byte_shr8 p : byte (shr p 8) = (p / 256) mod 256.
Proof. unfold byte, shr. by rewrite Z.shiftr_div_pow2 by lia. Qed.

Lemma byte_land255 p : byte (Z.land p 255) = p mod 256.
Proof.
  unfold byte. change 255 with (Z.ones 8). rewrite Z.land_ones by lia.
  change (2 ^ 8) with 256. by rewrite Z.mod_mod by lia.
Qed.

Lemma bytes_of_empty : bytes_of EmptyString = [].
Proof. done. Qed.

Lemma append_if_nonempty (req : list Z) (u : string) :
  (if nonempty u then req ++ bytes_of u else req) = req ++ bytes_of u.
Proof.
  unfold nonempty. case_bool_decide as Hu; simpl; [|done].
  by rewrite Hu, bytes_of_empty, app_nil_r.
Qed.

(** X11 (SocksDialer.dialSocks4).  The request [dialSocks4] writes, for any
    target: 04 01, the port (high byte first), then for an IPv4 literal its
    four bytes, the user-id and a zero byte; for a host name (SOCKS4a) the
    address 0.0.0.1, the user-id, a zero byte, the name and a zero byte.  It
    is the only thing written; when the proxy grants the request (second byte
    of its 8-byte reply 0x5A) the open socket is returned and what the proxy
    sent after the reply is left to read. *)
Theorem dialSocks4_request_frame `{L : GoLib} (d : SocksDialer.t) ctx addr host port portNum
    s script reply rest :
  net_SplitHostPort addr = Ok (host, port) →
  strconv_Atoi port = Ok portNum →
  (net_ParseIP host = None ∨ ∃ ip, net_ParseIP host = Some ip ∧ is_Some (To4 ip)) →
  answers s (SocksDialer.proxyURL d) script → fresh_socket script →
  inbox script = reply ++ rest → length reply = 8%nat → reply !! 1%nat = Some 90 →
  match ctx_deadline ctx with Some dl => clock s < dl | None => True end →
  let c := length (conns s) in
  let user := bytes_of (socks_User (SocksDialer.Config d)) in
  ∃ s', SocksDialer.dialSocks4 d ctx addr s = Done (Ok c) s' ∧
    closes (conn_of s' c) = 0%nat ∧ inbox (conn_of s' c) = rest ∧
    dialed s' = dialed s ++ [SocksDialer.proxyURL d] ∧
    outbox (conn_of s' c) =
      [[4; 1; (portNum / 256) mod 256; portNum mod 256] ++
       match net_ParseIP host with
       | Some ip => default [] (To4 ip) ++ user ++ [0]
       | None => [0; 0; 0; 1] ++ user ++ [0] ++ bytes_of host ++ [0]
       end].
Proof.
  intros Hsplit Hatoi Hhost Hans Hfresh Hin Hlen H90 Hdl c user. subst c.
  pose proof Hfresh as (Hk & Ho & Hr & Hw & Hp & Hout).
  pose proof (usable_with_deadline ctx (clock s) script Hfresh Hdl) as Hus.
  set (s0 := set_dialed (dialed s ++ [SocksDialer.proxyURL d]) s).
  assert (Hck0 : clock s0 = clock s) by done.
  rewrite <- Hck0 in Hus.
  assert (Hin1 : inbox (with_deadline ctx script) = reply ++ rest).
  { unfold with_deadline. by destruct (ctx_deadline ctx). }
  assert (Hout1 : outbox (with_deadline ctx script) = []).
  { unfold with_deadline. by destruct (ctx_deadline ctx). }
  assert (Hcl1 : closes (with_deadline ctx script) = 0%nat).
  { unfold with_deadline. by destruct (ctx_deadline ctx). }
  unfold SocksDialer.dialSocks4, net_DialTimeout.
  rewrite Hsplit, Hatoi.
  step_by (connect_answers s _ script Hans). fold s0.
  step_by (apply_deadline_last ctx (conns s) script s0 Ho Hk).
  rewrite byte_shr8, byte_land255.
  assert (Hframe : ∃ frame,
    match net_ParseIP host with
    | Some ip_ =>
        match To4 ip_ with
        | Some ip4 => Some ([4; 1; (portNum / 256) mod 256; portNum mod 256] ++ ip4)
        | None => None
        end
    | None => Some ([4; 1; (portNum / 256) mod 256; portNum mod 256] ++ [0; 0; 0; 1])
    end = Some frame ∧
    match net_ParseIP host with
    | Some _ => (if nonempty (socks_User (SocksDialer.Config d))
                 then frame ++ bytes_of (socks_User (SocksDialer.Config d)) else frame) ++ [0]
    | None => (((if nonempty (socks_User (SocksDialer.Config d))
                 then frame ++ bytes_of (socks_User (SocksDialer.Config d)) else frame) ++ [0])
               ++ bytes_of host) ++ [0]
    end =
    [4; 1; (portNum / 256) mod 256; portNum mod 256] ++
       match net_ParseIP host with
       | Some ip => default [] (To4 ip) ++ user ++ [0]
       | None => [0; 0; 0; 1] ++ user ++ [0] ++ bytes_of host ++ [0]
       end).
  { destruct Hhost as [Hnone|(ip & Hip & [ip4 Hip4])].
    - rewrite Hnone. eexists. split; [reflexivity|]. rewrite append_if_nonempty.
      fold user. by rewrite <- !app_assoc.
    - rewrite Hip, Hip4. eexists. split; [reflexivity|]. rewrite append_if_nonempty.
      fold user. simpl. by rewrite <- !app_assoc. }
  destruct Hframe as (frame & -> & Hreq). cbv beta iota zeta.
  rewrite Hreq.
  step_by (Write_last (conns s) _ s0
    ([4; 1; (portNum / 256) mod 256; portNum mod 256] ++
       match net_ParseIP host with
       | Some ip => default [] (To4 ip) ++ user ++ [0]
       | None => [0; 0; 0; 1] ++ user ++ [0] ++ bytes_of host ++ [0]
       end) Hus).
  set (cs2 := set_outbox _ _).
  assert (Hus2 : usable (clock s0) cs2) by (by apply usable_set_outbox).
  step_by (io_ReadFull_last (conns s) cs2 s0 8 reply rest Hus2 Hin1 Hlen).
  unfold at_. rewrite H90. simpl default.
  rewrite bool_decide_true by done. cbn [negb]. cbv iota. unfold ret.
  eexists. split; [reflexivity|]. rewrite conn_of_last.
  split; [done|]. split; [done|]. split; [done|].
  simpl. by rewrite Hout1.
Qed.

Lemma dialSocks4_request_frame_witness :
  ∃ s', SocksDialer.dialSocks4 (L := GoStd_lib) socks4_dialer Background "example.com:80"
          (socks4_world 90) = Done (Ok 0%nat) s' ∧
        outbox (conn_of s' 0) =
          [[4; 1; 0; 80; 0; 0; 0; 1; 0] ++ bytes_of "example.com" ++ [0]].
Proof.
  destruct (dialSocks4_request_frame (L := GoStd_lib) socks4_dialer Background
              "example.com:80" "example.com" "80" 80 (socks4_world 90)
              (quiet_socket [0; 90; 0; 0; 0; 0; 0; 0]) [0; 90; 0; 0; 0; 0; 0; 0] [])
    as (s' & Hrun & _ & _ & _ & Hout).
  - reflexivity.
  - reflexivity.
  - left. reflexivity.
  - exists 0%nat. reflexivity.
  - repeat split; simpl; discriminate.
  - reflexivity.
  - reflexivity.
  - reflexivity.
  - exact I.
  - exists s'. split; [exact Hrun|exact Hout].
Defined.

(** X12 (SocksDialer.dialSocks4, dialSocks5).  A target that cannot be
    taken apart ([net.SplitHostPort] fails, or the port is no number) is found
    out by [dialSocks4] before it connects: it returns the error and nothing
    has happened.  [dialSocks5] finds out after it has connected to the proxy
    and negotiated the method: it sends its greeting, reads the proxy's
    choice, then closes the socket and returns the error. *)
Theorem socks_malformed_target `{L : GoLib} (d : SocksDialer.t) ctx addr s script e m rest :
  (net_SplitHostPort addr = Err e ∨
   ∃ host port, net_SplitHostPort addr = Ok (host, port) ∧ strconv_Atoi port = Err e) →
  answers s (SocksDialer.proxyURL d) script → fresh_socket script →
  inbox script = [5; m] ++ rest → m ≠ 2 →
  match ctx_deadline ctx with Some dl => clock s < dl | None => True end →
  let c := length (conns s) in
  SocksDialer.dialSocks4 d ctx addr s = Done (Err e) s ∧
  ∃ s', SocksDialer.dialSocks5 d ctx addr s = Done (Err e) s' ∧
    dialed s' = dialed s ++ [SocksDialer.proxyURL d] ∧
    length (outbox (conn_of s' c)) = 1%nat ∧
    closes (conn_of s' c) = 1%nat.
Proof.
  intros Hbad Hans Hfresh Hin Hm Hdl c. subst c. split.
  - unfold SocksDialer.dialSocks4.
    destruct Hbad as [->|(host & port & -> & ->)]; done.
  - pose proof Hfresh as (Hk & Ho & Hr & Hw & Hp & Hout).
    pose proof (usable_with_deadline ctx (clock s) script Hfresh Hdl) as Hus.
    set (s0 := set_dialed (dialed s ++ [SocksDialer.proxyURL d]) s).
    assert (Hck0 : clock s0 = clock s) by done.
    rewrite <- Hck0 in Hus.
    assert (Hin1 : inbox (with_deadline ctx script) = [5; m] ++ rest).
    { unfold with_deadline. by destruct (ctx_deadline ctx). }
    assert (Hout1 : outbox (with_deadline ctx script) = []).
    { unfold with_deadline. by destruct (ctx_deadline ctx). }
    assert (Hcl1 : closes (with_deadline ctx script) = 0%nat).
    { unfold with_deadline. by destruct (ctx_deadline ctx). }
    unfold SocksDialer.dialSocks5, net_DialTimeout.
    step_by (connect_answers s _ script Hans). fold s0.
    step_by (apply_deadline_last ctx (conns s) script s0 Ho Hk).
    step_by (Write_last (conns s) (with_deadline ctx script) s0
      ([5; byte (Z.of_nat (length
          (if nonempty (socks_User (SocksDialer.Config d)) &&
              nonempty (socks_Pass (SocksDialer.Config d)) then [2] else [0])))] ++
       (if nonempty (socks_User (SocksDialer.Config d)) &&
           nonempty (socks_Pass (SocksDialer.Config d)) then [2] else [0])) Hus).
    set (cs2 := set_outbox _ _).
    assert (Hus2 : usable (clock s0) cs2) by (by apply usable_set_outbox).
    step_by (io_ReadFull_last (conns s) cs2 s0 2 [5; m] rest Hus2 Hin1 eq_refl).
    change (at_ [5; m] 0) with 5. change (at_ [5; m] 1) with m.
    rewrite bool_decide_true by done. rewrite (bool_decide_false (m = 2)) by done.
    cbn [negb]. cbv beta iota. unfold bind at 1. unfold ret at 1. cbv beta iota.
    set (cs3 := set_inbox rest cs2).
    assert (Hk3 : kind cs3 = KSocket).
    { unfold cs3, cs2. simpl. by rewrite kind_with_deadline. }
    assert (Hend : (conn_Close (Some (length (conns s))) ;;; ret (@Err nat e))
                     (set_conns (conns s ++ [cs3]) s0) =
                   Done (Err e) (set_conns (conns s ++ [set_closes (S (closes cs3)) cs3]) s0)).
    { unfold bind. by rewrite conn_Close_last. }
    destruct Hbad as [->|(host & port & -> & ->)]; rewrite Hend;
      (eexists; split; [reflexivity|]); rewrite conn_of_last; simpl;
      rewrite Hout1, Hcl1; done.
Qed.

Lemma socks_malformed_target_witness :
  ∃ e s', SocksDialer.dialSocks5 (L := GoStd_lib) socks5_dialer Background "example.com"
            socks5_world = Done (Err e) s' ∧
          dialed s' = ["127.0.0.1:1080"] ∧ closes (conn_of s' 0) = 1%nat.
Proof.
  destruct (socks_malformed_target (L := GoStd_lib) socks5_dialer Background "example.com"
              socks5_world (quiet_socket ([5; 0] ++ [5; 0; 0; 1; 0; 0; 0; 0; 0; 0]))
              (GoStd.AddrError "missing port in address" "example.com") 0
              [5; 0; 0; 1; 0; 0; 0; 0; 0; 0])
    as (_ & s' & Hrun & Hd & _ & Hcl).
  - left. reflexivity.
  - exists 0%nat. reflexivity.
  - repeat split; simpl; discriminate.
  - reflexivity.
  - discriminate.
  - exact I.
  - eexists _, s'. split; [exact Hrun|]. split; [exact Hd|exact Hcl].
Defined.

(** X13 (SocksDialer.dialSocks4).  SOCKS4 has no IPv6 addresses: for a
    target whose host is an IPv6 literal [dialSocks4] connects to the proxy,
    writes nothing, closes the socket and returns
    ErrSOCKSAddressTypeNotSupported. *)
Theorem dialSocks4_rejects_ipv6 `{L : GoLib} (d : SocksDialer.t) ctx addr host port portNum ip
    s script :
  net_SplitHostPort addr = Ok (host, port) →
  strconv_Atoi port = Ok portNum →
  net_ParseIP host = Some ip → To4 ip = None →
  answers s (SocksDialer.proxyURL d) script → fresh_socket script →
  let c := length (conns s) in
  ∃ s', SocksDialer.dialSocks4 d ctx addr s =
          Done (Err ErrSOCKSAddressTypeNotSupported) s' ∧
    dialed s' = dialed s ++ [SocksDialer.proxyURL d] ∧
    outbox (conn_of s' c) = [] ∧ closes (conn_of s' c) = 1%nat.
Proof.
  intros Hsplit Hatoi Hip Hto4 Hans Hfresh c. subst c.
  pose proof Hfresh as (Hk & Ho & Hr & Hw & Hp & Hout).
  set (s0 := set_dialed (dialed s ++ [SocksDialer.proxyURL d]) s).
  unfold SocksDialer.dialSocks4, net_DialTimeout.
  rewrite Hsplit, Hatoi.
  step_by (connect_answers s _ script Hans). fold s0.
  step_by (apply_deadline_last ctx (conns s) script s0 Ho Hk).
  rewrite Hip, Hto4. cbv beta iota.
  unfold bind. rewrite conn_Close_last by (by rewrite kind_with_deadline). unfold ret.
  eexists. split; [reflexivity|]. rewrite conn_of_last. simpl.
  unfold with_deadline. destruct (ctx_deadline ctx); simpl; rewrite Hout, Ho; done.
Qed.

Lemma dialSocks4_rejects_ipv6_witness :
  ∃ s', SocksDialer.dialSocks4 (L := GoStd6_lib) socks4_dialer Background "[::1]:80"
          (socks4_world 90) = Done (Err ErrSOCKSAddressTypeNotSupported) s' ∧
        outbox (conn_of s' 0) = [] ∧ closes (conn_of s' 0) = 1%nat.
Proof.
  destruct (dialSocks4_rejects_ipv6 (L := GoStd6_lib) socks4_dialer Background
              "[::1]:80" "::1" "80" 80 (replicate 15 0 ++ [1]) (socks4_world 90)
              (quiet_socket [0; 90; 0; 0; 0; 0; 0; 0]))
    as (s' & Hrun & _ & Hout & Hcl).
  - reflexivity.
  - reflexivity.
  - reflexivity.
  - reflexivity.
  - exists 0%nat. reflexivity.
  - repeat split; simpl; discriminate.
  - exists s'. split; [exact Hrun|]. split; [exact Hout|exact Hcl].
Defined.

(** ** SOCKS5: the negotiation in general *)

Lemma skip_bound_last `{L : GoLib} l cs s0 atyp bound rest :
  usable (clock s0) cs → inbox cs = bound ++ rest → bound_for atyp bound →
  ∃ cs', SocksDialer.skip_bound (length l) atyp (set_conns (l ++ [cs]) s0) =
           Done None (set_conns (l ++ [cs']) s0) ∧
         inbox cs' = rest ∧ closes cs' = closes cs ∧ outbox cs' = outbox cs.
Proof.
  intros Hus Hin Hb. unfold SocksDialer.skip_bound, bound_for in *.
  case_bool_decide.
  { rewrite (io_CopyN_Discard_last l cs s0 (4 + 2) bound rest Hus Hin Hb).
    eexists. split; [reflexivity|]. done. }
  case_bool_decide.
  { destruct Hb as (len_ & name & -> & Hname).
    step_by (io_ReadFull_last l cs s0 1 [len_] (name ++ rest) Hus Hin eq_refl).
    change (at_ [len_] 0) with len_.
    set (cs1 := set_inbox _ cs).
    assert (Hus1 : usable (clock s0) cs1) by (by apply usable_set_inbox).
    rewrite (io_CopyN_Discard_last l cs1 s0 (Z.to_nat len_ + 2) name rest Hus1 eq_refl Hname).
    eexists. split; [reflexivity|]. done. }
  case_bool_decide.
  { rewrite (io_CopyN_Discard_last l cs s0 (16 + 2) bound rest Hus Hin Hb).
    eexists. split; [reflexivity|]. done. }
  subst bound. exists cs. split; [done|]. done.
Qed.

Lemma authenticateSocks5_last (d : SocksDialer.t) l cs s0 av st more :
  usable (clock s0) cs → inbox cs = [av; st] ++ more →
  let user := bytes_of (socks_User (SocksDialer.Config d)) in
  let pass := bytes_of (socks_Pass (SocksDialer.Config d)) in
  let frame := [1; Z.of_nat (length user) mod 256] ++ user ++
               [Z.of_nat (length pass) mod 256] ++ pass in
  SocksDialer.authenticateSocks5 d (length l) (set_conns (l ++ [cs]) s0) =
  Done (if bool_decide (st = 0) then None else Some ErrSOCKSAuthFailed)
       (set_conns (l ++ [set_inbox more (set_outbox (outbox cs ++ [frame]) cs)]) s0).
Proof.
  intros Hus Hin user pass frame. unfold SocksDialer.authenticateSocks5.
  fold user. fold pass.
  replace ((([1; byte (Z.of_nat (length user))] ++ user) ++
            [byte (Z.of_nat (length pass))]) ++ pass) with frame
    by (unfold frame, byte; by rewrite <- !app_assoc).
  step_by (Write_last l cs s0 frame Hus).
  set (cs1 := set_outbox _ cs).
  assert (Hus1 : usable (clock s0) cs1) by (by apply usable_set_outbox).
  step_by (io_ReadFull_last l cs1 s0 2 [av; st] more Hus1 Hin eq_refl).
  change (at_ [av; st] 1) with st.
  by case_bool_decide.
Qed.

(** What [dialSocks5] does against a proxy that accepts the connection and
    answers the greeting with [05 m], the sub-negotiation (when [m] is 02)
    with status 00, and the request with [v rep rsv atyp] and a bound
    address. *)
Lemma dialSocks5_run `{L : GoLib} (d : SocksDialer.t) ctx addr host port portNum
    s script m areply v rep rsv atyp bound rest :
  net_SplitHostPort addr = Ok (host, port) →
  strconv_Atoi port = Ok portNum →
  answers s (SocksDialer.proxyURL d) script → fresh_socket script →
  match ctx_deadline ctx with Some dl => clock s < dl | None => True end →
  inbox script = [5; m] ++ areply ++ [v; rep; rsv; atyp] ++ bound ++ rest →
  (if bool_decide (m = 2) then ∃ av, areply = [av; 0] else areply = []) →
  (rep = 0 → bound_for atyp bound) →
  let c := length (conns s) in
  let user := bytes_of (socks_User (SocksDialer.Config d)) in
  let pass := bytes_of (socks_Pass (SocksDialer.Config d)) in
  ∃ r s', SocksDialer.dialSocks5 d ctx addr s = Done r s' ∧
    dialed s' = dialed s ++ [SocksDialer.proxyURL d] ∧
    outbox (conn_of s' c) =
      [[5; 1; if nonempty (socks_User (SocksDialer.Config d)) &&
                 nonempty (socks_Pass (SocksDialer.Config d)) then 2 else 0]] ++
      (if bool_decide (m = 2)
       then [[1; Z.of_nat (length user) mod 256] ++ user ++
             [Z.of_nat (length pass) mod 256] ++ pass]
       else []) ++
      [SocksDialer.socks5_request host portNum] ∧
    (rep = 0 → r = Ok c ∧ closes (conn_of s' c) = 0%nat ∧ inbox (conn_of s' c) = rest) ∧
    (rep ≠ 0 → r = Err ErrSOCKSConnectFailed ∧ closes (conn_of s' c) = 1%nat).
Proof.
  intros Hsplit Hatoi Hans Hfresh Hdl Hin Hareply Hbound c user pass. subst c.
  pose proof Hfresh as (Hk & Ho & Hr & Hw & Hp & Hout).
  pose proof (usable_with_deadline ctx (clock s) script Hfresh Hdl) as Hus.
  set (s0 := set_dialed (dialed s ++ [SocksDialer.proxyURL d]) s).
  assert (Hck0 : clock s0 = clock s) by done.
  rewrite <- Hck0 in Hus.
  assert (Hin1 : inbox (with_deadline ctx script) =
                 [5; m] ++ areply ++ [v; rep; rsv; atyp] ++ bound ++ rest).
  { unfold with_deadline. by destruct (ctx_deadline ctx). }
  assert (Hout1 : outbox (with_deadline ctx script) = []).
  { unfold with_deadline. by destruct (ctx_deadline ctx). }
  assert (Hcl1 : closes (with_deadline ctx script) = 0%nat).
  { unfold with_deadline. by destruct (ctx_deadline ctx). }
  unfold SocksDialer.dialSocks5, net_DialTimeout.
  step_by (connect_answers s _ script Hans). fold s0.
  step_by (apply_deadline_last ctx (conns s) script s0 Ho Hk).
  set (greeting := [5; byte (Z.of_nat (length _))] ++ _).
  assert (Hgreet : greeting =
    [5; 1; if nonempty (socks_User (SocksDialer.Config d)) &&
              nonempty (socks_Pass (SocksDialer.Config d)) then 2 else 0]).
  { unfold greeting. by destruct (nonempty _ && nonempty _). }
  step_by (Write_last (conns s) (with_deadline ctx script) s0 greeting Hus).
  set (cs2 := set_outbox _ _).
  assert (Hus2 : usable (clock s0) cs2) by (by apply usable_set_outbox).
  step_by (io_ReadFull_last (conns s) cs2 s0 2 [5; m]
             (areply ++ [v; rep; rsv; atyp] ++ bound ++ rest) Hus2 Hin1 eq_refl).
  change (at_ [5; m] 0) with 5. change (at_ [5; m] 1) with m.
  rewrite bool_decide_true by done. cbn [negb]. cbv beta iota.
  set (cs3 := set_inbox _ cs2).
  assert (Hus3 : usable (clock s0) cs3) by (by apply usable_set_inbox).
  (* the sub-negotiation, if the proxy asked for it *)
  assert (Hauth : ∃ cs4,
    (if bool_decide (m = 2) then SocksDialer.authenticateSocks5 d (length (conns s))
     else ret None) (set_conns (conns s ++ [cs3]) s0) =
    Done None (set_conns (conns s ++ [cs4]) s0) ∧
    usable (clock s0) cs4 ∧ kind cs4 = KSocket ∧ closes cs4 = 0%nat ∧
    inbox cs4 = [v; rep; rsv; atyp] ++ bound ++ rest ∧
    outbox cs4 = [greeting] ++
      (if bool_decide (m = 2)
       then [[1; Z.of_nat (length user) mod 256] ++ user ++
             [Z.of_nat (length pass) mod 256] ++ pass]
       else [])).
  { case_bool_decide.
    - destruct Hareply as [av ->].
      rewrite (authenticateSocks5_last d (conns s) cs3 s0 av 0
                 ([v; rep; rsv; atyp] ++ bound ++ rest) Hus3 eq_refl).
      rewrite bool_decide_true by done.
      eexists. split; [reflexivity|].
      split; [by apply usable_set_inbox, usable_set_outbox|].
      split; [simpl; by rewrite kind_with_deadline|].
      split; [done|]. split; [done|]. simpl. by rewrite Hout1.
    - subst areply. exists cs3. split; [done|]. split; [done|].
      split; [simpl; by rewrite kind_with_deadline|].
      split; [done|]. split; [done|]. simpl. by rewrite Hout1. }
  destruct Hauth as (cs4 & Hrun4 & Hus4 & Hk4 & Hcl4 & Hin4 & Hout4).
  unfold bind at 1. rewrite Hrun4. cbv beta iota.
  rewrite Hsplit, Hatoi.
  step_by (Write_last (conns s) cs4 s0 (SocksDialer.socks5_request host portNum) Hus4).
  set (cs5 := set_outbox _ cs4).
  assert (Hus5 : usable (clock s0) cs5) by (by apply usable_set_outbox).
  step_by (io_ReadFull_last (conns s) cs5 s0 4 [v; rep; rsv; atyp]
             (bound ++ rest) Hus5 Hin4 eq_refl).
  change (at_ [v; rep; rsv; atyp] 1) with rep. change (at_ [v; rep; rsv; atyp] 3) with atyp.
  set (cs6 := set_inbox _ cs5).
  assert (Hus6 : usable (clock s0) cs6) by (by apply usable_set_inbox).
  assert (Hout6 : outbox cs6 = [greeting] ++
      (if bool_decide (m = 2)
       then [[1; Z.of_nat (length user) mod 256] ++ user ++
             [Z.of_nat (length pass) mod 256] ++ pass]
       else []) ++ [SocksDialer.socks5_request host portNum]).
  { simpl. rewrite Hout4. by rewrite <- app_assoc. }
  destruct (decide (rep = 0)) as [Hrep|Hrep].
  - rewrite bool_decide_true by done. cbn [negb]. cbv iota.
    destruct (skip_bound_last (conns s) cs6 s0 atyp bound rest Hus6 eq_refl (Hbound Hrep))
      as (cs7 & Hrun7 & Hin7 & Hcl7 & Hout7).
    unfold bind at 1. rewrite Hrun7. cbv beta iota. unfold ret.
    eexists _, _. split; [reflexivity|]. split; [done|]. rewrite conn_of_last.
    split; [by rewrite Hout7, Hout6, Hgreet|].
    split; [|done]. intros _. split; [done|]. split; [|done].
    rewrite Hcl7. done.
  - rewrite bool_decide_false by done. cbn [negb]. cbv iota.
    unfold bind. rewrite conn_Close_last by done. unfold ret.
    eexists _, _. split; [reflexivity|]. split; [done|]. rewrite conn_of_last.
    split; [simpl; by rewrite Hout4, Hgreet, <- app_assoc|].
    split; [done|]. intros _. split; [done|]. simpl. by rewrite Hcl4.
Qed.

(** X14 (SocksDialer.dialSocks5).  [dialSocks5] does not compare the method
    the proxy selects with what it offered.  Whatever byte other than 02
    follows the version in the answer to the greeting, FF (no acceptable
    method) included, it goes on as if no authentication were asked for: it
    sends the request, and when the proxy grants it, returns the open
    socket. *)
Theorem dialSocks5_selected_method_unchecked `{L : GoLib} (d : SocksDialer.t) ctx addr
    host port portNum s script m rest :
  net_SplitHostPort addr = Ok (host, port) →
  strconv_Atoi port = Ok portNum →
  answers s (SocksDialer.proxyURL d) script → fresh_socket script →
  match ctx_deadline ctx with Some dl => clock s < dl | None => True end →
  inbox script = [5; m] ++ [5; 0; 0; 1; 0; 0; 0; 0; 0; 0] ++ rest →
  m ≠ 2 →
  let c := length (conns s) in
  ∃ s', SocksDialer.dialSocks5 d ctx addr s = Done (Ok c) s' ∧
    closes (conn_of s' c) = 0%nat ∧ inbox (conn_of s' c) = rest ∧
    outbox (conn_of s' c) =
      [[5; 1; if nonempty (socks_User (SocksDialer.Config d)) &&
                 nonempty (socks_Pass (SocksDialer.Config d)) then 2 else 0];
       SocksDialer.socks5_request host portNum].
Proof.
  intros Hsplit Hatoi Hans Hfresh Hdl Hin Hm c.
  destruct (dialSocks5_run d ctx addr host port portNum s script m [] 5 0 0 1
              [0; 0; 0; 0; 0; 0] rest Hsplit Hatoi Hans Hfresh Hdl)
    as (r & s' & Hrun & _ & Hout & Hok & _).
  - done.
  - by rewrite bool_decide_false.
  - intros _. reflexivity.
  - destruct (Hok eq_refl) as (-> & Hcl & Hinb).
    exists s'. split; [done|]. split; [done|]. split; [done|].
    fold c in Hout. rewrite Hout. by rewrite bool_decide_false.
Qed.

Lemma dialSocks5_selected_method_unchecked_witness :
  ∃ s', SocksDialer.dialSocks5 (L := GoStd_lib) socks5_dialer Background "example.com:443"
          (socks5_world_with 255 [5; 0; 0; 1; 0; 0; 0; 0; 0; 0]) = Done (Ok 0%nat) s' ∧
        closes (conn_of s' 0) = 0%nat.
Proof.
  destruct (dialSocks5_selected_method_unchecked (L := GoStd_lib) socks5_dialer Background
              "example.com:443" "example.com" "443" 443
              (socks5_world_with 255 [5; 0; 0; 1; 0; 0; 0; 0; 0; 0])
              (quiet_socket ([5; 255] ++ [5; 0; 0; 1; 0; 0; 0; 0; 0; 0])) 255 [])
    as (s' & Hrun & Hcl & _).
  - reflexivity.
  - reflexivity.
  - exists 0%nat. reflexivity.
  - repeat split; simpl; discriminate.
  - exact I.
  - reflexivity.
  - discriminate.
  - exists s'. split; [exact Hrun|exact Hcl].
Defined.

(** X15 (SocksDialer.dialSocks5).  How [dialSocks5] reads the reply to its
    request.  Of the four bytes of its head only the second, the reply code,
    and the fourth, the address type, are looked at.  Any code other than 00
    closes the socket and gives ErrSOCKSConnectFailed, whatever the code.
    With code 00 the bound address is skipped by its type: 4+2 bytes for 01,
    a length byte and that many plus 2 bytes for 03, 16+2 bytes for 04; for
    any other type nothing is skipped.  The open socket is returned with what
    followed still to be read. *)
Theorem dialSocks5_reply_handling `{L : GoLib} (d : SocksDialer.t) ctx addr
    host port portNum s script v rep rsv atyp bound rest :
  net_SplitHostPort addr = Ok (host, port) →
  strconv_Atoi port = Ok portNum →
  answers s (SocksDialer.proxyURL d) script → fresh_socket script →
  match ctx_deadline ctx with Some dl => clock s < dl | None => True end →
  inbox script = [5; 0] ++ [v; rep; rsv; atyp] ++ bound ++ rest →
  (rep = 0 → bound_for atyp bound) →
  let c := length (conns s) in
  ∃ r s', SocksDialer.dialSocks5 d ctx addr s = Done r s' ∧
    (rep = 0 → r = Ok c ∧ closes (conn_of s' c) = 0%nat ∧ inbox (conn_of s' c) = rest) ∧
    (rep ≠ 0 → r = Err ErrSOCKSConnectFailed ∧ closes (conn_of s' c) = 1%nat).
Proof.
  intros Hsplit Hatoi Hans Hfresh Hdl Hin Hbound c.
  destruct (dialSocks5_run d ctx addr host port portNum s script 0 [] v rep rsv atyp
              bound rest Hsplit Hatoi Hans Hfresh Hdl)
    as (r & s' & Hrun & _ & _ & Hok & Hbad); [done|done|done|].
  exists r, s'. done.
Qed.

Lemma dialSocks5_reply_handling_witness :
  ∃ s', SocksDialer.dialSocks5 (L := GoStd_lib) socks5_dialer Background "example.com:443"
          (socks5_world_with 0 [5; 0; 0; 3; 1; 120; 0; 80; 7]) = Done (Ok 0%nat) s' ∧
        inbox (conn_of s' 0) = [7].
Proof.
  destruct (dialSocks5_reply_handling (L := GoStd_lib) socks5_dialer Background
              "example.com:443" "example.com" "443" 443
              (socks5_world_with 0 [5; 0; 0; 3; 1; 120; 0; 80; 7])
              (quiet_socket ([5; 0] ++ [5; 0; 0; 3; 1; 120; 0; 80; 7])) 5 0 0 3
              [1; 120; 0; 80] [7])
    as (r & s' & Hrun & Hok & _).
  - reflexivity.
  - reflexivity.
  - exists 0%nat. reflexivity.
  - repeat split; simpl; discriminate.
  - exact I.
  - reflexivity.
  - intros _. exists 1, [120; 0; 80]. split; reflexivity.
  - destruct (Hok eq_refl) as (Hr & _ & Hin).
    exists s'. rewrite Hrun, Hr. split; [reflexivity|exact Hin].
Defined.

(** X16 (SocksDialer.dialSocks5, authenticateSocks5).  When the proxy
    selects method 02 the dialer sends one sub-negotiation frame: 01, the
    length of the user name, the name, the length of the password, the
    password (lengths as one byte each), built from its configuration whether
    or not a user is configured.  A status other than 00 in the two-byte
    answer closes the socket and gives ErrSOCKSAuthFailed, and no request is
    sent.  After status 00 the request follows and, granted, the open socket
    is returned. *)
Theorem dialSocks5_userpass `{L : GoLib} (d : SocksDialer.t) ctx addr
    host port portNum s script av st tail rest :
  net_SplitHostPort addr = Ok (host, port) →
  strconv_Atoi port = Ok portNum →
  answers s (SocksDialer.proxyURL d) script → fresh_socket script →
  match ctx_deadline ctx with Some dl => clock s < dl | None => True end →
  inbox script = [5; 2] ++ [av; st] ++ tail →
  (st = 0 → tail = [5; 0; 0; 1; 0; 0; 0; 0; 0; 0] ++ rest) →
  let c := length (conns s) in
  let user := bytes_of (socks_User (SocksDialer.Config d)) in
  let pass := bytes_of (socks_Pass (SocksDialer.Config d)) in
  let greeting := [5; 1; if nonempty (socks_User (SocksDialer.Config d)) &&
                            nonempty (socks_Pass (SocksDialer.Config d)) then 2 else 0] in
  let auth := [1; Z.of_nat (length user) mod 256] ++ user ++
              [Z.of_nat (length pass) mod 256] ++ pass in
  ∃ r s', SocksDialer.dialSocks5 d ctx addr s = Done r s' ∧
    (st ≠ 0 → r = Err ErrSOCKSAuthFailed ∧ closes (conn_of s' c) = 1%nat ∧
              outbox (conn_of s' c) = [greeting; auth]) ∧
    (st = 0 → r = Ok c ∧ closes (conn_of s' c) = 0%nat ∧
              inbox (conn_of s' c) = rest ∧
              outbox (conn_of s' c) =
                [greeting; auth; SocksDialer.socks5_request host portNum]).
Proof.
  intros Hsplit Hatoi Hans Hfresh Hdl Hin Htail c user pass greeting auth.
  destruct (decide (st = 0)) as [->|Hst].
  - rewrite (Htail eq_refl) in Hin.
    destruct (dialSocks5_run d ctx addr host port portNum s script 2 [av; 0] 5 0 0 1
                [0; 0; 0; 0; 0; 0] rest Hsplit Hatoi Hans Hfresh Hdl)
      as (r & s' & Hrun & _ & Hout & Hok & _).
    + done.
    + rewrite bool_decide_true by done. by exists av.
    + intros _. reflexivity.
    + destruct (Hok eq_refl) as (-> & Hcl & Hinb).
      exists (Ok c), s'. split; [done|]. split; [done|]. intros _.
      split; [done|]. split; [done|]. split; [done|].
      fold c in Hout. rewrite Hout. by rewrite bool_decide_true.
  - subst c.
    pose proof Hfresh as (Hk & Ho & Hr & Hw & Hp & Hout).
    pose proof (usable_with_deadline ctx (clock s) script Hfresh Hdl) as Hus.
    set (s0 := set_dialed (dialed s ++ [SocksDialer.proxyURL d]) s).
    assert (Hck0 : clock s0 = clock s) by done.
    rewrite <- Hck0 in Hus.
    assert (Hin1 : inbox (with_deadline ctx script) = [5; 2] ++ [av; st] ++ tail).
    { unfold with_deadline. by destruct (ctx_deadline ctx). }
    assert (Hout1 : outbox (with_deadline ctx script) = []).
    { unfold with_deadline. by destruct (ctx_deadline ctx). }
    assert (Hcl1 : closes (with_deadline ctx script) = 0%nat).
    { unfold with_deadline. by destruct (ctx_deadline ctx). }
    unfold SocksDialer.dialSocks5, net_DialTimeout.
    step_by (connect_answers s _ script Hans). fold s0.
    step_by (apply_deadline_last ctx (conns s) script s0 Ho Hk).
    set (g := [5; byte (Z.of_nat (length _))] ++ _).
    assert (Hgreet : g = greeting).
    { unfold g, greeting. by destruct (nonempty _ && nonempty _). }
    step_by (Write_last (conns s) (with_deadline ctx script) s0 g Hus).
    set (cs2 := set_outbox _ _).
    assert (Hus2 : usable (clock s0) cs2) by (by apply usable_set_outbox).
    step_by (io_ReadFull_last (conns s) cs2 s0 2 [5; 2] ([av; st] ++ tail) Hus2 Hin1 eq_refl).
    change (at_ [5; 2] 0) with 5. change (at_ [5; 2] 1) with 2.
    rewrite !bool_decide_true by done. cbn [negb]. cbv beta iota.
    set (cs3 := set_inbox _ cs2).
    assert (Hus3 : usable (clock s0) cs3) by (by apply usable_set_inbox).
    unfold bind at 1.
    rewrite (authenticateSocks5_last d (conns s) cs3 s0 av st tail Hus3 eq_refl).
    rewrite bool_decide_false by done. cbv beta iota.
    unfold bind. rewrite conn_Close_last by (simpl; by rewrite kind_with_deadline).
    unfold ret. eexists _, _. split; [reflexivity|]. split; [|done].
    intros _. split; [done|]. rewrite conn_of_last. simpl.
    rewrite Hcl1, Hout1, Hgreet. done.
Qed.

Lemma dialSocks5_userpass_witness :
  ∃ s', SocksDialer.dialSocks5 (L := GoStd_lib) socks5_dialer_up Background "example.com:443"
          (socks5_world_with 2 [1; 1]) = Done (Err ErrSOCKSAuthFailed) s' ∧
        outbox (conn_of s' 0) = [[5; 1; 2]; [1; 1; 117; 1; 112]].
Proof.
  destruct (dialSocks5_userpass (L := GoStd_lib) socks5_dialer_up Background
              "example.com:443" "example.com" "443" 443
              (socks5_world_with 2 [1; 1]) (quiet_socket ([5; 2] ++ [1; 1])) 1 1 [] [])
    as (r & s' & Hrun & Hbad & _).
  - reflexivity.
  - reflexivity.
  - exists 0%nat. reflexivity.
  - repeat split; simpl; discriminate.
  - exact I.
  - reflexivity.
  - discriminate.
  - destruct Hbad as (Hr & _ & Hout); [discriminate|].
    exists s'. rewrite Hrun, Hr. split; [reflexivity|exact Hout].
Defined.

(** ** UDP ASSOCIATE *)

(** X17 (SocksDialer.dialUDPSocks5, authenticateSocks5).  To set up a UDP
    relay the dialer connects to the proxy and, without any greeting, writes
    the user/password sub-negotiation frame first (01 00 00 when nothing is
    configured), expects a two-byte answer with status 00, then writes the
    UDP ASSOCIATE request 05 03 00 01 00 00 00 00 00 00.  When the proxy
    grants it with an IPv4 or IPv6 relay address, it reads that address,
    binds a UDP socket and returns the relay, a connection of its own bound to
    the control connection, which stays open. *)
Theorem dialUDPSocks5_exchange (d : SocksDialer.t) network
    s script av v rsv atyp relay rest :
  answers s (SocksDialer.proxyURL d) script → fresh_socket script →
  inbox script = [av; 0] ++ [v; 0; rsv; atyp] ++ relay ++ rest →
  (atyp = 1 ∧ length relay = 6%nat) ∨ (atyp = 4 ∧ length relay = 18%nat) →
  udp_bind s = None →
  let c := length (conns s) in
  let user := bytes_of (socks_User (SocksDialer.Config d)) in
  let pass := bytes_of (socks_Pass (SocksDialer.Config d)) in
  ∃ s', SocksDialer.dialUDPSocks5 d network s = Done (Ok (S c)) s' ∧
    dialed s' = dialed s ++ [SocksDialer.proxyURL d] ∧
    outbox (conn_of s' c) =
      [[1; Z.of_nat (length user) mod 256] ++ user ++
       [Z.of_nat (length pass) mod 256] ++ pass;
       [5; 3; 0; 1; 0; 0; 0; 0; 0; 0]] ∧
    inbox (conn_of s' c) = rest ∧ closes (conn_of s' c) = 0%nat ∧
    kind (conn_of s' (S c)) = KUDPRelay c ∧ closes (conn_of s' (S c)) = 0%nat.
Proof.
  intros Hans Hfresh Hin Hrelay Hbind c user pass. subst c.
  pose proof Hfresh as (Hk & Ho & Hr & Hw & Hp & Hout).
  set (s0 := set_dialed (dialed s ++ [SocksDialer.proxyURL d]) s).
  assert (Hus : usable (clock s0) script) by (by apply usable_fresh).
  unfold SocksDialer.dialUDPSocks5, net_DialTimeout.
  step_by (connect_answers s _ script Hans). fold s0.
  unfold bind at 1.
  rewrite (authenticateSocks5_last d (conns s) script s0 av 0
             ([v; 0; rsv; atyp] ++ relay ++ rest) Hus Hin).
  rewrite bool_decide_true by done. cbv beta iota.
  fold user. fold pass. set (auth := [1; _] ++ user ++ [_] ++ pass).
  set (cs2 := set_inbox _ _).
  assert (Hus2 : usable (clock s0) cs2) by (by apply usable_set_inbox, usable_set_outbox).
  step_by (Write_last (conns s) cs2 s0 [5; 3; 0; 1; 0; 0; 0; 0; 0; 0] Hus2).
  set (cs3 := set_outbox _ cs2).
  assert (Hus3 : usable (clock s0) cs3) by (by apply usable_set_outbox).
  step_by (io_ReadFull_last (conns s) cs3 s0 4 [v; 0; rsv; atyp] (relay ++ rest)
             Hus3 eq_refl eq_refl).
  change (at_ [v; 0; rsv; atyp] 1) with 0. change (at_ [v; 0; rsv; atyp] 3) with atyp.
  rewrite bool_decide_true by done. cbn [negb]. cbv iota.
  set (cs4 := set_inbox _ cs3).
  assert (Hus4 : usable (clock s0) cs4) by (by apply usable_set_inbox).
  assert (Hread : ∃ n, length relay = n ∧
    (if bool_decide (atyp = 1)
     then let* a := io_ReadFull (length (conns s)) (4 + 2) in
          match a with
          | Ok _ => ret None
          | Err err => conn_Close (Some (length (conns s)));;; ret (Some err)
          end
     else if bool_decide (atyp = 4)
          then let* a := io_ReadFull (length (conns s)) (16 + 2) in
               match a with
               | Ok _ => ret None
               | Err err => conn_Close (Some (length (conns s)));;; ret (Some err)
               end
          else conn_Close (Some (length (conns s)));;;
               ret (Some ErrSOCKSAddressTypeNotSupported))
      (set_conns (conns s ++ [cs4]) s0) =
    Done None (set_conns (conns s ++ [set_inbox rest cs4]) s0)).
  { destruct Hrelay as [[-> Hlen]|[-> Hlen]].
    - exists 6%nat. split; [done|]. rewrite bool_decide_true by done.
      unfold bind. by rewrite (io_ReadFull_last (conns s) cs4 s0 (4 + 2) relay rest Hus4 eq_refl Hlen).
    - exists 18%nat. split; [done|]. rewrite bool_decide_false by done.
      rewrite bool_decide_true by done.
      unfold bind. by rewrite (io_ReadFull_last (conns s) cs4 s0 (16 + 2) relay rest Hus4 eq_refl Hlen). }
  destruct Hread as (n & _ & Hread).
  unfold bind at 1. rewrite Hread. cbv beta iota.
  unfold bind at 1, net_ListenUDP.
  unfold bind at 1, gets at 1. change (udp_bind (set_conns _ s0)) with (udp_bind s).
  rewrite Hbind. unfold bind, new_conn, bind, gets, modify, ret. simpl.
  eexists. split.
  { rewrite length_app. simpl. replace (length (conns s) + 1)%nat with (S (length (conns s))) by lia.
    reflexivity. }
  split; [done|].
  assert (Hc : ∀ x y (s1 : state), conn_of (set_conns ((conns s ++ [x]) ++ [y]) s1)
                 (length (conns s)) = x).
  { intros x y s1. unfold conn_of. simpl. rewrite <- app_assoc.
    by rewrite lookup_app_r, Nat.sub_diag by lia. }
  assert (Hr1 : ∀ x y (s1 : state), conn_of (set_conns ((conns s ++ [x]) ++ [y]) s1)
                 (S (length (conns s))) = y).
  { intros x y s1. unfold conn_of. simpl.
    rewrite lookup_app_r by (rewrite length_app; simpl; lia).
    rewrite length_app. simpl.
    by replace (S (length (conns s)) - (length (conns s) + 1))%nat with 0%nat by lia. }
  change (State ?ck ?cn ?dl ?li ?ub ?p ?m) with (set_conns cn (State ck [] dl li ub p m)).
  rewrite Hc, Hr1. simpl. rewrite Hout. done.
Qed.

Lemma dialUDPSocks5_exchange_witness :
  ∃ s', SocksDialer.dialUDPSocks5 socks5_udp_dialer "udp" socks5_udp_world =
          Done (Ok 1%nat) s' ∧
        outbox (conn_of s' 0) = [[1; 0; 0]; [5; 3; 0; 1; 0; 0; 0; 0; 0; 0]].
Proof.
  destruct (dialUDPSocks5_exchange socks5_udp_dialer "udp" socks5_udp_world
              (quiet_socket ([1; 0] ++ [5; 0; 0; 1] ++ [127; 0; 0; 1; 4; 56]))
              1 5 0 1 [127; 0; 0; 1; 4; 56] [])
    as (s' & Hrun & _ & Hout & _).
  - exists 0%nat. reflexivity.
  - repeat split; simpl; discriminate.
  - reflexivity.
  - left. split; reflexivity.
  - reflexivity.
  - exists s'. split; [exact Hrun|exact Hout].
Defined.

Lemma relay_first_Close s (u ctl : nat) :
  kind (conn_of s u) = KUDPRelay ctl → closes (conn_of s u) = 0%nat →
  conn_Close (Some u) s =
  Done tt (set_conns (alter (λ x, set_closes (S (closes x)) x) u
                        (alter (λ x, set_closes (S (closes x)) x) ctl (conns s))) s).
Proof.
  intros Hk Ho. unfold conn_Close, bind, get_conn, gets, upd_conn, modify, is_closed.
  rewrite Hk, Ho. by rewrite bool_decide_false by lia.
Qed.

Lemma relay_later_Close s (u ctl : nat) :
  kind (conn_of s u) = KUDPRelay ctl → closes (conn_of s u) ≠ 0%nat →
  conn_Close (Some u) s =
  Done tt (set_conns (alter (λ x, set_closes (S (closes x)) x) u (conns s)) s).
Proof.
  intros Hk Ho. unfold conn_Close, bind, get_conn, gets, upd_conn, modify, is_closed, ret.
  rewrite Hk. by rewrite bool_decide_true by done.
Qed.

(** X18 (SocksUDPConn.Close).  Closing a relay closes its control
    connection with it, the first time only: however often Close is called
    on the relay, Close is called on the control connection exactly once. *)
Theorem relay_Close_closes_control_once s (u ctl : nat) :
  kind (conn_of s u) = KUDPRelay ctl → closes (conn_of s u) = 0%nat →
  (ctl < length (conns s))%nat → ctl ≠ u →
  ∃ s1 s2, conn_Close (Some u) s = Done tt s1 ∧ conn_Close (Some u) s1 = Done tt s2 ∧
    closes (conn_of s1 ctl) = S (closes (conn_of s ctl)) ∧
    closes (conn_of s2 ctl) = S (closes (conn_of s ctl)) ∧
    closes (conn_of s1 u) ≠ 0%nat.
Proof.
  intros Hk Ho Hctl Hne.
  pose proof (open_valid s u Ho) as Hu.
  rewrite (relay_first_Close s u ctl Hk Ho).
  set (s0 := set_conns (alter (λ x, set_closes (S (closes x)) x) ctl (conns s)) s).
  set (s1 := set_conns _ s).
  assert (Hs1 : s1 = set_conns (alter (λ x, set_closes (S (closes x)) x) u (conns s0)) s0)
    by done.
  assert (Hu0 : conn_of s0 u = conn_of s u) by (unfold s0; by rewrite conn_of_alter_ne).
  assert (Hc0 : conn_of s0 ctl = set_closes (S (closes (conn_of s ctl))) (conn_of s ctl))
    by (unfold s0; by rewrite conn_of_alter_eq).
  assert (Hu1 : conn_of s1 u = set_closes (S (closes (conn_of s u))) (conn_of s u)).
  { rewrite Hs1, conn_of_alter_eq by (unfold s0; simpl; by rewrite length_alter).
    by rewrite Hu0. }
  assert (Hc1 : conn_of s1 ctl = conn_of s0 ctl) by (rewrite Hs1; by rewrite conn_of_alter_ne).
  exists s1. eexists. split; [done|].
  rewrite (relay_later_Close s1 u ctl) by (by rewrite Hu1).
  split; [reflexivity|].
  split; [by rewrite Hc1, Hc0|].
  split; [|by rewrite Hu1].
  rewrite conn_of_alter_ne by done. by rewrite Hc1, Hc0.
Qed.

Lemma relay_Close_closes_control_once_witness :
  ∃ s1 s2, conn_Close (Some 1%nat) relay_world = Done tt s1 ∧
    conn_Close (Some 1%nat) s1 = Done tt s2 ∧
    closes (conn_of s2 0) = 1%nat.
Proof.
  destruct (relay_Close_closes_control_once relay_world 1%nat 0%nat)
    as (s1 & s2 & H1 & H2 & _ & Hc & _).
  - reflexivity.
  - reflexivity.
  - simpl. lia.
  - discriminate.
  - exists s1, s2. split; [exact H1|]. split; [exact H2|exact Hc].
Defined.

(** ** Datagrams through the relay *)

Lemma To4_length ip ip4 : To4 ip = Some ip4 → length ip4 = 4%nat.
Proof.
  unfold To4. repeat case_decide; intros Heq; inversion Heq; subst; [done|].
  rewrite length_drop. lia.
Qed.

Lemma take_drop_take {A} (l : list A) (n k : nat) :
  take n (drop k (take (n + k + 6) l)) = take n (drop k l).
Proof.
  replace (n + k + 6)%nat with (k + (n + 6))%nat by lia.
  rewrite <- take_drop_commute.
  rewrite take_take. f_equal. lia.
Qed.

(** X19 (SocksUDPConn.Write, SocksUDPConn.Read).  For an IPv4 target
    [Write] sends the payload behind a header of eleven bytes, 00 00 00 01 01,
    the four address bytes and the port, and returns the length of the whole
    datagram, eleven more than the length of what it was given.  [Read]
    strips ten bytes.  So a datagram as [Write] builds it, read back by
    [Read], does not give the payload: it gives the low byte of the port
    followed by the payload. *)
Theorem relay_Write_then_Read (c : SocksUDPConn.t) (b ip4 : list Z) (lenb : nat) :
  SocksUDPConn.closed c = false →
  To4 (SocksUDPConn.targetAddr_IP c) = Some ip4 →
  let port := SocksUDPConn.targetAddr_Port c in
  let header := [0; 0; 0; 1; 1] ++ ip4 ++ [(port / 256) mod 256; port mod 256] in
  length header = 11%nat ∧
  SocksUDPConn.Write c b None =
    (Some (header ++ b), (Z.of_nat (length b) + 11, None)) ∧
  SocksUDPConn.Read c lenb (Ok (header ++ b)) =
    (take lenb (port mod 256 :: b),
     (Z.of_nat (length (take (lenb + 6) (port mod 256 :: b))), None)).
Proof.
  intros Hopen Hip port header.
  pose proof (To4_length _ _ Hip) as Hlen4.
  assert (Hh : length header = 11%nat).
  { unfold header. rewrite !length_app, Hlen4. done. }
  split; [done|]. split.
  - unfold SocksUDPConn.Write. rewrite Hopen, Hip. simpl default.
    rewrite PutUint16_uint16. fold port.
    replace (([0; 0; 0; 1; 1] ++ ip4) ++ [(port / 256) mod 256; port mod 256]) with header
      by (unfold header; by rewrite <- app_assoc).
    rewrite length_app, Hh. do 2 f_equal. f_equal. lia.
  - unfold SocksUDPConn.Read. rewrite Hopen.
    assert (Hd : drop 10 (header ++ b) = port mod 256 :: b).
    { unfold header. destruct ip4 as [|a0 [|a1 [|a2 [|a3 [|]]]]]; try done. }
    set (pl := port mod 256 :: b) in *.
    assert (Hbuf : length (take (lenb + 10 + 4 + 2) (header ++ b)) =
                   (10 + length (take (lenb + 6) pl))%nat).
    { rewrite <- Hd. rewrite !length_take, length_drop, length_app, Hh. lia. }
    rewrite bool_decide_false by (rewrite Hbuf; lia).
    f_equal.
    + replace (lenb + 10 + 4 + 2)%nat with (lenb + 10 + 6)%nat by lia.
      by rewrite take_drop_take, Hd.
    + rewrite Hbuf. f_equal. lia.
Qed.

Lemma relay_Write_then_Read_witness :
  SocksUDPConn.Read dns_relay 2 (Ok ([0; 0; 0; 1; 1; 93; 184; 216; 34; 0; 53] ++ [7; 8])) =
  ([53; 7], (3, None)).
Proof.
  destruct (relay_Write_then_Read dns_relay [7; 8] [93; 184; 216; 34] 2)
    as (_ & _ & Hread).
  - reflexivity.
  - reflexivity.
  - exact Hread.
Defined.

(** X20 (SocksUDPConn.Read, SocksUDPConn.Write).  [Read] on an open relay:
    a datagram of fewer than ten bytes gives io.ErrShortBuffer; otherwise the
    buffer receives what follows the first ten bytes, as far as it has room,
    and the count returned is the number of bytes received minus ten, which
    exceeds the length of the buffer, by up to six, when the datagram is
    longer than the buffer plus ten.  On a closed relay [Read] and [Write]
    give net.ErrClosed and nothing is sent. *)
Theorem relay_Read_strips_ten (c : SocksUDPConn.t) (lenb : nat) (dgram b : list Z) wr :
  (SocksUDPConn.closed c = true →
     SocksUDPConn.Read c lenb (Ok dgram) = ([], (0, Some net_ErrClosed)) ∧
     SocksUDPConn.Write c b wr = (None, (0, Some net_ErrClosed))) ∧
  (SocksUDPConn.closed c = false →
     ((length dgram < 10)%nat →
        SocksUDPConn.Read c lenb (Ok dgram) = ([], (0, Some io_ErrShortBuffer))) ∧
     ((10 ≤ length dgram)%nat →
        SocksUDPConn.Read c lenb (Ok dgram) =
          (take lenb (drop 10 dgram),
           (Z.of_nat (length (take (lenb + 6) (drop 10 dgram))), None))) ∧
     ((lenb + 16 ≤ length dgram)%nat →
        SocksUDPConn.Read c lenb (Ok dgram) =
          (take lenb (drop 10 dgram), (Z.of_nat lenb + 6, None)))).
Proof.
  split.
  - intros Hc. unfold SocksUDPConn.Read, SocksUDPConn.Write. by rewrite Hc.
  - intros Hc.
    assert (Hlong : (10 ≤ length dgram)%nat →
        SocksUDPConn.Read c lenb (Ok dgram) =
          (take lenb (drop 10 dgram),
           (Z.of_nat (length (take (lenb + 6) (drop 10 dgram))), None))).
    { intros Hl. unfold SocksUDPConn.Read. rewrite Hc.
      assert (Hbuf : length (take (lenb + 10 + 4 + 2) dgram) =
                     (10 + length (take (lenb + 6) (drop 10 dgram)))%nat).
      { rewrite !length_take, length_drop. lia. }
      rewrite bool_decide_false by (rewrite Hbuf; lia).
      f_equal.
      + replace (lenb + 10 + 4 + 2)%nat with (lenb + 10 + 6)%nat by lia.
        by rewrite take_drop_take.
      + rewrite Hbuf. f_equal. lia. }
    split; [|split].
    + intros Hl. unfold SocksUDPConn.Read. rewrite Hc.
      rewrite bool_decide_true; [done|]. rewrite length_take. lia.
    + done.
    + intros Hl. rewrite Hlong by lia. do 2 f_equal.
      rewrite length_take, length_drop. f_equal. lia.
Qed.

(** ** The manager: reuse of a released connection *)



Lemma answers_set_mc s m address script :
  answers s address script → answers (set_mc m s) address script.
Proof. done. Qed.





(** ** Configurations and the dialers made from them *)

(** X22 (Config.Validate, createProxyDialer, createHTTPProxyDialer,
    createSocksDialer, NewSocksDialer, Config.GetProxyAddr).  For an enabled
    configuration that [Validate] accepts, [createProxyDialer] never makes a
    direct dialer.  For the types http, https and http2 it makes an HTTP
    dialer, for socks4 and socks5 a SOCKS dialer, each for the proxy address
    [GetProxyAddr] gives, of the configured type and with the sink it was
    handed; it fails only when the client key pair cannot be loaded (HTTP
    types, error wrapping ErrCertValidation) and for the type socks4a, which
    [Validate] accepts but for which there is no dialer. *)
Theorem validated_config_dialer (load : string → string → option error)
    (cfg : config.Config) (m : sinkptr) :
  config.Validate cfg = None → config.Enable cfg = true →
  let t := config.ProxyType_ cfg in
  match createProxyDialer load cfg m with
  | Ok ProxyManager.NetDialer => False
  | Ok (ProxyManager.HTTPDialer d) =>
      (t = HTTP ∨ t = HTTPS ∨ t = HTTP2) ∧
      HTTPProxyDialer.proxyURL_Host d = config.GetProxyAddr cfg ∧
      HTTPProxyDialer.proxyType d = t ∧ HTTPProxyDialer.tlsConfig d = true ∧
      HTTPProxyDialer.metrics d = m
  | Ok (ProxyManager.SOCKSDialer d) =>
      (t = SOCKS4 ∨ t = SOCKS5) ∧
      SocksDialer.proxyURL d = config.GetProxyAddr cfg ∧
      SocksDialer.proxyType d = t ∧ SocksDialer.metrics d = m
  | Err e =>
      (t = SOCKS4A ∧ e = errors_New "unsupported proxy type: socks4a") ∨
      ((t = HTTP ∨ t = HTTPS ∨ t = HTTP2) ∧ errors_Is e ErrCertValidation = true)
  end.
Proof.
  intros Hval Hen t. unfold config.Validate in Hval. rewrite Hen in Hval.
  cbn [negb] in Hval. repeat case_bool_decide; try done.
  unfold createProxyDialer. rewrite Hen. cbn [negb]. cbv iota.
  fold t. fold t in Hval.
  destruct t eqn:Ht; try done.
  - unfold createHTTPProxyDialer.
    destruct (if nonempty _ && nonempty _ then load _ _ else None); simpl; [right|]; eauto 10.
  - unfold createHTTPProxyDialer.
    destruct (if nonempty _ && nonempty _ then load _ _ else None); simpl; [right|]; eauto 10.
  - unfold createHTTPProxyDialer.
    destruct (if nonempty _ && nonempty _ then load _ _ else None); simpl; [right|]; eauto 10.
  - simpl. eauto 10.
  - simpl. by left.
  - simpl. eauto 10.
Qed.

Lemma validated_config_dialer_witness :
  createProxyDialer (λ _ _, None) socks4a_config false =
  Err (errors_New "unsupported proxy type: socks4a").
Proof.
  pose proof (validated_config_dialer (λ _ _, None) socks4a_config false eq_refl eq_refl) as H.
  destruct (createProxyDialer (λ _ _, None) socks4a_config false) as [[|d|d]|e].
  - destruct H.
  - destruct H as ([H|[H|H]] & _); discriminate H.
  - destruct H as ([H|H] & _); discriminate H.
  - destruct H as [[_ ->]|[[H|[H|H]] _]]; [reflexivity|discriminate H..].
Defined.

(** X23 (ProxyManager.UpdateConfig, ProxyManager.DialContext).
    [UpdateConfig(nil)] succeeds and leaves the manager without configuration
    and without dialer.  Every dial through a manager without configuration
    panics: [DialContext] reads [pm.Config.MetricsEnable] before anything
    else, so its answer for a missing dialer, ErrUnsupportedProxy, is never
    reached. *)
Theorem UpdateConfig_nil_then_dial_panics `{L : GoLib}
    (load : string → string → option error) (pm : ProxyManager.t) ctx network addr s :
  UpdateConfig load pm None =
    (ProxyManager.Mk None None (ProxyManager.Metrics pm), None) ∧
  ProxyManager.DialContext (UpdateConfig load pm None).1 ctx network addr s =
    Panic NilConfig ∧
  (ProxyManager.Config pm = None →
   ProxyManager.DialContext pm ctx network addr s = Panic NilConfig).
Proof.
  split; [done|]. split; [done|].
  intros Hc. unfold ProxyManager.DialContext, bind, time_Now, gets,
    ProxyManager.metrics_on. by rewrite Hc.
Qed.

(** ** A proxy that cannot be reached, and one that never answers *)

Lemma connect_refused s address :
  list_find (λ e, e.1 = address) (listen s) = None →
  connect address s = Done (Err ECONNREFUSED) (set_dialed (dialed s ++ [address]) s).
Proof.
  intros Hnone. unfold connect, bind, modify, gets, ret. simpl. by rewrite Hnone.
Qed.

(** X24 (dialHTTP, dialHTTPS, dialSocks4, dialSocks5, dialUDPSocks5).  When
    the connect to the proxy fails, each dialer reports it in its own way:
    the HTTP and HTTPS dialers return ErrProxyDialFailed wrapped with the text
    of the cause, the SOCKS4 and SOCKS5 dialers return
    ErrSOCKSProxyUnreachable and drop the cause, and the UDP set-up returns
    the cause itself, which is not ErrSOCKSProxyUnreachable. *)
Theorem proxy_unreachable_errors `{L : GoLib} (h : HTTPProxyDialer.t) (d : SocksDialer.t)
    ctx addr host port portNum network s :
  in_time ctx (clock s) →
  list_find (λ e, e.1 = HTTPProxyDialer.proxyURL_Host h) (listen s) = None →
  list_find (λ e, e.1 = SocksDialer.proxyURL d) (listen s) = None →
  HTTPProxyDialer.tlsConfig h = true →
  net_SplitHostPort addr = Ok (host, port) → strconv_Atoi port = Ok portNum →
  (∃ msg s', HTTPProxyDialer.dialHTTP h ctx addr s =
               Done (Err (WrapError ErrProxyDialFailed msg)) s' ∧ conns s' = conns s) ∧
  (∃ msg s', HTTPProxyDialer.dialHTTPS h ctx addr s =
               Done (Err (WrapError ErrProxyDialFailed msg)) s' ∧ conns s' = conns s) ∧
  (∃ s', SocksDialer.dialSocks4 d ctx addr s = Done (Err ErrSOCKSProxyUnreachable) s' ∧
         conns s' = conns s) ∧
  (∃ s', SocksDialer.dialSocks5 d ctx addr s = Done (Err ErrSOCKSProxyUnreachable) s' ∧
         conns s' = conns s) ∧
  (∃ e s', SocksDialer.dialUDPSocks5 d network s = Done (Err e) s' ∧
           errors_Is e ErrSOCKSProxyUnreachable = false ∧ conns s' = conns s).
Proof.
  intros Hctx Hh Hd Htls Hsplit Hatoi.
  pose proof (in_time_no_err _ _ Hctx) as Hno.
  assert (Hnot : ctx_Err ctx (clock s) ≠ Some context_DeadlineExceeded) by (by rewrite Hno).
  split; [|split; [|split; [|split]]].
  - unfold HTTPProxyDialer.dialHTTP.
    unfold bind at 1, net_Dialer_DialContext, bind at 1, time_Now, gets at 1.
    rewrite Hno, (connect_refused s _ Hh). cbv beta iota.
    unfold bind, time_Now, gets. simpl clock. rewrite bool_decide_false by done.
    unfold ret. eexists _, _. split; [reflexivity|done].
  - unfold HTTPProxyDialer.dialHTTPS. rewrite Htls. cbn [negb]. cbv iota.
    unfold bind at 1, net_Dialer_DialContext, bind at 1, time_Now, gets at 1.
    rewrite Hno, (connect_refused s _ Hh). cbv beta iota.
    unfold bind, time_Now, gets. simpl clock. rewrite bool_decide_false by done.
    unfold ret. eexists _, _. split; [reflexivity|done].
  - unfold SocksDialer.dialSocks4, net_DialTimeout. rewrite Hsplit, Hatoi.
    unfold bind. rewrite (connect_refused s _ Hd). unfold ret. eexists. split; [reflexivity|done].
  - unfold SocksDialer.dialSocks5, net_DialTimeout.
    unfold bind. rewrite (connect_refused s _ Hd). unfold ret. eexists. split; [reflexivity|done].
  - unfold SocksDialer.dialUDPSocks5, net_DialTimeout.
    unfold bind. rewrite (connect_refused s _ Hd). unfold ret.
    eexists _, _. split; [reflexivity|done].
Qed.

Lemma proxy_unreachable_errors_witness :
  ∃ s', SocksDialer.dialSocks5 (L := GoStd_lib) socks5_dialer Background "example.com:443"
          http_407_world = Done (Err ErrSOCKSProxyUnreachable) s'.
Proof.
  destruct (proxy_unreachable_errors (L := GoStd_lib) https_dialer socks5_dialer Background
              "example.com:443" "example.com" "443" 443 "udp" http_407_world)
    as (_ & _ & _ & (s' & Hrun & _) & _).
  - split; [reflexivity|exact I].
  - reflexivity.
  - reflexivity.
  - reflexivity.
  - reflexivity.
  - reflexivity.
  - exists s'. exact Hrun.
Defined.

Lemma Read_silent_last l cs s0 n :
  usable (clock s0) cs → inbox cs = [] → peer cs = PeerSilent → rdeadline cs = None →
  Read (length l) n (set_conns (l ++ [cs]) s0) = Hang.
Proof.
  intros (Ho & _ & Hr & _) Hin Hp Hd.
  unfold Read, bind, get_conn, time_Now, gets, is_closed, starved, hang.
  rewrite conn_of_last. change (clock (set_conns (l ++ [cs]) s0)) with (clock s0).
  rewrite Ho, Hr, Hin, Hp, Hd. by rewrite bool_decide_false by lia.
Qed.

Lemma io_ReadFull_silent_last l cs s0 n :
  usable (clock s0) cs → inbox cs = [] → peer cs = PeerSilent →
  io_ReadFull (length l) (S n) (set_conns (l ++ [cs]) s0) =
  match rdeadline cs with
  | Some d => Done (Err os_ErrDeadlineExceeded)
                (set_clock d (set_conns (l ++ [set_inbox [] cs]) s0))
  | None => Hang
  end.
Proof.
  intros (Ho & _ & Hr & _) Hin Hp.
  unfold io_ReadFull, read_exactly, starved, bind, get_conn, time_Now, gets, is_closed,
    upd_conn, modify, hang, ret.
  rewrite conn_of_last. change (clock (set_conns (l ++ [cs]) s0)) with (clock s0).
  rewrite Ho, Hr, Hin, Hp. rewrite bool_decide_false by lia.
  rewrite decide_False by (simpl; lia).
  change (conns (set_conns (l ++ [cs]) s0)) with (l ++ [cs]). rewrite alter_last.
  by destruct (rdeadline cs).
Qed.

(** X25 (dialHTTP, sendConnectRequest, dialSocks5).  A proxy that accepts
    the connection and then never sends anything.  [dialHTTP] sets no
    deadline on the socket, so its read of the response blocks for ever,
    whatever deadline the context carries.  [dialSocks5] puts the deadline of
    the context on the socket: without one it blocks for ever in the read of
    the method answer; with one the read times out at the deadline, the
    socket is closed and the timeout error of the read is returned. *)
Theorem silent_proxy_blocks `{L : GoLib} (h : HTTPProxyDialer.t) (d : SocksDialer.t)
    ctx addr s sh sd :
  in_time ctx (clock s) →
  answers s (HTTPProxyDialer.proxyURL_Host h) sh → fresh_socket sh →
  inbox sh = [] → peer sh = PeerSilent →
  answers s (SocksDialer.proxyURL d) sd → fresh_socket sd →
  inbox sd = [] → peer sd = PeerSilent →
  let c := length (conns s) in
  HTTPProxyDialer.dialHTTP h ctx addr s = Hang ∧
  match ctx_deadline ctx with
  | None => SocksDialer.dialSocks5 d ctx addr s = Hang
  | Some dl =>
      ∃ s', SocksDialer.dialSocks5 d ctx addr s = Done (Err os_ErrDeadlineExceeded) s' ∧
            clock s' = dl ∧ closes (conn_of s' c) = 1%nat
  end.
Proof.
  intros Hctx Hansh Hfh Hinh Hph Hansd Hfd Hind Hpd c. subst c. split.
  - pose proof Hfh as (Hk & Ho & Hr & Hw & Hp & Hout).
    unfold HTTPProxyDialer.dialHTTP.
    unfold bind at 1, net_Dialer_DialContext, bind at 1, time_Now, gets at 1.
    rewrite (in_time_no_err _ _ Hctx).
    rewrite (connect_answers s _ sh Hansh). cbv beta iota.
    set (s0 := set_dialed _ s).
    assert (Hus : usable (clock s0) sh) by (by apply usable_fresh).
    unfold bind at 1, HTTPProxyDialer.sendConnectRequest.
    step_by (Write_last (conns s) sh s0
               (http_Request_Write addr (HTTPProxyDialer.basic_auth h)) Hus).
    set (cs1 := set_outbox _ sh).
    assert (Hus1 : usable (clock s0) cs1) by (by apply usable_set_outbox).
    unfold bind at 1, http_ReadResponse_from, bind at 1.
    by rewrite (Read_silent_last (conns s) cs1 s0 4096 Hus1).
  - pose proof Hfd as (Hk & Ho & Hr & Hw & Hp & Hout).
    destruct Hctx as [_ Hdl].
    pose proof (usable_with_deadline ctx (clock s) sd Hfd Hdl) as Hus.
    set (s0 := set_dialed (dialed s ++ [SocksDialer.proxyURL d]) s).
    assert (Hck0 : clock s0 = clock s) by done.
    rewrite <- Hck0 in Hus.
    assert (Hrun : ∃ cs', closes cs' = 1%nat ∧
      SocksDialer.dialSocks5 d ctx addr s =
      match ctx_deadline ctx with
      | None => Hang
      | Some dl => Done (Err os_ErrDeadlineExceeded)
                     (set_conns (conns s ++ [cs']) (set_clock dl s0))
      end).
    { unfold SocksDialer.dialSocks5, net_DialTimeout.
      unfold bind at 1. rewrite (connect_answers s _ sd Hansd). cbv beta iota. fold s0.
      unfold bind at 1. rewrite (apply_deadline_last ctx (conns s) sd s0 Ho Hk). cbv beta iota.
      set (g := [5; byte (Z.of_nat (length _))] ++ _).
      unfold bind at 1. rewrite (Write_last (conns s) (with_deadline ctx sd) s0 g Hus).
      cbv beta iota.
      set (cs2 := set_outbox _ _).
      assert (Hus2 : usable (clock s0) cs2) by (by apply usable_set_outbox).
      assert (Hin2 : inbox cs2 = [])
        by (unfold cs2, with_deadline; by destruct (ctx_deadline ctx)).
      assert (Hp2 : peer cs2 = PeerSilent)
        by (unfold cs2, with_deadline; by destruct (ctx_deadline ctx)).
      assert (Hk2 : kind cs2 = KSocket) by (unfold cs2; simpl; by rewrite kind_with_deadline).
      assert (Hcl2 : closes cs2 = 0%nat)
        by (unfold cs2, with_deadline; by destruct (ctx_deadline ctx)).
      assert (Hd2 : rdeadline cs2 = ctx_deadline ctx).
      { unfold cs2, with_deadline. by destruct (ctx_deadline ctx). }
      unfold bind at 1.
      rewrite (io_ReadFull_silent_last (conns s) cs2 s0 1 Hus2 Hin2 Hp2). rewrite Hd2.
      exists (set_closes 1 (set_inbox [] cs2)). split; [done|].
      destruct (ctx_deadline ctx) as [dl|]; [|done].
      unfold bind.
      change (set_clock dl (set_conns (conns s ++ [set_inbox [] cs2]) s0)) with
        (set_conns (conns s ++ [set_inbox [] cs2]) (set_clock dl s0)).
      rewrite conn_Close_last by done. unfold ret.
      change (closes (set_inbox [] cs2)) with (closes cs2). by rewrite Hcl2. }
    destruct Hrun as (cs' & Hcl' & ->).
    destruct (ctx_deadline ctx) as [dl|]; [|done].
    eexists. split; [reflexivity|]. split; [done|]. by rewrite conn_of_last.
Qed.

Lemma silent_proxy_blocks_witness :
  HTTPProxyDialer.dialHTTP (L := GoStd_lib) http_dialer Background "example.com:443"
    silent_world = Hang ∧
  SocksDialer.dialSocks5 (L := GoStd_lib) socks5_dialer Background "example.com:443"
    silent_world = Hang.
Proof.
  apply (silent_proxy_blocks (L := GoStd_lib) http_dialer socks5_dialer Background
           "example.com:443" silent_world (quiet_socket []) (quiet_socket [])).
  - split; [reflexivity|exact I].
  - exists 0%nat. reflexivity.
  - repeat split; simpl; discriminate.
  - reflexivity.
  - reflexivity.
  - exists 1%nat. reflexivity.
  - repeat split; simpl; discriminate.
  - reflexivity.
  - reflexivity.
Defined.
